(** * ARIA front end: a shallow embedding of the client-side logic

    The development follows the React front end of ARIA:
    - [JsString]: the string built-ins the components call;
    - [Base64]: [atob], used to decode the audio of a translation;
    - [Api]: the shared axios client and its interceptors (services/api.js);
    - [Transcription]: the request each service function issues
      (services/transcription.js);
    - [SignToSpeech], [SpeechToSign]: the two dashboard components;
    - [VideoCompression]: [compressVideo] (utils/videoCompression.js);
    - [History]: the history list (components/Dashboard/History.jsx).

    Conventions.  A JavaScript string is a sequence of code units; here a
    code unit is one of Rocq's 8-bit characters, so the strings of the model
    are the strings over U+0000..U+00FF.  [null] and [undefined] are [None].
    A number is a binary64 float where the code adds up fractions (the
    recording time), an integer where it counts milliseconds, and a
    rational where it is a duration read from a video.  React state and
    refs are one record per component; a handler is a function on that
    record which also returns the effects it asked for (requests, timers,
    sounds).  A handler that awaits a request either takes the reply as an
    argument or comes in two parts, one up to the [await] and one for the
    reply.  What the browser does (events, timers firing) is a list of
    events fed to the handlers. *)

From Stdlib Require Import String Ascii List ZArith NArith QArith Qround Qminmax Floats Lia ZifyNat Bool.
From stdpp Require Import base option list gmap strings pretty.
Import ListNotations.

Local Open Scope string_scope.
Local Open Scope bool_scope.
Local Open Scope list_scope.

(* ===================================================================== *)
(** * Strings *)
(* ===================================================================== *)

Module JsString.

(** A string is truthy when it is not empty. *)
Definition truthy (s : string) : bool :=
  match s with
  | EmptyString => false
  | String _ _ => true
  end.

(** [x || d] on a possibly missing string. *)
Definition orElse (x : option string) (d : string) : string :=
  match x with
  | Some s => if truthy s then s else d
  | None => d
  end.

(** Truthiness of a possibly missing string. *)
Definition truthyOpt (x : option string) : bool :=
  match x with
  | Some s => truthy s
  | None => false
  end.

(** [String.prototype.toLowerCase] on one code unit below U+0100:
    A..Z, and the Latin-1 capitals U+00C0..U+00DE except the
    multiplication sign U+00D7, move up by 32. *)
Definition toLowerCaseChar (c : ascii) : ascii :=
  let n := N_of_ascii c in
  if ((65 <=? n) && (n <=? 90))%N
     || ((192 <=? n) && (n <=? 222) && negb (n =? 215))%N
  then ascii_of_N (n + 32)
  else c.

Fixpoint toLowerCase (s : string) : string :=
  match s with
  | EmptyString => EmptyString
  | String c s' => String (toLowerCaseChar c) (toLowerCase s')
  end.

(** [s.startsWith(p)]. *)
Fixpoint startsWith (s p : string) : bool :=
  match p, s with
  | EmptyString, _ => true
  | String _ _, EmptyString => false
  | String a p', String b s' => Ascii.eqb a b && startsWith s' p'
  end.

(** [s.includes(p)]: [p] occurs somewhere in [s]. *)
Fixpoint includes (s p : string) : bool :=
  startsWith s p ||
  match s with
  | EmptyString => false
  | String _ s' => includes s' p
  end.

(** White space and line terminators below U+0100: TAB, LF, VT, FF, CR,
    SPACE and the no-break space. *)
Definition isWhiteSpace (c : ascii) : bool :=
  let n := N_of_ascii c in
  ((9 <=? n) && (n <=? 13) || (n =? 32) || (n =? 160))%N.

Fixpoint trimStart (s : string) : string :=
  match s with
  | EmptyString => EmptyString
  | String c s' => if isWhiteSpace c then trimStart s' else s
  end.

Fixpoint trimEnd (s : string) : string :=
  match s with
  | EmptyString => EmptyString
  | String c s' =>
      match trimEnd s' with
      | EmptyString => if isWhiteSpace c then EmptyString else String c EmptyString
      | t => String c t
      end
  end.

(** [s.trim()]. *)
Definition trim (s : string) : string := trimEnd (trimStart s).

(** What is left of [s] after its prefix [p], when [p] is a prefix. *)
Fixpoint dropPrefix (s p : string) : option string :=
  match p, s with
  | EmptyString, _ => Some s
  | String _ _, EmptyString => None
  | String a p', String b s' =>
      if Ascii.eqb a b then dropPrefix s' p' else None
  end.

(** [s.replace(p, r)] with a string pattern and a replacement free of
    [$]: the first occurrence of [p] is replaced, the rest is kept. *)
Fixpoint replace (s p r : string) : string :=
  match dropPrefix s p with
  | Some rest => r +:+ rest
  | None =>
      match s with
      | EmptyString => EmptyString
      | String c s' => String c (replace s' p r)
      end
  end.

(** A string that is empty or starts with a character that is not white
    space. *)
Definition startsClean (s : string) : Prop :=
  match s with
  | EmptyString => True
  | String c _ => isWhiteSpace c = false
  end.

End JsString.

(* ===================================================================== *)
(** * Blobs and base64 *)
(* ===================================================================== *)

(** A blob: its bytes and its MIME type. *)
Record Blob := mkBlob {
  blob_data : list Byte.byte;
  blob_type : string
}.

Definition blob_size (b : Blob) : nat := length (blob_data b).

(** [new Blob(parts, { type })]: the parts' bytes, one after the other. *)
Definition newBlob (parts : list Blob) (type : string) : Blob :=
  mkBlob (concat (map blob_data parts)) type.

(** A URL as the components hold one: the empty string, or the object URL
    [URL.createObjectURL] made for a blob. *)
Inductive Url :=
| EmptyUrl
| ObjectUrl (b : Blob).

Module Base64.

(** The value of a character of the base64 alphabet. *)
Definition sextet (c : ascii) : option N :=
  let n := N_of_ascii c in
  if ((65 <=? n) && (n <=? 90))%N then Some (n - 65)%N
  else if ((97 <=? n) && (n <=? 122))%N then Some (n - 71)%N
  else if ((48 <=? n) && (n <=? 57))%N then Some (n + 4)%N
  else if (n =? 43)%N then Some 62%N
  else if (n =? 47)%N then Some 63%N
  else None.

(** ASCII white space, which [atob] skips: TAB, LF, FF, CR, SPACE. *)
Definition isAsciiWhitespace (c : ascii) : bool :=
  let n := N_of_ascii c in
  ((n =? 9) || (n =? 10) || (n =? 12) || (n =? 13) || (n =? 32))%N.

Definition chars (s : string) : list ascii := list_ascii_of_string s.

(** A leading [=] dropped, if there is one. *)
Definition dropPad (l : list ascii) : list ascii :=
  match l with
  | c :: l' => if Ascii.eqb c "="%char then l' else l
  | [] => []
  end.

(** One or two trailing [=] are dropped when the length is a multiple
    of four. *)
Definition stripPadding (l : list ascii) : list ascii :=
  if (length l mod 4 =? 0)%nat then rev (dropPad (dropPad (rev l))) else l.

Definition byteOfN (n : N) : Byte.byte := byte_of_ascii (ascii_of_N n).

(** Four sextets give three bytes; a tail of three gives two bytes and a
    tail of two gives one, the spare bits being discarded. *)
Fixpoint decodeSextets (l : list N) : list Byte.byte :=
  match l with
  | a :: b :: c :: d :: r =>
      let n := (a * 262144 + b * 4096 + c * 64 + d)%N in
      byteOfN (n / 65536) :: byteOfN ((n / 256) mod 256) :: byteOfN (n mod 256)
        :: decodeSextets r
  | [a; b; c] =>
      let n := (a * 4096 + b * 64 + c)%N in
      [byteOfN (n / 1024); byteOfN ((n / 4) mod 256)]
  | [a; b] => [byteOfN ((a * 64 + b) / 16)]
  | _ => []
  end.

(** [atob]: the forgiving base64 decoder of browsers.  [None] is the
    [InvalidCharacterError] it throws. *)
Definition atob (s : string) : option (list Byte.byte) :=
  let l := stripPadding (List.filter (fun c => negb (isAsciiWhitespace c)) (chars s)) in
  if (length l mod 4 =? 1)%nat then None
  else
    match mapM sextet l with
    | Some v => Some (decodeSextets v)
    | None => None
    end.

(** The character of the base64 alphabet for a value below 64. *)
Definition alphabet (n : N) : ascii :=
  if (n <? 26)%N then ascii_of_N (n + 65)
  else if (n <? 52)%N then ascii_of_N (n + 71)
  else if (n <? 62)%N then ascii_of_N (n - 4)
  else if (n =? 62)%N then "+"%char
  else "/"%char.

Definition nOfByte (b : Byte.byte) : N := Byte.to_N b.

(** Three bytes give four sextets; a tail of two gives three and a tail
    of one gives two, the spare bits being zero. *)
Fixpoint sextets (l : list Byte.byte) : list N :=
  match l with
  | a :: b :: c :: r =>
      let n := (nOfByte a * 65536 + nOfByte b * 256 + nOfByte c)%N in
      (n / 262144)%N :: ((n / 4096) mod 64)%N :: ((n / 64) mod 64)%N :: (n mod 64)%N
        :: sextets r
  | [a; b] =>
      let n := ((nOfByte a * 256 + nOfByte b) * 4)%N in
      [(n / 4096)%N; ((n / 64) mod 64)%N; (n mod 64)%N]
  | [a] =>
      let n := (nOfByte a * 16)%N in
      [(n / 64)%N; (n mod 64)%N]
  | [] => []
  end.

(** The [=] that fill the last group of four. *)
Definition padding (l : list Byte.byte) : list ascii :=
  match (length l mod 3)%nat with
  | 1%nat => ["="%char; "="%char]
  | 2%nat => ["="%char]
  | _ => []
  end.

(** [btoa] on the bytes of a blob. *)
Definition btoa (l : list Byte.byte) : string :=
  string_of_list_ascii (map alphabet (sextets l) ++ padding l).

End Base64.

(** [FileReader.readAsDataURL]: the data URL of a blob; browsers write
    [application/octet-stream] for a blob without a type. *)
Definition readAsDataURL (b : Blob) : string :=
  "data:"
  +:+ (if JsString.truthy (blob_type b) then blob_type b else "application/octet-stream")
  +:+ ";base64," +:+ Base64.btoa (blob_data b).

(* ===================================================================== *)
(** * The shared API client (services/api.js) *)
(* ===================================================================== *)

Module Api.

(** What the client touches in the browser: [localStorage] and
    [window.location.href]. *)
Record Browser := mkBrowser {
  localStorage : gmap string string;
  location_href : string
}.

(** An HTTP response with a body of type [D]. *)
Record Response (D : Type) := mkResponse {
  status : Z;
  data : D
}.
Arguments mkResponse {D} _ _.
Arguments status {D} _.
Arguments data {D} _.

(** The error axios rejects with; [response] is missing when no answer
    came back at all. *)
Record AxiosError (D : Type) := mkAxiosError {
  response : option (Response D)
}.
Arguments mkAxiosError {D} _.
Arguments response {D} _.

(** A settled request promise. *)
Inductive Settled (D : Type) :=
| Fulfilled (r : Response D)
| Rejected (e : AxiosError D).
Arguments Fulfilled {D} _.
Arguments Rejected {D} _.

(** What the network hands to axios. *)
Inductive Transport (D : Type) :=
| Answer (r : Response D)
| NetworkError.
Arguments Answer {D} _.
Arguments NetworkError {D}.

(** axios' default [validateStatus]: 2xx fulfils, anything else
    rejects with the response attached. *)
Definition validateStatus (st : Z) : bool := ((200 <=? st) && (st <? 300))%Z.

Definition settle {D} (t : Transport D) : Settled D :=
  match t with
  | Answer r => if validateStatus (status r) then Fulfilled r
                else Rejected (mkAxiosError (Some r))
  | NetworkError => Rejected (mkAxiosError None)
  end.

(** The request interceptor: the stored token, when there is one, goes
    into the [Authorization] header. *)
Definition requestInterceptor (b : Browser) (headers : gmap string string)
  : gmap string string :=
  match localStorage b !! "aria_token" with
  | Some token =>
      if JsString.truthy token
      then <["Authorization" := "Bearer " +:+ token]> headers
      else headers
  | None => headers
  end.

(** [error.response?.status === 401]. *)
Definition isUnauthorized {D} (e : AxiosError D) : bool :=
  match response e with
  | Some r => (status r =? 401)%Z
  | None => false
  end.

(** The response interceptor, its two handlers in one function. *)
Definition responseInterceptor {D} (p : Settled D) (b : Browser)
  : Browser * Settled D :=
  match p with
  | Fulfilled r => (b, Fulfilled r)
  | Rejected e =>
      if isUnauthorized e
      then (mkBrowser (delete "aria_user" (delete "aria_token" (localStorage b)))
                      "/login",
            Rejected e)
      else (b, Rejected e)
  end.

(** An answer on its way to the caller of [api.post] or [api.get]. *)
Definition receive {D} (t : Transport D) (b : Browser) : Browser * Settled D :=
  responseInterceptor (settle t) b.

End Api.

(* ===================================================================== *)
(** * The translation services (services/transcription.js) *)
(* ===================================================================== *)

Module Transcription.

Inductive Json :=
| JNull
| JString (s : string).

Inductive FormValue :=
| FText (s : string)
| FFile (b : Blob) (filename : option string).

Inductive Payload :=
| JsonBody (fields : list (string * Json))
| FormData (fields : list (string * FormValue)).

(** A POST through the shared client. *)
Record Request := mkRequest {
  url : string;
  payload : Payload
}.

Definition speechToSign (file : Blob) (provider : string) : Request :=
  mkRequest "/api/speech-to-sign"
    (FormData [("file", FFile file None); ("provider", FText provider)]).

Definition signToSpeech (file : Blob) (provider : string) : Request :=
  mkRequest "/api/sign-to-speech"
    (FormData [("file", FFile file None); ("provider", FText provider)]).

Definition signToSpeechFromBase64 (imageBase64 : FormValue) (provider : string)
  : Request :=
  mkRequest "/api/sign-to-speech"
    (FormData [("image_data", imageBase64); ("provider", FText provider)]).

Definition signToSpeechFromVideo (videoBlob : Blob) (provider : string) : Request :=
  mkRequest "/api/sign-to-speech"
    (FormData [("video_data", FText (readAsDataURL videoBlob));
               ("provider", FText provider)]).

Definition textToGloss (text provider : string) : Request :=
  mkRequest "/api/text-to-gloss"
    (JsonBody [("text", JString text); ("provider", JString provider)]).

Definition textToSummary (text provider : string) : Request :=
  mkRequest "/api/text-to-summary"
    (JsonBody [("text", JString text); ("provider", JString provider)]).

Definition audioChunkSummary (audioBlob : Blob) (provider : string)
    (previousContext : option string) : Request :=
  mkRequest "/api/audio-chunk-summary"
    (FormData
       ([("file", FFile audioBlob (Some "audio_chunk.webm"));
         ("provider", FText provider)]
        ++ match previousContext with
           | Some c => if JsString.truthy c then [("previous_context", FText c)] else []
           | None => []
           end)).

Definition transcriptionChunkSummary (transcriptionText provider : string)
    (previousContext : option string) : Request :=
  mkRequest "/api/transcription-chunk-summary"
    (JsonBody [("transcription", JString transcriptionText);
               ("provider", JString provider);
               ("previous_context",
                match previousContext with
                | Some c => JString c
                | None => JNull
                end)]).

End Transcription.

(** An API key as the dashboard passes it to the components. *)
Record ApiKey := mkApiKey {
  key_provider : string;
  is_active : bool
}.

(* ===================================================================== *)
(** * Sign language to speech (components/Dashboard/SignToSpeech.jsx) *)
(* ===================================================================== *)

Module SignToSpeech.

Import JsString.

#[local] Set Warnings "-inexact-float".

(** JavaScript numbers are binary64 floats, and so is the recording time. *)
Definition MAX_RECORDING_DURATION : float := 5%float.

Inductive RecorderState :=
| Inactive
| Recording
| Paused.

(** The [MediaRecorder] behind [mediaRecorderRef]: its state, the MIME
    type it was created with (empty for the fallback), and the render its
    [onstop] handler closed over (the API keys and
    the provider [sendToAPI] will see when the recording ends). *)
Record Recorder := mkRecorder {
  rec_state : RecorderState;
  rec_mimeType : string;
  rec_apiKeys : list ApiKey;
  rec_provider : string
}.

(** The component's state: the [useState] values, then the refs.
    [mediaStream] and [recordingTimer] tell whether the ref holds a stream
    or an interval. *)
Record State := mkState {
  isCapturing : bool;
  isRecording : bool;
  recordingTime : float;
  translation : option string;
  loading : bool;
  error : string;
  audioUrl : Url;
  videoBlob : option Blob;
  provider : string;
  inputType : string;
  isEmergency : bool;
  mediaStream : bool;
  mediaRecorder : option Recorder;
  recordingTimer : bool;
  videoChunks : list Blob
}.

(** The state of a freshly mounted component. *)
Definition initial : State :=
  {| isCapturing := false; isRecording := false; recordingTime := 0%float;
     translation := Some ""; loading := false; error := ""; audioUrl := EmptyUrl;
     videoBlob := None; provider := "gemini-pro"; inputType := "video";
     isEmergency := false; mediaStream := false; mediaRecorder := None;
     recordingTimer := false; videoChunks := [] |}.

Definition set_isRecording (v : bool) (s : State) : State :=
  {| isCapturing := isCapturing s; isRecording := v; recordingTime := recordingTime s;
     translation := translation s; loading := loading s; error := error s;
     audioUrl := audioUrl s; videoBlob := videoBlob s; provider := provider s;
     inputType := inputType s; isEmergency := isEmergency s;
     mediaStream := mediaStream s; mediaRecorder := mediaRecorder s;
     recordingTimer := recordingTimer s; videoChunks := videoChunks s |}.

Definition set_recordingTime (v : float) (s : State) : State :=
  {| isCapturing := isCapturing s; isRecording := isRecording s; recordingTime := v;
     translation := translation s; loading := loading s; error := error s;
     audioUrl := audioUrl s; videoBlob := videoBlob s; provider := provider s;
     inputType := inputType s; isEmergency := isEmergency s;
     mediaStream := mediaStream s; mediaRecorder := mediaRecorder s;
     recordingTimer := recordingTimer s; videoChunks := videoChunks s |}.

Definition set_translation (v : option string) (s : State) : State :=
  {| isCapturing := isCapturing s; isRecording := isRecording s;
     recordingTime := recordingTime s; translation := v; loading := loading s;
     error := error s; audioUrl := audioUrl s; videoBlob := videoBlob s;
     provider := provider s; inputType := inputType s; isEmergency := isEmergency s;
     mediaStream := mediaStream s; mediaRecorder := mediaRecorder s;
     recordingTimer := recordingTimer s; videoChunks := videoChunks s |}.

Definition set_loading (v : bool) (s : State) : State :=
  {| isCapturing := isCapturing s; isRecording := isRecording s;
     recordingTime := recordingTime s; translation := translation s; loading := v;
     error := error s; audioUrl := audioUrl s; videoBlob := videoBlob s;
     provider := provider s; inputType := inputType s; isEmergency := isEmergency s;
     mediaStream := mediaStream s; mediaRecorder := mediaRecorder s;
     recordingTimer := recordingTimer s; videoChunks := videoChunks s |}.

Definition set_error (v : string) (s : State) : State :=
  {| isCapturing := isCapturing s; isRecording := isRecording s;
     recordingTime := recordingTime s; translation := translation s;
     loading := loading s; error := v; audioUrl := audioUrl s;
     videoBlob := videoBlob s; provider := provider s; inputType := inputType s;
     isEmergency := isEmergency s; mediaStream := mediaStream s;
     mediaRecorder := mediaRecorder s; recordingTimer := recordingTimer s;
     videoChunks := videoChunks s |}.

Definition set_audioUrl (v : Url) (s : State) : State :=
  {| isCapturing := isCapturing s; isRecording := isRecording s;
     recordingTime := recordingTime s; translation := translation s;
     loading := loading s; error := error s; audioUrl := v; videoBlob := videoBlob s;
     provider := provider s; inputType := inputType s; isEmergency := isEmergency s;
     mediaStream := mediaStream s; mediaRecorder := mediaRecorder s;
     recordingTimer := recordingTimer s; videoChunks := videoChunks s |}.

Definition set_videoBlob (v : option Blob) (s : State) : State :=
  {| isCapturing := isCapturing s; isRecording := isRecording s;
     recordingTime := recordingTime s; translation := translation s;
     loading := loading s; error := error s; audioUrl := audioUrl s; videoBlob := v;
     provider := provider s; inputType := inputType s; isEmergency := isEmergency s;
     mediaStream := mediaStream s; mediaRecorder := mediaRecorder s;
     recordingTimer := recordingTimer s; videoChunks := videoChunks s |}.

Definition set_isEmergency (v : bool) (s : State) : State :=
  {| isCapturing := isCapturing s; isRecording := isRecording s;
     recordingTime := recordingTime s; translation := translation s;
     loading := loading s; error := error s; audioUrl := audioUrl s;
     videoBlob := videoBlob s; provider := provider s; inputType := inputType s;
     isEmergency := v; mediaStream := mediaStream s; mediaRecorder := mediaRecorder s;
     recordingTimer := recordingTimer s; videoChunks := videoChunks s |}.

Definition set_mediaStream (v : bool) (s : State) : State :=
  {| isCapturing := isCapturing s; isRecording := isRecording s;
     recordingTime := recordingTime s; translation := translation s;
     loading := loading s; error := error s; audioUrl := audioUrl s;
     videoBlob := videoBlob s; provider := provider s; inputType := inputType s;
     isEmergency := isEmergency s; mediaStream := v; mediaRecorder := mediaRecorder s;
     recordingTimer := recordingTimer s; videoChunks := videoChunks s |}.

Definition set_mediaRecorder (v : option Recorder) (s : State) : State :=
  {| isCapturing := isCapturing s; isRecording := isRecording s;
     recordingTime := recordingTime s; translation := translation s;
     loading := loading s; error := error s; audioUrl := audioUrl s;
     videoBlob := videoBlob s; provider := provider s; inputType := inputType s;
     isEmergency := isEmergency s; mediaStream := mediaStream s; mediaRecorder := v;
     recordingTimer := recordingTimer s; videoChunks := videoChunks s |}.

Definition set_recordingTimer (v : bool) (s : State) : State :=
  {| isCapturing := isCapturing s; isRecording := isRecording s;
     recordingTime := recordingTime s; translation := translation s;
     loading := loading s; error := error s; audioUrl := audioUrl s;
     videoBlob := videoBlob s; provider := provider s; inputType := inputType s;
     isEmergency := isEmergency s; mediaStream := mediaStream s;
     mediaRecorder := mediaRecorder s; recordingTimer := v;
     videoChunks := videoChunks s |}.

Definition set_videoChunks (v : list Blob) (s : State) : State :=
  {| isCapturing := isCapturing s; isRecording := isRecording s;
     recordingTime := recordingTime s; translation := translation s;
     loading := loading s; error := error s; audioUrl := audioUrl s;
     videoBlob := videoBlob s; provider := provider s; inputType := inputType s;
     isEmergency := isEmergency s; mediaStream := mediaStream s;
     mediaRecorder := mediaRecorder s; recordingTimer := recordingTimer s;
     videoChunks := v |}.

Definition set_inputType (v : string) (s : State) : State :=
  {| isCapturing := isCapturing s; isRecording := isRecording s;
     recordingTime := recordingTime s; translation := translation s;
     loading := loading s; error := error s; audioUrl := audioUrl s;
     videoBlob := videoBlob s; provider := provider s; inputType := v;
     isEmergency := isEmergency s; mediaStream := mediaStream s;
     mediaRecorder := mediaRecorder s; recordingTimer := recordingTimer s;
     videoChunks := videoChunks s |}.

(** A callback handed to [setTimeout]. [AutoStop seen] is the auto-stop of
    [startRecording]; [seen] is the [isRecording] its closure holds. *)
Inductive Action :=
| SetIsEmergency (b : bool)
| AutoStop (seen : bool).

(** What a handler asks of the browser. *)
Inductive Effect :=
| Post (r : Transcription.Request)
| SetTimeout (a : Action) (ms : Z)
| SetInterval (ms : Z)
| Play (u : Url)
| Speak (text : string).

(** The media handed to [sendToAPI]: a data URL or a blob. *)
Inductive Media :=
| MediaUrl (dataUrl : string)
| MediaBlob (b : Blob).

(** The body of a successful answer of [/api/sign-to-speech]. *)
Record Result := mkResult {
  r_translation : option string;
  r_audio_base64 : option string
}.

(** How the request ends: with a result, or with an error whose
    [response.data.detail] may be missing. *)
Inductive Reply :=
| Resolved (r : Result)
| Failed (detail : option string).

(** [apiKeys.some(k => k.provider === provider && k.is_active)]. *)
Definition hasAPIKey (apiKeys : list ApiKey) (provider : string) : bool :=
  existsb (fun k => String.eqb (key_provider k) provider && is_active k) apiKeys.

Definition stopRecording (s : State) : State :=
  match mediaRecorder s with
  | None => s
  | Some r =>
      match rec_state r with
      | Inactive => s
      | st =>
          let s1 := set_isRecording false s in
          let s2 := set_recordingTimer false s1 in
          let s3 :=
            match st with
            | Recording =>
                set_mediaRecorder
                  (Some (mkRecorder Inactive (rec_mimeType r) (rec_apiKeys r)
                           (rec_provider r))) s2
            | _ => s2
            end in
          set_mediaStream false s3
      end
  end.

(** The recorder options tried in turn; the last one is [{}]. *)
Definition codecOptions : list (option string * option Z) :=
  [ (Some "video/webm;codecs=vp9", Some 250000%Z);
    (Some "video/webm;codecs=vp8", Some 250000%Z);
    (Some "video/webm", Some 250000%Z);
    (None, None) ].

Definition chooseCodec (isTypeSupported : string -> bool)
  : option (option string * option Z) :=
  List.find (fun o => match fst o with
                      | Some m => isTypeSupported m
                      | None => true
                      end) codecOptions.

(** The outcome of [getUserMedia]. *)
Inductive Permission :=
| Granted
| Denied (message : string).

(** [startRecording], called in a render that sees [apiKeys]. *)
Definition startRecording (apiKeys : list ApiKey) (isTypeSupported : string -> bool)
    (perm : Permission) (s : State) : State * list Effect :=
  match perm with
  | Denied message =>
      (set_isRecording false (set_error ("Failed to access camera: " +:+ message) s), [])
  | Granted =>
      let mime :=
        match chooseCodec isTypeSupported with
        | Some (Some m, _) => m
        | _ => ""
        end in
      ({| isCapturing := isCapturing s; isRecording := true;
          recordingTime := 0%float; translation := translation s;
          loading := loading s; error := error s; audioUrl := audioUrl s;
          videoBlob := videoBlob s; provider := provider s;
          inputType := inputType s; isEmergency := isEmergency s;
          mediaStream := true;
          mediaRecorder := Some (mkRecorder Recording mime apiKeys (provider s));
          recordingTimer := true; videoChunks := [] |},
       [SetInterval 100; SetTimeout (AutoStop (isRecording s)) 5000])
  end.

(** One firing of the 100 ms interval: the updater handed to
    [setRecordingTime]. *)
Definition onTick (s : State) : State :=
  if recordingTimer s then
    let newTime := (recordingTime s + 0.1)%float in
    if (MAX_RECORDING_DURATION <=? newTime)%float
    then set_recordingTime MAX_RECORDING_DURATION (stopRecording s)
    else set_recordingTime newTime s
  else s.

(** What [n] additions of 0.1 to 0 give. *)
Fixpoint accumulated (n : nat) : float :=
  match n with
  | O => 0%float
  | S k => (accumulated k + 0.1)%float
  end.

(** The values the displayed time will be shown to take: what up to fifty
    ticks accumulate, and the maximum. *)
Definition displayable (t : float) : Prop :=
  (exists k, (k <= 50)%nat /\ t = accumulated k) \/ t = MAX_RECORDING_DURATION.

(** The recorder of [mediaRecorderRef] is in state [st]. *)
Definition recorderIs (st : RecorderState) (s : State) : bool :=
  match mediaRecorder s with
  | Some r =>
      match rec_state r, st with
      | Inactive, Inactive | Recording, Recording | Paused, Paused => true
      | _, _ => false
      end
  | None => false
  end.

(** [recorder.ondataavailable]. *)
Definition onDataAvailable (b : Blob) (s : State) : State :=
  if (0 <? blob_size b)%nat then set_videoChunks (videoChunks s ++ [b]) s else s.

Definition emergencyPhrase : string := "this is an emergency".

(** [result.translation && result.translation.toLowerCase().includes(...)]. *)
Definition isEmergencyDetected (r : Result) : bool :=
  match r_translation r with
  | Some t => truthy t && includes (toLowerCase t) emergencyPhrase
  | None => false
  end.

(** The three timers of the blink. *)
Definition blink : list Effect :=
  [ SetTimeout (SetIsEmergency false) 200;
    SetTimeout (SetIsEmergency true) 400;
    SetTimeout (SetIsEmergency false) 600 ].

Definition failedToAnalyze : string := "Failed to analyze sign.".

(** The request of [sendToAPI]; [None] when the [try] block throws before
    anything is sent. *)
Definition request (media : Media) (mediaType provider : string)
  : option Transcription.Request :=
  if String.eqb mediaType "video" then
    match media with
    | MediaBlob b => Some (Transcription.signToSpeechFromVideo b provider)
    | MediaUrl _ => None
    end
  else if String.eqb mediaType "image" then
    Some (Transcription.signToSpeechFromBase64
            match media with
            | MediaUrl u => Transcription.FText u
            | MediaBlob b => Transcription.FFile b (Some "blob")
            end provider)
  else None.

(** The [try] block after the [await], for a result [r]. *)
Definition onResult (r : Result) (s : State) : State * list Effect :=
  let s1 := set_translation (r_translation r) s in
  let '(s2, e2) :=
    if isEmergencyDetected r
    then (set_isEmergency true s1, blink)
    else (s1, []) in
  if truthyOpt (r_audio_base64 r) then
    match Base64.atob (default "" (r_audio_base64 r)) with
    | Some audioBytes =>
        let url := ObjectUrl (mkBlob audioBytes "audio/mpeg") in
        (set_audioUrl url s2, e2 ++ [Play url])
    | None => (set_error failedToAnalyze s2, e2)
    end
  else
    match r_translation r with
    | Some t => if truthy t then (s2, e2 ++ [Speak t]) else (s2, e2)
    | None => (s2, e2)
    end.

(** What runs when the request settles, [finally] included. *)
Definition sendToAPI_settle (reply : Reply) (s : State) : State * list Effect :=
  match reply with
  | Resolved r =>
      let '(s', effects) := onResult r s in (set_loading false s', effects)
  | Failed detail =>
      (set_loading false (set_error (orElse detail failedToAnalyze) s), [])
  end.

(** [sendToAPI] as created in a render that sees [apiKeys] and [provider];
    [reply] is how the backend answers the request, if one is sent. *)
Definition sendToAPI (apiKeys : list ApiKey) (provider : string)
    (media : Media) (mediaType : string) (reply : Reply) (s : State)
  : State * list Effect :=
  if negb (hasAPIKey apiKeys provider) then
    (set_error ("Please configure your " +:+ provider +:+ " API key in Settings.") s, [])
  else if String.eqb mediaType "video" && String.eqb provider "openai" then
    (set_error
       "Video input requires Gemini provider. Please select Gemini Pro or Gemini Flash."
       s, [])
  else
    let s1 :=
      set_audioUrl EmptyUrl
        (set_translation (Some "") (set_error "" (set_loading true s))) in
    match request media mediaType provider with
    | None => (set_loading false (set_error failedToAnalyze s1), [])
    | Some rq =>
        let '(s2, effects) := sendToAPI_settle reply s1 in (s2, Post rq :: effects)
    end.

(** [recorder.onstop].  The handler reads the recorder it was installed
    on; the state holds one recorder, that of the recording under way,
    which is the same one as long as no second recording starts before
    the [stop] event of the first. *)
Definition onStop (reply : Reply) (s : State) : State * list Effect :=
  match mediaRecorder s with
  | None => (s, [])
  | Some r =>
      let type := if truthy (rec_mimeType r) then rec_mimeType r else "video/webm" in
      let blob := newBlob (videoChunks s) type in
      if (blob_size blob =? 0)%nat then
        (set_error "Failed to process recorded video: Recorded video is empty" s, [])
      else
        sendToAPI (rec_apiKeys r) (rec_provider r) (MediaBlob blob) "video" reply
          (set_videoBlob (Some blob) s)
  end.

(** [captureImage] for a screenshot [imageSrc]. *)
Definition captureImage (apiKeys : list ApiKey) (imageSrc : string) (reply : Reply)
    (s : State) : State * list Effect :=
  sendToAPI apiKeys (provider s) (MediaUrl imageSrc) "image" reply
    (set_inputType "image" s).

(** A timer callback firing. *)
Definition fire (a : Action) (s : State) : State :=
  match a with
  | SetIsEmergency b => set_isEmergency b s
  | AutoStop seen =>
      if seen && match mediaRecorder s with
                 | Some r => match rec_state r with Recording => true | _ => false end
                 | None => false
                 end
      then stopRecording s
      else s
  end.

(** [recorder.onerror], for [event.error?.message]. *)
Definition onRecorderError (message : option string) (s : State) : State :=
  set_error ("Recording error: " +:+ orElse message "Unknown error") s.

(** A recorder that fails goes inactive by itself. *)
Definition recorderFailed (s : State) : State :=
  match mediaRecorder s with
  | Some r =>
      set_mediaRecorder
        (Some (mkRecorder Inactive (rec_mimeType r) (rec_apiKeys r) (rec_provider r))) s
  | None => s
  end.

(** What can happen to the component once a recording has started. *)
Inductive Event :=
| Tick
| StopClicked
| TimerFired (a : Action)
| DataAvailable (b : Blob)
| RecorderStopped (reply : Reply)
| RecorderFailed (message : option string).

Definition handle (e : Event) (s : State) : State * list Effect :=
  match e with
  | Tick => (onTick s, [])
  | StopClicked => (stopRecording s, [])
  | TimerFired a => (fire a s, [])
  | DataAvailable b => (onDataAvailable b s, [])
  | RecorderStopped reply => onStop reply s
  | RecorderFailed message => (onRecorderError message (recorderFailed s), [])
  end.

(** The events in order, the state threaded through and the effects
    collected. *)
Fixpoint run (es : list Event) (s : State) : State * list Effect :=
  match es with
  | [] => (s, [])
  | e :: es' =>
      let '(s1, effects1) := handle e s in
      let '(s2, effects2) := run es' s1 in
      (s2, effects1 ++ effects2)
  end.

(** The timers among the effects, in order. *)
Definition timeouts (effects : list Effect) : list Effect :=
  List.filter (fun e => match e with SetTimeout _ _ => true | _ => false end) effects.

(** The sounds among the effects, in order. *)
Definition sounds (effects : list Effect) : list Effect :=
  List.filter (fun e => match e with Play _ | Speak _ => true | _ => false end) effects.

(** The requests among the effects, in order. *)
Definition requests (effects : list Effect) : list Transcription.Request :=
  omap (fun e => match e with Post r => Some r | _ => None end) effects.

(** ** The emergency overlay

    The children of [document.body] by id.  The effect on [isEmergency]
    appends the overlay; its cleanup removes the first element with that
    id. *)
Definition overlayId : string := "emergency-overlay".

Fixpoint removeChild (id : string) (body : list string) : list string :=
  match body with
  | [] => []
  | x :: body' => if String.eqb x id then body' else x :: removeChild id body'
  end.

(** The effect with dependency [isEmergency], between two renders. *)
Definition commitEmergency (before after : bool) (body : list string) : list string :=
  if Bool.eqb before after then body
  else
    let cleaned := if before then removeChild overlayId body else body in
    if after then cleaned ++ [overlayId] else cleaned.

(** ** The rest of the view's controls *)

Definition set_provider (v : string) (s : State) : State :=
  {| isCapturing := isCapturing s; isRecording := isRecording s;
     recordingTime := recordingTime s; translation := translation s;
     loading := loading s; error := error s; audioUrl := audioUrl s;
     videoBlob := videoBlob s; provider := v; inputType := inputType s;
     isEmergency := isEmergency s; mediaStream := mediaStream s;
     mediaRecorder := mediaRecorder s; recordingTimer := recordingTimer s;
     videoChunks := videoChunks s |}.

Definition set_isCapturing (v : bool) (s : State) : State :=
  {| isCapturing := v; isRecording := isRecording s; recordingTime := recordingTime s;
     translation := translation s; loading := loading s; error := error s;
     audioUrl := audioUrl s; videoBlob := videoBlob s; provider := provider s;
     inputType := inputType s; isEmergency := isEmergency s;
     mediaStream := mediaStream s; mediaRecorder := mediaRecorder s;
     recordingTimer := recordingTimer s; videoChunks := videoChunks s |}.

(** The provider select's [onChange]. *)
Definition selectProvider (newProvider : string) (s : State) : State :=
  let s1 := set_provider newProvider s in
  if String.eqb newProvider "openai" && String.eqb (inputType s) "video"
  then set_videoBlob None (set_inputType "image" s1)
  else s1.

(** The two input type buttons; they are rendered unless the provider is
    [openai]. *)
Definition clickVideo (s : State) : State :=
  if String.eqb (provider s) "openai" then s else set_inputType "video" s.

Definition clickImage (s : State) : State :=
  if String.eqb (provider s) "openai" then s
  else set_videoBlob None (set_inputType "image" s).

(** The camera button. *)
Definition clickCamera (s : State) : State :=
  if isCapturing s || isRecording s then
    let s1 := if isRecording s then stopRecording s else s in
    set_mediaStream false (set_isCapturing false s1)
  else set_isCapturing true s.

(** The record button, rendered while capturing with input type
    [video]. *)
Definition clickRecord (apiKeys : list ApiKey) (isTypeSupported : string -> bool)
    (perm : Permission) (s : State) : State * list Effect :=
  if isCapturing s && String.eqb (inputType s) "video" then
    if isRecording s then (stopRecording s, [])
    else startRecording apiKeys isTypeSupported perm s
  else (s, []).

(** The capture button, rendered while capturing, not recording, with
    input type [image]. *)
Definition clickCapture (apiKeys : list ApiKey) (imageSrc : string) (reply : Reply)
    (s : State) : State * list Effect :=
  if isCapturing s && negb (isRecording s) && String.eqb (inputType s) "image"
  then captureImage apiKeys imageSrc reply s
  else (s, []).

(** How [compressVideo] ends for an uploaded file. *)
Inductive Compressed :=
| CompressedTo (b : Blob)
| CompressionFailed (message : string).

(** [handleFileUpload] for [event.target.files[0]]; a file is a blob, its
    type the blob's. *)
Definition handleFileUpload (apiKeys : list ApiKey) (file : option Blob)
    (compressed : Compressed) (reply : Reply) (s : State) : State * list Effect :=
  match file with
  | None => (s, [])
  | Some f =>
      if startsWith (blob_type f) "video/" then
        let s1 := set_inputType "video" s in
        match compressed with
        | CompressedTo b =>
            sendToAPI apiKeys (provider s) (MediaBlob b) "video" reply
              (set_videoBlob (Some b) s1)
        | CompressionFailed message =>
            (set_error ("Failed to compress video: " +:+ message) s1, [])
        end
      else if startsWith (blob_type f) "image/" then
        sendToAPI apiKeys (provider s) (MediaUrl (readAsDataURL f)) "image" reply
          (set_inputType "image" s)
      else (set_error "Please upload an image or video file" s, [])
  end.

(** What the user and the browser can do to the view. *)
Inductive UiEvent :=
| Component (e : Event)
| ProviderSelected (newProvider : string)
| VideoClicked
| ImageClicked
| CameraClicked
| RecordClicked (isTypeSupported : string -> bool) (perm : Permission)
| CaptureClicked (imageSrc : string) (reply : Reply)
| FileChosen (file : option Blob) (compressed : Compressed) (reply : Reply).

(** An event handled in a render that sees [apiKeys]. *)
Definition handleUi (apiKeys : list ApiKey) (e : UiEvent) (s : State)
  : State * list Effect :=
  match e with
  | Component e' => handle e' s
  | ProviderSelected p => (selectProvider p s, [])
  | VideoClicked => (clickVideo s, [])
  | ImageClicked => (clickImage s, [])
  | CameraClicked => (clickCamera s, [])
  | RecordClicked isTypeSupported perm => clickRecord apiKeys isTypeSupported perm s
  | CaptureClicked imageSrc reply => clickCapture apiKeys imageSrc reply s
  | FileChosen file compressed reply => handleFileUpload apiKeys file compressed reply s
  end.

Fixpoint runUi (apiKeys : list ApiKey) (es : list UiEvent) (s : State)
  : State * list Effect :=
  match es with
  | [] => (s, [])
  | e :: es' =>
      let '(s1, effects1) := handleUi apiKeys e s in
      let '(s2, effects2) := runUi apiKeys es' s1 in
      (s2, effects1 ++ effects2)
  end.

(** The non-empty blobs the recorder hands over among the events, in
    order. *)
Definition arrived (es : list UiEvent) : list Blob :=
  omap (fun e => match e with
                 | Component (DataAvailable b) =>
                     if (0 <? blob_size b)%nat then Some b else None
                 | _ => None
                 end) es.

Definition isRecordClicked (e : UiEvent) : bool :=
  match e with
  | RecordClicked _ _ => true
  | _ => false
  end.

(** The type of the blob a recording ends in: the type of the recorder
    option taken, [video/webm] for the fallback. *)
Definition recordingType (isTypeSupported : string -> bool) : string :=
  match chooseCodec isTypeSupported with
  | Some (Some m, _) => m
  | _ => "video/webm"
  end.

(** What [recorder.onstop] sees of a recording: the recorder is the one
    made by a start in a render with [apiKeys] and [provider], for the type
    [mime], and the chunks are [chunks]. *)
Definition recordingOf (apiKeys : list ApiKey) (provider mime : string)
    (chunks : list Blob) (s : State) : Prop :=
  videoChunks s = chunks
  /\ exists st, mediaRecorder s = Some (mkRecorder st mime apiKeys provider).

(** The guards of [sendToAPI] let the call through. *)
Definition admitted (apiKeys : list ApiKey) (provider mediaType : string) : bool :=
  hasAPIKey apiKeys provider
  && negb (String.eqb mediaType "video" && String.eqb provider "openai").

(** The file chosen is a video. *)
Definition isVideoUpload (e : UiEvent) : bool :=
  match e with
  | FileChosen (Some f) _ _ => startsWith (blob_type f) "video/"
  | _ => false
  end.

(** What the provider select and the input type buttons keep between
    them: the input type is one of the two, and [video] goes with a
    provider other than [openai]. *)
Definition inputFits (s : State) : Prop :=
  inputType s = "image" \/ (inputType s = "video" /\ provider s <> "openai").

(** The recorder of [mediaRecorderRef], if there is one, was made in a
    render that saw [apiKeys]. *)
Definition recorderSaw (apiKeys : list ApiKey) (s : State) : Prop :=
  match mediaRecorder s with
  | Some r => rec_apiKeys r = apiKeys
  | None => True
  end.

(** The page over a run of renders: [values] lists the [isEmergency] of
    each render in turn, [isEmergency] is that of the render before. *)
Fixpoint rerender (values : list bool) (isEmergency : bool) (body : list string)
  : list string :=
  match values with
  | [] => body
  | v :: rest => rerender rest v (commitEmergency isEmergency v body)
  end.

End SignToSpeech.

(* ===================================================================== *)
(** * Speech to text with summary (the [SpeechToSign] component) *)
(* ===================================================================== *)

Module SpeechToSign.

Import JsString.

(** The [useState] values, then the refs ([finalTranscript] onwards).
    [chunkInterval] tells whether [chunkIntervalRef] holds an interval.
    The audio-level meter, which only drives the microphone animation, is
    left out. *)
Record State := mkState {
  isRecording : bool;
  transcription : string;
  summary : string;
  error : string;
  provider : string;
  language : string;
  pendingRequestsCount : nat;
  finalTranscript : string;
  interimTranscript : string;
  transcriptionChunk : string;
  previousContext : string;
  pendingRequests : gset string;
  chunkCounter : nat;
  chunkInterval : bool
}.

Definition initial : State :=
  {| isRecording := false; transcription := ""; summary := ""; error := "";
     provider := "openai"; language := "en-US"; pendingRequestsCount := 0;
     finalTranscript := ""; interimTranscript := ""; transcriptionChunk := "";
     previousContext := ""; pendingRequests := ∅; chunkCounter := 0;
     chunkInterval := false |}.

Definition set_isRecording (v : bool) (s : State) : State :=
  {| isRecording := v; transcription := transcription s; summary := summary s;
     error := error s; provider := provider s; language := language s;
     pendingRequestsCount := pendingRequestsCount s;
     finalTranscript := finalTranscript s; interimTranscript := interimTranscript s;
     transcriptionChunk := transcriptionChunk s; previousContext := previousContext s;
     pendingRequests := pendingRequests s; chunkCounter := chunkCounter s;
     chunkInterval := chunkInterval s |}.

Definition set_transcription (v : string) (s : State) : State :=
  {| isRecording := isRecording s; transcription := v; summary := summary s;
     error := error s; provider := provider s; language := language s;
     pendingRequestsCount := pendingRequestsCount s;
     finalTranscript := finalTranscript s; interimTranscript := interimTranscript s;
     transcriptionChunk := transcriptionChunk s; previousContext := previousContext s;
     pendingRequests := pendingRequests s; chunkCounter := chunkCounter s;
     chunkInterval := chunkInterval s |}.

Definition set_summary (v : string) (s : State) : State :=
  {| isRecording := isRecording s; transcription := transcription s; summary := v;
     error := error s; provider := provider s; language := language s;
     pendingRequestsCount := pendingRequestsCount s;
     finalTranscript := finalTranscript s; interimTranscript := interimTranscript s;
     transcriptionChunk := transcriptionChunk s; previousContext := previousContext s;
     pendingRequests := pendingRequests s; chunkCounter := chunkCounter s;
     chunkInterval := chunkInterval s |}.

Definition set_error (v : string) (s : State) : State :=
  {| isRecording := isRecording s; transcription := transcription s;
     summary := summary s; error := v; provider := provider s; language := language s;
     pendingRequestsCount := pendingRequestsCount s;
     finalTranscript := finalTranscript s; interimTranscript := interimTranscript s;
     transcriptionChunk := transcriptionChunk s; previousContext := previousContext s;
     pendingRequests := pendingRequests s; chunkCounter := chunkCounter s;
     chunkInterval := chunkInterval s |}.

Definition set_provider (v : string) (s : State) : State :=
  {| isRecording := isRecording s; transcription := transcription s;
     summary := summary s; error := error s; provider := v; language := language s;
     pendingRequestsCount := pendingRequestsCount s;
     finalTranscript := finalTranscript s; interimTranscript := interimTranscript s;
     transcriptionChunk := transcriptionChunk s; previousContext := previousContext s;
     pendingRequests := pendingRequests s; chunkCounter := chunkCounter s;
     chunkInterval := chunkInterval s |}.

Definition set_language (v : string) (s : State) : State :=
  {| isRecording := isRecording s; transcription := transcription s;
     summary := summary s; error := error s; provider := provider s; language := v;
     pendingRequestsCount := pendingRequestsCount s;
     finalTranscript := finalTranscript s; interimTranscript := interimTranscript s;
     transcriptionChunk := transcriptionChunk s; previousContext := previousContext s;
     pendingRequests := pendingRequests s; chunkCounter := chunkCounter s;
     chunkInterval := chunkInterval s |}.

Definition set_pendingRequestsCount (v : nat) (s : State) : State :=
  {| isRecording := isRecording s; transcription := transcription s;
     summary := summary s; error := error s; provider := provider s;
     language := language s; pendingRequestsCount := v;
     finalTranscript := finalTranscript s; interimTranscript := interimTranscript s;
     transcriptionChunk := transcriptionChunk s; previousContext := previousContext s;
     pendingRequests := pendingRequests s; chunkCounter := chunkCounter s;
     chunkInterval := chunkInterval s |}.

Definition set_finalTranscript (v : string) (s : State) : State :=
  {| isRecording := isRecording s; transcription := transcription s;
     summary := summary s; error := error s; provider := provider s;
     language := language s; pendingRequestsCount := pendingRequestsCount s;
     finalTranscript := v; interimTranscript := interimTranscript s;
     transcriptionChunk := transcriptionChunk s; previousContext := previousContext s;
     pendingRequests := pendingRequests s; chunkCounter := chunkCounter s;
     chunkInterval := chunkInterval s |}.

Definition set_interimTranscript (v : string) (s : State) : State :=
  {| isRecording := isRecording s; transcription := transcription s;
     summary := summary s; error := error s; provider := provider s;
     language := language s; pendingRequestsCount := pendingRequestsCount s;
     finalTranscript := finalTranscript s; interimTranscript := v;
     transcriptionChunk := transcriptionChunk s; previousContext := previousContext s;
     pendingRequests := pendingRequests s; chunkCounter := chunkCounter s;
     chunkInterval := chunkInterval s |}.

Definition set_transcriptionChunk (v : string) (s : State) : State :=
  {| isRecording := isRecording s; transcription := transcription s;
     summary := summary s; error := error s; provider := provider s;
     language := language s; pendingRequestsCount := pendingRequestsCount s;
     finalTranscript := finalTranscript s; interimTranscript := interimTranscript s;
     transcriptionChunk := v; previousContext := previousContext s;
     pendingRequests := pendingRequests s; chunkCounter := chunkCounter s;
     chunkInterval := chunkInterval s |}.

Definition set_previousContext (v : string) (s : State) : State :=
  {| isRecording := isRecording s; transcription := transcription s;
     summary := summary s; error := error s; provider := provider s;
     language := language s; pendingRequestsCount := pendingRequestsCount s;
     finalTranscript := finalTranscript s; interimTranscript := interimTranscript s;
     transcriptionChunk := transcriptionChunk s; previousContext := v;
     pendingRequests := pendingRequests s; chunkCounter := chunkCounter s;
     chunkInterval := chunkInterval s |}.

Definition set_pendingRequests (v : gset string) (s : State) : State :=
  {| isRecording := isRecording s; transcription := transcription s;
     summary := summary s; error := error s; provider := provider s;
     language := language s; pendingRequestsCount := pendingRequestsCount s;
     finalTranscript := finalTranscript s; interimTranscript := interimTranscript s;
     transcriptionChunk := transcriptionChunk s; previousContext := previousContext s;
     pendingRequests := v; chunkCounter := chunkCounter s;
     chunkInterval := chunkInterval s |}.

Definition set_chunkCounter (v : nat) (s : State) : State :=
  {| isRecording := isRecording s; transcription := transcription s;
     summary := summary s; error := error s; provider := provider s;
     language := language s; pendingRequestsCount := pendingRequestsCount s;
     finalTranscript := finalTranscript s; interimTranscript := interimTranscript s;
     transcriptionChunk := transcriptionChunk s; previousContext := previousContext s;
     pendingRequests := pendingRequests s; chunkCounter := v;
     chunkInterval := chunkInterval s |}.

Definition set_chunkInterval (v : bool) (s : State) : State :=
  {| isRecording := isRecording s; transcription := transcription s;
     summary := summary s; error := error s; provider := provider s;
     language := language s; pendingRequestsCount := pendingRequestsCount s;
     finalTranscript := finalTranscript s; interimTranscript := interimTranscript s;
     transcriptionChunk := transcriptionChunk s; previousContext := previousContext s;
     pendingRequests := pendingRequests s; chunkCounter := chunkCounter s;
     chunkInterval := v |}.

(** What a handler asks of the browser. *)
Inductive Effect :=
| Post (r : Transcription.Request)
| SetInterval (ms : Z)
| ClearInterval
| RecognitionStart
| RecognitionStop
| RecognitionRestart (ms : Z).

(** How a chunk request ends: with the [summary] field of the answer,
    which may be missing, or with an error. *)
Inductive Reply :=
| Resolved (summary : option string)
| Failed.

(** [apiKeys.some(k => k.provider === provider && k.is_active)]. *)
Definition hasProviderKey (apiKeys : list ApiKey) (provider : string) : bool :=
  existsb (fun k => String.eqb (key_provider k) provider && is_active k) apiKeys.

Definition canProceed := hasProviderKey.

Definition requestId (chunkNumber : nat) : string := "chunk-" +:+ pretty chunkNumber.

(** The context a chunk is sent with: [previousContextRef.current || null]. *)
Definition contextOf (s : State) : option string :=
  if truthy (previousContext s) then Some (previousContext s) else None.

(** [sendTranscriptionChunk] up to its [await]. *)
Definition sendTranscriptionChunk (apiKeys : list ApiKey) (transcriptionText : string)
    (chunkNumber : nat) (s : State) : State * list Effect :=
  if negb (hasProviderKey apiKeys (provider s)) || negb (truthy (trim transcriptionText))
  then (s, [])
  else
    let pending := {[ requestId chunkNumber ]} ∪ pendingRequests s in
    (set_pendingRequestsCount (size pending) (set_pendingRequests pending s),
     [Post (Transcription.transcriptionChunkSummary transcriptionText (provider s)
              (contextOf s))]).

(** [sendTranscriptionChunk] after its [await], for chunk [chunkNumber]. *)
Definition onChunkSettled (chunkNumber : nat) (reply : Reply) (s : State) : State :=
  let s1 :=
    match reply with
    | Resolved (Some text) =>
        if truthy text then set_summary text (set_previousContext text s) else s
    | _ => s
    end in
  let pending := pendingRequests s1 ∖ {[ requestId chunkNumber ]} in
  set_pendingRequestsCount (size pending) (set_pendingRequests pending s1).

(** The period of the chunk interval, in milliseconds. *)
Definition chunkPeriod : Z := 5000.

(** One firing of the chunk interval. *)
Definition onChunkInterval (apiKeys : list ApiKey) (s : State) : State * list Effect :=
  if chunkInterval s then
    let currentTranscription := trim (finalTranscript s) in
    if truthy currentTranscription
       && negb (String.eqb currentTranscription (transcriptionChunk s))
    then
      let newText := trim (replace currentTranscription (transcriptionChunk s) "") in
      if truthy newText then
        let n := S (chunkCounter s) in
        let '(s1, effects) :=
          sendTranscriptionChunk apiKeys currentTranscription n (set_chunkCounter n s) in
        (set_transcriptionChunk currentTranscription s1, effects)
      else (s, [])
    else (s, [])
  else (s, []).

(** The loop of [recognition.onresult] over the results from
    [event.resultIndex] on: each is a transcript and its [isFinal]. *)
Fixpoint absorb (results : list (string * bool)) (final interim : string)
  : string * string :=
  match results with
  | [] => (final, interim)
  | (transcript, isFinal) :: rest =>
      if isFinal then absorb rest (final +:+ transcript +:+ " ") interim
      else absorb rest final transcript
  end.

Definition onResult (results : list (string * bool)) (s : State) : State :=
  let '(final, interim) := absorb results (finalTranscript s) "" in
  set_transcription (trim (final +:+ interim))
    (set_interimTranscript interim (set_finalTranscript final s)).

(** [recognition.onend]. *)
Definition onEnd (s : State) : State * list Effect :=
  if isRecording s then
    let s1 :=
      if truthy (trim (interimTranscript s)) then
        let final := finalTranscript s +:+ interimTranscript s +:+ " " in
        set_transcription (trim final)
          (set_interimTranscript "" (set_finalTranscript final s))
      else s in
    (s1, [RecognitionRestart 50])
  else (s, []).

(** The outcome of [getUserMedia]. *)
Inductive Permission :=
| Granted
| Denied.

Definition startRecording (apiKeys : list ApiKey) (perm : Permission) (s : State)
  : State * list Effect :=
  if negb (canProceed apiKeys (provider s)) then
    (set_error ("Please configure your " +:+ provider s +:+ " API key in Settings.") s, [])
  else
    let s1 :=
      {| isRecording := true; transcription := ""; summary := ""; error := "";
         provider := provider s; language := language s;
         pendingRequestsCount := pendingRequestsCount s;
         finalTranscript := ""; interimTranscript := ""; transcriptionChunk := "";
         previousContext := ""; pendingRequests := pendingRequests s;
         chunkCounter := 0; chunkInterval := true |} in
    match perm with
    | Granted => (s1, [SetInterval chunkPeriod; RecognitionStart])
    | Denied =>
        (set_chunkInterval false
           (set_isRecording false
              (set_error "Microphone access denied. Please allow microphone permissions."
                 s1)),
         [SetInterval chunkPeriod; ClearInterval])
    end.

Definition stopRecording (apiKeys : list ApiKey) (s : State) : State * list Effect :=
  let s1 := set_chunkInterval false (set_isRecording false s) in
  let cleared := if chunkInterval s then [ClearInterval] else [] in
  let finalTranscription := trim (finalTranscript s1) in
  if truthy finalTranscription
     && negb (String.eqb finalTranscription (transcriptionChunk s1))
  then
    let n := S (chunkCounter s1) in
    let '(s2, effects) :=
      sendTranscriptionChunk apiKeys finalTranscription n (set_chunkCounter n s1) in
    (s2, cleared ++ [RecognitionStop] ++ effects)
  else (s1, cleared ++ [RecognitionStop]).

(** [recognition.onerror] for [event.error]. *)
Definition onError (apiKeys : list ApiKey) (kind : string) (s : State)
  : State * list Effect :=
  if String.eqb kind "no-speech" || String.eqb kind "aborted" then (s, [])
  else if String.eqb kind "network" then
    stopRecording apiKeys
      (set_error "Network error. Please check your internet connection." s)
  else if String.eqb kind "not-allowed" then
    stopRecording apiKeys
      (set_error "Microphone access denied. Please allow microphone permissions." s)
  else if isRecording s then
    stopRecording apiKeys (set_error ("Speech recognition error: " +:+ kind) s)
  else (s, []).

(** What can happen once the view is recording. *)
Inductive Event :=
| Result (results : list (string * bool))
| End
| Error (kind : string)
| ChunkInterval
| ChunkSettled (chunkNumber : nat) (reply : Reply)
| StopClicked.

(** The handler an event goes to. *)
Definition dispatch (apiKeys : list ApiKey) (e : Event) (s : State)
  : State * list Effect :=
  match e with
  | Result results => (onResult results s, [])
  | End => onEnd s
  | Error kind => onError apiKeys kind s
  | ChunkInterval => onChunkInterval apiKeys s
  | ChunkSettled n reply => (onChunkSettled n reply s, [])
  | StopClicked => stopRecording apiKeys s
  end.

(** The effect that sets up speech recognition depends on [isRecording]:
    once a handler has changed it, the effect runs again after the render,
    makes a new recognizer and empties both transcript refs. *)
Definition recognitionEffect (before after : State) : State :=
  if Bool.eqb (isRecording before) (isRecording after) then after
  else set_interimTranscript "" (set_finalTranscript "" after).

(** An event: its handler, then the render and its effects. *)
Definition handle (apiKeys : list ApiKey) (e : Event) (s : State)
  : State * list Effect :=
  let '(s1, effects) := dispatch apiKeys e s in
  (recognitionEffect s s1, effects).

(** The events in order, with the API keys the dashboard passes down. *)
Fixpoint run (apiKeys : list ApiKey) (es : list Event) (s : State)
  : State * list Effect :=
  match es with
  | [] => (s, [])
  | e :: es' =>
      let '(s1, effects1) := handle apiKeys e s in
      let '(s2, effects2) := run apiKeys es' s1 in
      (s2, effects1 ++ effects2)
  end.

(** A recording session: the microphone button is pressed, access is
    granted, then the events arrive. *)
Definition session (apiKeys : list ApiKey) (es : list Event) (s : State)
  : State * list Effect :=
  let '(s1, effects1) := startRecording apiKeys Granted s in
  let '(s2, effects2) := run apiKeys es (recognitionEffect s s1) in
  (s2, effects1 ++ effects2).

(** The requests among the effects, in order. *)
Definition requests (effects : list Effect) : list Transcription.Request :=
  omap (fun e => match e with Post r => Some r | _ => None end) effects.

(** The transcript a chunk request carries. *)
Definition transcriptOf (r : Transcription.Request) : option string :=
  match Transcription.payload r with
  | Transcription.JsonBody (("transcription", Transcription.JString t) :: _) => Some t
  | _ => None
  end.

(** The transcript sent with the latest chunk, or the empty string when no
    chunk was sent. *)
Definition lastSent (effects : list Effect) : string :=
  default "" (last (omap transcriptOf (requests effects))).

(** Every request among the effects goes to the chunk-summary endpoint. *)
Definition summaryOnly (effects : list Effect) : Prop :=
  forall r, In r (requests effects) ->
    Transcription.url r = "/api/transcription-chunk-summary".

(** A request that asks the backend for a gloss. *)
Definition asksForGloss (r : Transcription.Request) : Prop :=
  exists text provider, r = Transcription.textToGloss text provider.

(** What holds between two events of a session run with [apiKeys]: the
    provider has an active key, the chunk interval exists exactly while
    recording, and while recording [transcriptionChunkRef] holds the
    transcript sent with the latest chunk of [sofar]. *)
Definition consistent (apiKeys : list ApiKey) (s : State) (sofar : list Effect) : Prop :=
  hasProviderKey apiKeys (provider s) = true
  /\ chunkInterval s = isRecording s
  /\ (isRecording s = true -> transcriptionChunk s = lastSent sofar).

(** ** The view's controls *)

(** What the user and the browser can do to the view: an event of a
    recording, the microphone button, and the two selects. *)
Inductive UiEvent :=
| Recording (e : Event)
| MicClicked (perm : Permission)
| ProviderSelected (newProvider : string)
| LanguageSelected (newLanguage : string).

(** The microphone button is disabled without a key for the provider;
    otherwise it stops a recording or starts one. *)
Definition clickMic (apiKeys : list ApiKey) (perm : Permission) (s : State)
  : State * list Effect :=
  if canProceed apiKeys (provider s) then
    if isRecording s then stopRecording apiKeys s else startRecording apiKeys perm s
  else (s, []).

(** The provider select, disabled while recording. *)
Definition selectProvider (newProvider : string) (s : State) : State :=
  if isRecording s then s else set_provider newProvider s.

(** The language select, disabled while recording.  The effect that sets
    up speech recognition also depends on [language]: a new language makes
    a new recognizer and empties both transcript refs. *)
Definition selectLanguage (newLanguage : string) (s : State) : State :=
  if isRecording s || String.eqb newLanguage (language s) then s
  else set_interimTranscript "" (set_finalTranscript "" (set_language newLanguage s)).

Definition handleUi (apiKeys : list ApiKey) (e : UiEvent) (s : State)
  : State * list Effect :=
  match e with
  | Recording e' => handle apiKeys e' s
  | MicClicked perm =>
      let '(s1, effects) := clickMic apiKeys perm s in
      (recognitionEffect s s1, effects)
  | ProviderSelected p => (selectProvider p s, [])
  | LanguageSelected l => (selectLanguage l s, [])
  end.

Fixpoint runUi (apiKeys : list ApiKey) (es : list UiEvent) (s : State)
  : State * list Effect :=
  match es with
  | [] => (s, [])
  | e :: es' =>
      let '(s1, effects1) := handleUi apiKeys e s in
      let '(s2, effects2) := runUi apiKeys es' s1 in
      (s2, effects1 ++ effects2)
  end.

(** The transcripts of the final results, each followed by a space, one
    after the other. *)
Fixpoint finals (results : list (string * bool)) : string :=
  match results with
  | [] => ""
  | (transcript, isFinal) :: rest =>
      if isFinal then transcript +:+ " " +:+ finals rest else finals rest
  end.

(** The transcripts of the results that are not final. *)
Definition interims (results : list (string * bool)) : list string :=
  map fst (List.filter (fun r => negb (snd r)) results).

(** The context a request carries. *)
Definition contextIn (r : Transcription.Request) : option Transcription.Json :=
  match Transcription.payload r with
  | Transcription.JsonBody [_; _; ("previous_context", c)] => Some c
  | _ => None
  end.

(** What every handler keeps: the count shown is the size of the set of
    pending requests, and the context of the next chunk is the summary
    shown. *)
Definition kept (s : State) : Prop :=
  pendingRequestsCount s = size (pendingRequests s)
  /\ previousContext s = summary s.

(** Every request among the effects carries [c] as its context, [null]
    for the empty string. *)
Definition carriesContext (c : string) (effects : list Effect) : Prop :=
  Forall (fun rq =>
            contextIn rq
            = Some (if truthy c then Transcription.JString c else Transcription.JNull))
    (requests effects).

End SpeechToSign.

(* ===================================================================== *)
(** * Video compression (utils/videoCompression.js) *)
(* ===================================================================== *)

Module VideoCompression.

Local Open Scope Z_scope.

(** Durations are numbers of seconds.  They are rationals here: every
    finite double is one, and the product [duration * 1000] is taken
    exactly.  [currentTime] counts milliseconds in steps of 42 and is an
    integer.  This module serves the properties that do not turn on the
    number of frames: what is kept of the chunks, when the object URL is
    revoked, a falsy or negative [maxDuration].  How many frames there
    are, and whether the call ends, is settled in [VideoCompression64]
    below, with the binary64 operations of the code. *)

Inductive RecorderState :=
| Inactive
| Recording.

(** The [MediaRecorder] and the options it was created with. *)
Record Recorder := mkRecorder {
  mimeType : string;
  videoBitsPerSecond : Z;
  state : RecorderState
}.

(** A call [ctx.drawImage(video, dx, dy, dw, dh)], with the position the
    video was showing. *)
Record Draw := mkDraw {
  shown : Q;
  dx : Z;
  dy : Z;
  dw : Z;
  dh : Z
}.

(** The two callbacks handed to [setTimeout]. *)
Inductive Timer :=
| DrawFrameTimer (ms : Z)
| StopTimer (ms : Z).

Inductive Promise :=
| Pending
| Resolved (b : Blob)
| Rejected (message : string).

(** Everything one call of [compressVideo] holds: its argument
    [maxDuration], the canvas, the capture stream's frame rate, the
    recorder, the local variables of the callbacks, the video element's
    position and pending seek, the timers not yet fired and the promise.
    [seeks] and [draws] log the assignments to [video.currentTime] and the
    calls of [drawImage], oldest first. *)
Record State := mkState {
  maxDuration : option Q;
  canvas : Z * Z;
  stream : option Z;
  recorder : option Recorder;
  chunks : list Blob;
  duration : Q;
  currentTime : Z;
  position : Q;
  canplayHandler : bool;
  seeking : bool;
  seeks : list Q;
  draws : list Draw;
  timers : list Timer;
  stopping : bool;
  promise : Promise;
  urlRevoked : bool
}.

Definition set_recorder (v : option Recorder) (s : State) : State :=
  {| maxDuration := maxDuration s; canvas := canvas s; stream := stream s;
     recorder := v; chunks := chunks s; duration := duration s;
     currentTime := currentTime s; position := position s;
     canplayHandler := canplayHandler s; seeking := seeking s; seeks := seeks s;
     draws := draws s; timers := timers s; stopping := stopping s;
     promise := promise s; urlRevoked := urlRevoked s |}.

Definition set_chunks (v : list Blob) (s : State) : State :=
  {| maxDuration := maxDuration s; canvas := canvas s; stream := stream s;
     recorder := recorder s; chunks := v; duration := duration s;
     currentTime := currentTime s; position := position s;
     canplayHandler := canplayHandler s; seeking := seeking s; seeks := seeks s;
     draws := draws s; timers := timers s; stopping := stopping s;
     promise := promise s; urlRevoked := urlRevoked s |}.

Definition set_currentTime (v : Z) (s : State) : State :=
  {| maxDuration := maxDuration s; canvas := canvas s; stream := stream s;
     recorder := recorder s; chunks := chunks s; duration := duration s;
     currentTime := v; position := position s; canplayHandler := canplayHandler s;
     seeking := seeking s; seeks := seeks s; draws := draws s; timers := timers s;
     stopping := stopping s; promise := promise s; urlRevoked := urlRevoked s |}.

Definition set_position (v : Q) (s : State) : State :=
  {| maxDuration := maxDuration s; canvas := canvas s; stream := stream s;
     recorder := recorder s; chunks := chunks s; duration := duration s;
     currentTime := currentTime s; position := v; canplayHandler := canplayHandler s;
     seeking := seeking s; seeks := seeks s; draws := draws s; timers := timers s;
     stopping := stopping s; promise := promise s; urlRevoked := urlRevoked s |}.

Definition set_seeking (v : bool) (s : State) : State :=
  {| maxDuration := maxDuration s; canvas := canvas s; stream := stream s;
     recorder := recorder s; chunks := chunks s; duration := duration s;
     currentTime := currentTime s; position := position s;
     canplayHandler := canplayHandler s; seeking := v; seeks := seeks s;
     draws := draws s; timers := timers s; stopping := stopping s;
     promise := promise s; urlRevoked := urlRevoked s |}.

Definition set_seeks (v : list Q) (s : State) : State :=
  {| maxDuration := maxDuration s; canvas := canvas s; stream := stream s;
     recorder := recorder s; chunks := chunks s; duration := duration s;
     currentTime := currentTime s; position := position s;
     canplayHandler := canplayHandler s; seeking := seeking s; seeks := v;
     draws := draws s; timers := timers s; stopping := stopping s;
     promise := promise s; urlRevoked := urlRevoked s |}.

Definition set_draws (v : list Draw) (s : State) : State :=
  {| maxDuration := maxDuration s; canvas := canvas s; stream := stream s;
     recorder := recorder s; chunks := chunks s; duration := duration s;
     currentTime := currentTime s; position := position s;
     canplayHandler := canplayHandler s; seeking := seeking s; seeks := seeks s;
     draws := v; timers := timers s; stopping := stopping s; promise := promise s;
     urlRevoked := urlRevoked s |}.

Definition set_timers (v : list Timer) (s : State) : State :=
  {| maxDuration := maxDuration s; canvas := canvas s; stream := stream s;
     recorder := recorder s; chunks := chunks s; duration := duration s;
     currentTime := currentTime s; position := position s;
     canplayHandler := canplayHandler s; seeking := seeking s; seeks := seeks s;
     draws := draws s; timers := v; stopping := stopping s; promise := promise s;
     urlRevoked := urlRevoked s |}.

Definition set_stopping (v : bool) (s : State) : State :=
  {| maxDuration := maxDuration s; canvas := canvas s; stream := stream s;
     recorder := recorder s; chunks := chunks s; duration := duration s;
     currentTime := currentTime s; position := position s;
     canplayHandler := canplayHandler s; seeking := seeking s; seeks := seeks s;
     draws := draws s; timers := timers s; stopping := v; promise := promise s;
     urlRevoked := urlRevoked s |}.

Definition set_promise (v : Promise) (s : State) : State :=
  {| maxDuration := maxDuration s; canvas := canvas s; stream := stream s;
     recorder := recorder s; chunks := chunks s; duration := duration s;
     currentTime := currentTime s; position := position s;
     canplayHandler := canplayHandler s; seeking := seeking s; seeks := seeks s;
     draws := draws s; timers := timers s; stopping := stopping s; promise := v;
     urlRevoked := urlRevoked s |}.

Definition set_urlRevoked (v : bool) (s : State) : State :=
  {| maxDuration := maxDuration s; canvas := canvas s; stream := stream s;
     recorder := recorder s; chunks := chunks s; duration := duration s;
     currentTime := currentTime s; position := position s;
     canplayHandler := canplayHandler s; seeking := seeking s; seeks := seeks s;
     draws := draws s; timers := timers s; stopping := stopping s;
     promise := promise s; urlRevoked := v |}.

Definition targetWidth : Z := 1280.
Definition targetHeight : Z := 720.
Definition frameInterval : Z := 42.

(** [a >= b] and [a < b] on numbers. *)
Definition geb (a b : Q) : bool := Qle_bool b a.
Definition ltb (a b : Q) : bool := negb (Qle_bool b a).

(** [Math.min]. *)
Definition min (a b : Q) : Q := if Qle_bool a b then a else b.

(** A number is truthy unless it is zero. *)
Definition truthy (q : Q) : bool := negb (Qeq_bool q 0).

(** [maxDuration ? Math.min(video.duration, maxDuration) : video.duration]. *)
Definition effectiveDuration (videoDuration : Q) (maxDuration : option Q) : Q :=
  match maxDuration with
  | Some m => if truthy m then min videoDuration m else videoDuration
  | None => videoDuration
  end.

(** [duration * 1000], the bound [currentTime] is compared with. *)
Definition limit (s : State) : Q := (duration s * 1000)%Q.

(** The promise executor up to the point where it waits for the video's
    metadata.  A new canvas is 300 by 150. *)
Definition compressVideo (maxDuration : option Q) : State :=
  {| maxDuration := maxDuration; canvas := (300, 150); stream := None;
     recorder := None; chunks := []; duration := 0%Q; currentTime := 0;
     position := 0%Q; canplayHandler := false; seeking := false; seeks := [];
     draws := []; timers := []; stopping := false; promise := Pending;
     urlRevoked := false |}.

(** Only the first [resolve] or [reject] counts. *)
Definition settle (p : Promise) (s : State) : State :=
  match promise s with
  | Pending => set_promise p s
  | _ => s
  end.

(** [recorder.stop()]: the recorder goes inactive and its [stop] event is
    due.  On an inactive recorder the call throws and nothing changes. *)
Definition recorderStop (s : State) : State :=
  match recorder s with
  | Some r =>
      match state r with
      | Recording =>
          set_stopping true
            (set_recorder (Some (mkRecorder (mimeType r) (videoBitsPerSecond r) Inactive)) s)
      | Inactive => s
      end
  | None => s
  end.

(** [video.onloadedmetadata], for a video lasting [videoDuration]. *)
Definition onLoadedMetadata (videoDuration : Q) (s : State) : State :=
  {| maxDuration := maxDuration s;
     canvas := (targetWidth, targetHeight);
     stream := Some 24;
     recorder := Some (mkRecorder "video/webm;codecs=vp9" 250000 Recording);
     chunks := [];
     duration := effectiveDuration videoDuration (maxDuration s);
     currentTime := 0;
     position := position s; canplayHandler := true; seeking := seeking s;
     seeks := seeks s; draws := draws s; timers := timers s;
     stopping := stopping s; promise := promise s; urlRevoked := urlRevoked s |}.

(** [drawFrame]. *)
Definition drawFrame (s : State) : State :=
  if geb (inject_Z (currentTime s)) (limit s) then recorderStop s
  else
    let target := (inject_Z (currentTime s) / 1000)%Q in
    set_seeking true (set_seeks (seeks s ++ [target]) (set_position target s)).

(** [video.onseeked], as [drawFrame] installs it. *)
Definition onSeeked (s : State) : State :=
  let s1 :=
    set_draws (draws s ++ [mkDraw (position s) 0 0 targetWidth targetHeight])
      (set_seeking false s) in
  let s2 := set_currentTime (currentTime s1 + frameInterval) s1 in
  if ltb (inject_Z (currentTime s2)) (limit s2)
  then set_timers (timers s2 ++ [DrawFrameTimer frameInterval]) s2
  else set_timers (timers s2 ++ [StopTimer frameInterval]) s2.

(** [recorder.ondataavailable]. *)
Definition onDataAvailable (b : Blob) (s : State) : State :=
  match recorder s with
  | Some _ => if (0 <? blob_size b)%nat then set_chunks (chunks s ++ [b]) s else s
  | None => s
  end.

(** [recorder.onstop]. *)
Definition onStop (s : State) : State :=
  settle (Resolved (newBlob (chunks s) "video/webm"))
    (set_urlRevoked true (set_stopping false s)).

(** What the browser can raise. [Timeout] is the oldest pending timer
    firing. *)
Inductive Event :=
| LoadedMetadata (videoDuration : Q)
| CanPlay
| Seeked
| Timeout
| DataAvailable (b : Blob)
| RecorderStop
| RecorderError (err : string)
| VideoError (message : string).

Definition handle (e : Event) (s : State) : State :=
  match e with
  | LoadedMetadata d => onLoadedMetadata d s
  | CanPlay => if canplayHandler s then drawFrame s else s
  | Seeked => if seeking s then onSeeked s else s
  | Timeout =>
      match timers s with
      | DrawFrameTimer _ :: rest => drawFrame (set_timers rest s)
      | StopTimer _ :: rest => recorderStop (set_timers rest s)
      | [] => s
      end
  | DataAvailable b => onDataAvailable b s
  | RecorderStop => if stopping s then onStop s else s
  | RecorderError err =>
      match recorder s with
      | Some _ =>
          settle (Rejected ("Video compression failed: " +:+ err))
            (set_urlRevoked true s)
      | None => s
      end
  | VideoError message =>
      settle (Rejected ("Failed to load video: " +:+ message)) (set_urlRevoked true s)
  end.

Definition deliver (batch : list Blob) (s : State) : State :=
  fold_left (fun s b => handle (DataAvailable b) s) batch s.

(** The event a browser raises next when nothing fails: the end of the
    pending seek, else the oldest timer, else the recorder's [stop]. *)
Definition next (s : State) : option Event :=
  if seeking s then Some Seeked
  else
    match timers s with
    | _ :: _ => Some Timeout
    | [] => if stopping s then Some RecorderStop else None
    end.

(** The browser's loop.  Before each event the recorder may hand over a
    batch of data, [feed] listing the batches; what is left of [feed] when
    the recorder stops arrives before its [stop] event. *)
Fixpoint play (fuel : nat) (feed : list (list Blob)) (s : State) : State :=
  match fuel with
  | O => s
  | S fuel' =>
      match next s with
      | Some RecorderStop => handle RecorderStop (deliver (concat feed) s)
      | Some e => play fuel' (tl feed) (handle e (deliver (hd [] feed) s))
      | None => s
      end
  end.

(** A whole call on a video lasting [videoDuration] whose metadata loads
    and which becomes playable once. *)
Definition compress (fuel : nat) (videoDuration : Q) (maxDuration : option Q)
    (feed : list (list Blob)) : State :=
  play fuel feed
    (handle CanPlay (handle (LoadedMetadata videoDuration) (compressVideo maxDuration))).

(** The non-empty blobs of every batch, in order of arrival. *)
Definition recorded (feed : list (list Blob)) : list Blob :=
  List.filter (fun b => (0 <? blob_size b)%nat) (concat feed).

(** The first [n] positions of a walk in steps of [frameInterval]
    milliseconds, in seconds. *)
Definition positions (n : nat) : list Q :=
  map (fun k => (inject_Z (Z.of_nat k * frameInterval) / 1000)%Q) (seq 0 n).

(** How many multiples of [frameInterval] lie below [bound]
    milliseconds. *)
Definition frameCount (bound : Q) : nat :=
  Z.to_nat (Qceiling (bound / inject_Z frameInterval)).

(** The calls of [drawImage] for the first [n] positions. *)
Definition redraws (n : nat) : list Draw :=
  map (fun p => mkDraw p 0 0 targetWidth targetHeight) (positions n).

(** Where a call stands between two events: a seek is pending, the timer
    for the next frame is pending, the timer that stops the recorder is
    pending, or the recorder's [stop] event is due. *)
Inductive Phase :=
| Seeking
| Waiting
| Closing
| Stopping.

(** The state of a call on a video lasting [videoDuration] that has drawn
    [i] frames, is in phase [ph] and holds the chunks [c]. *)
Definition snapshot (maxDuration : option Q) (videoDuration : Q) (ph : Phase)
    (i : nat) (c : list Blob) : State :=
  let sought := positions (match ph with Seeking => S i | _ => i end) in
  {| maxDuration := maxDuration;
     canvas := (targetWidth, targetHeight);
     stream := Some 24;
     recorder :=
       Some (mkRecorder "video/webm;codecs=vp9" 250000
               (match ph with Stopping => Inactive | _ => Recording end));
     chunks := c;
     duration := effectiveDuration videoDuration maxDuration;
     currentTime := Z.of_nat i * frameInterval;
     position := List.last sought 0%Q;
     canplayHandler := true;
     seeking := match ph with Seeking => true | _ => false end;
     seeks := sought;
     draws := redraws i;
     timers :=
       match ph with
       | Waiting => [DrawFrameTimer frameInterval]
       | Closing => [StopTimer frameInterval]
       | _ => []
       end;
     stopping := match ph with Stopping => true | _ => false end;
     promise := Pending;
     urlRevoked := false |}.

(** The bound in milliseconds for a video lasting [videoDuration]. *)
Definition bound (videoDuration : Q) (maxDuration : option Q) : Q :=
  (effectiveDuration videoDuration maxDuration * 1000)%Q.

(** ** Any course of events *)

(** The events in order, whatever they are. *)
Definition runEvents (es : list Event) (s : State) : State :=
  fold_left (fun s e => handle e s) es s.

(** The non-empty blobs the recorder hands over among the events, in
    order. *)
Definition delivered (es : list Event) : list Blob :=
  omap (fun e => match e with
                 | DataAvailable b => if (0 <? blob_size b)%nat then Some b else None
                 | _ => None
                 end) es.

Definition isLoadedMetadata (e : Event) : bool :=
  match e with
  | LoadedMetadata _ => true
  | _ => false
  end.

(** ** [recordVideoWithConstraints] *)

(** The recorder options tried in turn; the last one is [{}]. *)
Definition codecOptions : list (option string * option Z) :=
  [ (Some "video/webm;codecs=vp9", Some 250000);
    (Some "video/webm;codecs=vp8", Some 250000);
    (Some "video/webm", Some 250000);
    (None, None) ].

(** [tryNextCodec] from the option at [codecIndex] on.  An option is taken
    when [isTypeSupported(options.mimeType || 'video/webm')] holds and
    creating and starting the recorder does not throw, which [constructs]
    tells; [None] is the rejection [No supported video codec found]. *)
Fixpoint tryNextCodec (isTypeSupported : string -> bool)
    (constructs : option string * option Z -> bool)
    (options : list (option string * option Z))
  : option (option string * option Z) :=
  match options with
  | [] => None
  | o :: rest =>
      if isTypeSupported (default "video/webm" (fst o)) && constructs o
      then Some o
      else tryNextCodec isTypeSupported constructs rest
  end.

(** What [recordVideoWithConstraints] has done when it returns its
    promise: it has rejected, or it has started a recorder with the
    option taken, asking for data every 100 ms, and a timer of
    [maxDuration * 1000] ms that stops it. *)
Inductive Capture :=
| NoCodec (message : string)
| Started (taken : option string * option Z) (timeslice : Z) (stopAfter : Q).

Definition recordVideoWithConstraints (isTypeSupported : string -> bool)
    (constructs : option string * option Z -> bool) (maxDuration : Q) : Capture :=
  match tryNextCodec isTypeSupported constructs codecOptions with
  | None => NoCodec "No supported video codec found"
  | Some o => Started o 100 (maxDuration * 1000)%Q
  end.

(** A settled promise comes with a revoked object URL. *)
Definition tidy (s : State) : Prop := promise s = Pending \/ urlRevoked s = true.

End VideoCompression.

(* ===================================================================== *)
(** * The history list (components/Dashboard/History.jsx) *)
(* ===================================================================== *)

Module History.

Import JsString.

(** An entry of [GET /api/history] as the view reads it. *)
Record Entry := mkEntry {
  id : Z;
  operation_type : string;
  created_at : string;
  input_text : option string;
  output_text : option string;
  output_gloss : option (list string);
  entry_provider : string;
  processing_time_ms : Z
}.

(** What React is given to render: text, a date shown in the browser's
    locale, or an element with its key, its class and its children. *)
#[local] Set Warnings "-register-all".
Inductive Node :=
| Text (s : string)
| LocaleDate (iso : string)
| Element (tag : string) (key : option string) (className : string)
    (children : list Node).

(** [{x && <jsx/>}] for a string [x]: nothing when [x] is missing or empty. *)
Definition whenText (x : option string) (jsx : string -> Node) : list Node :=
  match x with
  | Some t => if truthy t then [jsx t] else []
  | None => []
  end.

(** The badge of one gloss token, keyed by its index. *)
Definition glossBadge (i : nat) (word : string) : Node :=
  Element "span" (Some (pretty i)) "bg-indigo-100 text-indigo-800 px-3 py-1 rounded"
    [Text word].

(** [{entry.output_gloss && (...)}]: an array, even an empty one, is
    truthy; [null] and [undefined] render nothing. *)
Definition glossSection (e : Entry) : list Node :=
  match output_gloss e with
  | Some gloss =>
      [Element "div" None "mb-3"
         [Element "strong" None "" [Text "Gloss:"];
          Element "div" None "flex flex-wrap gap-2 mt-2" (imap glossBadge gloss)]]
  | None => []
  end.

Definition isSpeechToSign (e : Entry) : bool :=
  String.eqb (operation_type e) "speech_to_sign".

(** The card of one entry. *)
Definition renderEntry (e : Entry) : Node :=
  Element "div" (Some (pretty (id e)))
    "border border-gray-200 rounded-lg p-6 hover:shadow-md transition-all"
    ([Element "div" None "flex justify-between items-start mb-4"
        [Element "div" None ""
           [Element "span" None
              ("px-3 py-1 rounded-full text-sm font-semibold " +:+
               (if isSpeechToSign e then "bg-blue-100 text-blue-800"
                else "bg-green-100 text-green-800"))
              [Text (if isSpeechToSign e then "Speech → Sign" else "Sign → Speech")];
            Element "span" None "ml-3 text-sm text-gray-500"
              [LocaleDate (created_at e)]];
         Element "button" None "text-red-600 hover:text-red-800" [Text "Delete"]]]
     ++ whenText (input_text e) (fun t =>
          Element "div" None "mb-3"
            [Element "strong" None "" [Text "Input:"]; Text " ";
             Element "span" None "text-black" [Text t]])
     ++ whenText (output_text e) (fun t =>
          Element "div" None "mb-3"
            [Element "strong" None "" [Text "Translation:"]; Text " ";
             Element "span" None "text-black font-semibold" [Text t]])
     ++ glossSection e
     ++ [Element "div" None "text-sm text-gray-500"
           [Text "Provider: "; Text (entry_provider e); Text " | Processing time: ";
            Text (pretty (processing_time_ms e)); Text "ms"]]).

(** The list under the filter, for the entries loaded. *)
Definition renderHistory (history : list Entry) : Node :=
  match history with
  | [] =>
      Element "div" None "text-center py-12 text-gray-500"
        [Text "No history entries yet. Start using ARIA to see your translation history here."]
  | _ => Element "div" None "space-y-4" (map renderEntry history)
  end.

(** ** Reading a rendered card *)

Definition className (n : Node) : string :=
  match n with
  | Element _ _ c _ => c
  | _ => ""
  end.

Definition children (n : Node) : list Node :=
  match n with
  | Element _ _ _ cs => cs
  | _ => []
  end.

(** The text directly inside an element. *)
Definition textOf (n : Node) : string :=
  match children n with
  | [Text t] => t
  | _ => ""
  end.

(** A gloss section is a block whose first child is the heading
    [Gloss:]. *)
Definition isGlossSection (n : Node) : bool :=
  match children n with
  | heading :: _ => String.eqb (textOf heading) "Gloss:"
  | [] => false
  end.

(** The gloss sections of a card. *)
Definition glossSections (card : Node) : list Node :=
  List.filter isGlossSection (children card).

(** The badges of a gloss section: the children of its second child. *)
Definition badges (section : Node) : list Node :=
  match children section with
  | [_; row] => children row
  | _ => []
  end.

(** The React key of a node. *)
Definition keyOf (n : Node) : option string :=
  match n with
  | Element _ k _ _ => k
  | _ => None
  end.

End History.

(* ===================================================================== *)
(** * An uploaded video, from [compressVideo] to [sendToAPI] *)
(* ===================================================================== *)

Module Upload.


End Upload.

(* ===================================================================== *)
(** * Accounts (services/auth.js, pages/Login.jsx, pages/Register.jsx,
      pages/Dashboard.jsx, components/Dashboard/Settings.jsx) *)
(* ===================================================================== *)

Module Auth.

Inductive Method :=
| GET
| POST
| DELETE.

(** A call through the shared client: its method, its path and the
    fields of its JSON body. *)
Record Call := mkCall {
  method : Method;
  path : string;
  body : list (string * Transcription.Json)
}.

(** What the pages read of the JSON body of an answer, each field
    possibly missing: [user] is the text [JSON.stringify] gives for the
    field. *)
Record Body := mkBody {
  access_token : option string;
  user : option string;
  detail : option string;
  api_keys : option (list ApiKey)
}.

Definition register (userData : list (string * Transcription.Json)) : Call :=
  mkCall POST "/api/auth/register" userData.

Definition login (credentials : list (string * Transcription.Json)) : Call :=
  mkCall POST "/api/auth/login" credentials.

Definition getCurrentUser : Call := mkCall GET "/api/auth/me" [].

Definition saveAPIKey (apiKeyData : list (string * Transcription.Json)) : Call :=
  mkCall POST "/api/auth/api-keys" apiKeyData.

Definition getAPIKeys : Call := mkCall GET "/api/auth/api-keys" [].

Definition deleteAPIKey (provider : string) : Call :=
  mkCall DELETE ("/api/auth/api-keys/" +:+ provider) [].

(** [err.response?.data?.detail]. *)
Definition detailOf (e : Api.AxiosError Body) : option string :=
  match Api.response e with
  | Some r => detail (Api.data r)
  | None => None
  end.

(** [localStorage.setItem(key, value)] writes [String(value)]. *)
Definition stored (value : option string) : string := default "undefined" value.

End Auth.

Module Login.

Import JsString.

Record State := mkState {
  email : string;
  password : string;
  error : string;
  loading : bool
}.

(** [handleSubmit], for what the network answers to the login call. *)
Definition handleSubmit (t : Api.Transport Auth.Body) (st : State) (b : Api.Browser)
  : State * Api.Browser * list Auth.Call :=
  let call :=
    Auth.login [("email", Transcription.JString (email st));
                ("password", Transcription.JString (password st))] in
  let '(b1, outcome) := Api.receive t b in
  match outcome with
  | Api.Fulfilled r =>
      let storage :=
        <["aria_user" := Auth.stored (Auth.user (Api.data r))]>
          (<["aria_token" := Auth.stored (Auth.access_token (Api.data r))]>
             (Api.localStorage b1)) in
      (mkState (email st) (password st) "" false,
       Api.mkBrowser storage "/dashboard", [call])
  | Api.Rejected e =>
      (mkState (email st) (password st)
         (orElse (Auth.detailOf e) "Login failed. Please check your credentials.")
         false,
       b1, [call])
  end.

End Login.

Module Dashboard.

(** [handleLogout]. *)
Definition handleLogout (b : Api.Browser) : Api.Browser :=
  Api.mkBrowser (delete "aria_user" (delete "aria_token" (Api.localStorage b))) "/".

End Dashboard.

Module Register.

Import JsString.

Record Form := mkForm {
  email : string;
  username : string;
  password : string;
  confirmPassword : string;
  fullName : string
}.

Record State := mkState {
  formData : Form;
  error : string;
  loading : bool
}.

(** [handleSubmit], for what the network answers to the call if one is
    made.  The call goes through the shared client, whose response
    interceptor sees the answer first; [navigate('/login')] moves the
    browser to [/login]. *)
Definition handleSubmit (t : Api.Transport Auth.Body) (st : State) (b : Api.Browser)
  : State * Api.Browser * list Auth.Call :=
  let f := formData st in
  if negb (String.eqb (password f) (confirmPassword f)) then
    (mkState f "Passwords do not match" (loading st), b, [])
  else if (String.length (password f) <? 6)%nat then
    (mkState f "Password must be at least 6 characters" (loading st), b, [])
  else
    let call :=
      Auth.register
        [("email", Transcription.JString (email f));
         ("username", Transcription.JString (username f));
         ("password", Transcription.JString (password f));
         ("full_name",
          if truthy (fullName f) then Transcription.JString (fullName f)
          else Transcription.JNull)] in
    let '(b1, outcome) := Api.receive t b in
    match outcome with
    | Api.Fulfilled _ =>
        (mkState f "" false, Api.mkBrowser (Api.localStorage b1) "/login", [call])
    | Api.Rejected e =>
        (mkState f (orElse (Auth.detailOf e) "Registration failed. Please try again.")
           false,
         b1, [call])
    end.

End Register.

Module Settings.

Import JsString.

Record State := mkState {
  apiKeys : list ApiKey;
  newKey_provider : string;
  newKey_api_key : string;
  loading : bool;
  message : string
}.

(** [loadAPIKeys], for how [getAPIKeys] ends. *)
Definition loadAPIKeys (reply : Api.Settled Auth.Body) (st : State) : State :=
  match reply with
  | Api.Fulfilled r =>
      mkState (default [] (Auth.api_keys (Api.data r))) (newKey_provider st)
        (newKey_api_key st) (loading st) (message st)
  | Api.Rejected _ => st
  end.

(** [handleSave], for how [saveAPIKey] and the reload after it end; the
    last component tells whether [onUpdate] is reached. *)
Definition handleSave (saved loaded : Api.Settled Auth.Body) (st : State)
  : State * list Auth.Call * bool :=
  if negb (truthy (trim (newKey_api_key st))) then
    (mkState (apiKeys st) (newKey_provider st) (newKey_api_key st) (loading st)
       "Please enter an API key",
     [], false)
  else
    let call :=
      Auth.saveAPIKey
        [("provider", Transcription.JString (newKey_provider st));
         ("api_key", Transcription.JString (newKey_api_key st))] in
    match saved with
    | Api.Fulfilled _ =>
        let st1 := loadAPIKeys loaded (mkState (apiKeys st) "openai" "" true "") in
        (mkState (apiKeys st1) (newKey_provider st1) (newKey_api_key st1) false
           "API key saved successfully!",
         [call; Auth.getAPIKeys], true)
    | Api.Rejected e =>
        (mkState (apiKeys st) (newKey_provider st) (newKey_api_key st) false
           (orElse (Auth.detailOf e) "Failed to save API key"),
         [call], false)
    end.

(** [handleDelete], for the answer to [confirm] and for how
    [deleteAPIKey] and the reload after it end. *)
Definition handleDelete (provider : string) (confirmed : bool)
    (deleted loaded : Api.Settled Auth.Body) (st : State)
  : State * list Auth.Call * bool :=
  if negb confirmed then (st, [], false)
  else
    match deleted with
    | Api.Fulfilled _ =>
        let st1 := loadAPIKeys loaded st in
        (mkState (apiKeys st1) (newKey_provider st1) (newKey_api_key st1) (loading st1)
           "API key deleted successfully!",
         [Auth.deleteAPIKey provider; Auth.getAPIKeys], true)
    | Api.Rejected e =>
        (mkState (apiKeys st) (newKey_provider st) (newKey_api_key st) (loading st)
           (orElse (Auth.detailOf e) "Failed to delete API key"),
         [Auth.deleteAPIKey provider], false)
    end.

End Settings.

(* ===================================================================== *)
(** * Video compression in binary64 (utils/videoCompression.js) *)
(* ===================================================================== *)

Module VideoCompression64.

#[local] Set Warnings "-inexact-float".

(** [compressVideo] once more, with the numbers of the code.  Durations,
    [currentTime] and the positions sought are binary64 floats and every
    operation on them is the float operation the code performs:
    [duration * 1000] and [currentTime / 1000] round, [currentTime += 42]
    is a float addition, a duration may be [Infinity] or [NaN].  Creating
    the recorder may throw, and the events of the browser are taken in any
    order, [canplay] as often as it is raised. *)

(** A call [ctx.drawImage(video, dx, dy, dw, dh)], with the position the
    video was showing. *)
Record Draw := mkDraw {
  shown : float;
  dx : Z;
  dy : Z;
  dw : Z;
  dh : Z
}.

(** Everything one call of [compressVideo] holds, as in
    [VideoCompression.State]. *)
Record State := mkState {
  maxDuration : option float;
  canvas : Z * Z;
  stream : option Z;
  recorder : option VideoCompression.Recorder;
  chunks : list Blob;
  duration : float;
  currentTime : float;
  position : float;
  canplayHandler : bool;
  seeking : bool;
  seeks : list float;
  draws : list Draw;
  timers : list VideoCompression.Timer;
  stopping : bool;
  promise : VideoCompression.Promise;
  urlRevoked : bool
}.

Definition set_recorder (v : option VideoCompression.Recorder) (s : State) : State :=
  {| maxDuration := maxDuration s; canvas := canvas s; stream := stream s;
     recorder := v; chunks := chunks s; duration := duration s;
     currentTime := currentTime s; position := position s;
     canplayHandler := canplayHandler s; seeking := seeking s; seeks := seeks s;
     draws := draws s; timers := timers s; stopping := stopping s;
     promise := promise s; urlRevoked := urlRevoked s |}.

Definition set_chunks (v : list Blob) (s : State) : State :=
  {| maxDuration := maxDuration s; canvas := canvas s; stream := stream s;
     recorder := recorder s; chunks := v; duration := duration s;
     currentTime := currentTime s; position := position s;
     canplayHandler := canplayHandler s; seeking := seeking s; seeks := seeks s;
     draws := draws s; timers := timers s; stopping := stopping s;
     promise := promise s; urlRevoked := urlRevoked s |}.

Definition set_currentTime (v : float) (s : State) : State :=
  {| maxDuration := maxDuration s; canvas := canvas s; stream := stream s;
     recorder := recorder s; chunks := chunks s; duration := duration s;
     currentTime := v; position := position s; canplayHandler := canplayHandler s;
     seeking := seeking s; seeks := seeks s; draws := draws s; timers := timers s;
     stopping := stopping s; promise := promise s; urlRevoked := urlRevoked s |}.

Definition set_position (v : float) (s : State) : State :=
  {| maxDuration := maxDuration s; canvas := canvas s; stream := stream s;
     recorder := recorder s; chunks := chunks s; duration := duration s;
     currentTime := currentTime s; position := v; canplayHandler := canplayHandler s;
     seeking := seeking s; seeks := seeks s; draws := draws s; timers := timers s;
     stopping := stopping s; promise := promise s; urlRevoked := urlRevoked s |}.

Definition set_seeking (v : bool) (s : State) : State :=
  {| maxDuration := maxDuration s; canvas := canvas s; stream := stream s;
     recorder := recorder s; chunks := chunks s; duration := duration s;
     currentTime := currentTime s; position := position s;
     canplayHandler := canplayHandler s; seeking := v; seeks := seeks s;
     draws := draws s; timers := timers s; stopping := stopping s;
     promise := promise s; urlRevoked := urlRevoked s |}.

Definition set_seeks (v : list float) (s : State) : State :=
  {| maxDuration := maxDuration s; canvas := canvas s; stream := stream s;
     recorder := recorder s; chunks := chunks s; duration := duration s;
     currentTime := currentTime s; position := position s;
     canplayHandler := canplayHandler s; seeking := seeking s; seeks := v;
     draws := draws s; timers := timers s; stopping := stopping s;
     promise := promise s; urlRevoked := urlRevoked s |}.

Definition set_draws (v : list Draw) (s : State) : State :=
  {| maxDuration := maxDuration s; canvas := canvas s; stream := stream s;
     recorder := recorder s; chunks := chunks s; duration := duration s;
     currentTime := currentTime s; position := position s;
     canplayHandler := canplayHandler s; seeking := seeking s; seeks := seeks s;
     draws := v; timers := timers s; stopping := stopping s; promise := promise s;
     urlRevoked := urlRevoked s |}.

Definition set_timers (v : list VideoCompression.Timer) (s : State) : State :=
  {| maxDuration := maxDuration s; canvas := canvas s; stream := stream s;
     recorder := recorder s; chunks := chunks s; duration := duration s;
     currentTime := currentTime s; position := position s;
     canplayHandler := canplayHandler s; seeking := seeking s; seeks := seeks s;
     draws := draws s; timers := v; stopping := stopping s; promise := promise s;
     urlRevoked := urlRevoked s |}.

Definition set_stopping (v : bool) (s : State) : State :=
  {| maxDuration := maxDuration s; canvas := canvas s; stream := stream s;
     recorder := recorder s; chunks := chunks s; duration := duration s;
     currentTime := currentTime s; position := position s;
     canplayHandler := canplayHandler s; seeking := seeking s; seeks := seeks s;
     draws := draws s; timers := timers s; stopping := v; promise := promise s;
     urlRevoked := urlRevoked s |}.

Definition set_promise (v : VideoCompression.Promise) (s : State) : State :=
  {| maxDuration := maxDuration s; canvas := canvas s; stream := stream s;
     recorder := recorder s; chunks := chunks s; duration := duration s;
     currentTime := currentTime s; position := position s;
     canplayHandler := canplayHandler s; seeking := seeking s; seeks := seeks s;
     draws := draws s; timers := timers s; stopping := stopping s; promise := v;
     urlRevoked := urlRevoked s |}.

Definition set_urlRevoked (v : bool) (s : State) : State :=
  {| maxDuration := maxDuration s; canvas := canvas s; stream := stream s;
     recorder := recorder s; chunks := chunks s; duration := duration s;
     currentTime := currentTime s; position := position s;
     canplayHandler := canplayHandler s; seeking := seeking s; seeks := seeks s;
     draws := draws s; timers := timers s; stopping := stopping s;
     promise := promise s; urlRevoked := v |}.

Definition targetWidth : Z := 1280.
Definition targetHeight : Z := 720.
Definition frameInterval : float := 42%float.

(** [a >= b] and [a < b] on numbers; both are false when one is [NaN]. *)
Definition geb (a b : float) : bool := (b <=? a)%float.
Definition ltb (a b : float) : bool := (a <? b)%float.

(** [Math.min]: [NaN] if either is, and [-0] below [+0]. *)
Definition min (a b : float) : float :=
  if is_nan a || is_nan b then nan
  else if (a <? b)%float then a
  else if (b <? a)%float then b
  else if get_sign a then a else b.

(** A number is truthy unless it is [+0], [-0] or [NaN]. *)
Definition truthy (x : float) : bool := negb (is_zero x || is_nan x).

(** [maxDuration ? Math.min(video.duration, maxDuration) : video.duration]. *)
Definition effectiveDuration (videoDuration : float) (maxDuration : option float)
  : float :=
  match maxDuration with
  | Some m => if truthy m then min videoDuration m else videoDuration
  | None => videoDuration
  end.

(** [duration * 1000], the bound [currentTime] is compared with. *)
Definition limit (s : State) : float := (duration s * 1000)%float.

(** The promise executor up to the point where it waits for the video's
    metadata.  A new canvas is 300 by 150. *)
Definition compressVideo (maxDuration : option float) : State :=
  {| maxDuration := maxDuration; canvas := (300, 150)%Z; stream := None;
     recorder := None; chunks := []; duration := 0%float; currentTime := 0%float;
     position := 0%float; canplayHandler := false; seeking := false; seeks := [];
     draws := []; timers := []; stopping := false;
     promise := VideoCompression.Pending; urlRevoked := false |}.

(** Only the first [resolve] or [reject] counts. *)
Definition settle (p : VideoCompression.Promise) (s : State) : State :=
  match promise s with
  | VideoCompression.Pending => set_promise p s
  | _ => s
  end.

(** [recorder.stop()]: the recorder goes inactive and its [stop] event is
    due.  On an inactive recorder the call throws and nothing changes. *)
Definition recorderStop (s : State) : State :=
  match recorder s with
  | Some r =>
      match VideoCompression.state r with
      | VideoCompression.Recording =>
          set_stopping true
            (set_recorder
               (Some (VideoCompression.mkRecorder (VideoCompression.mimeType r)
                        (VideoCompression.videoBitsPerSecond r)
                        VideoCompression.Inactive)) s)
      | VideoCompression.Inactive => s
      end
  | None => s
  end.

(** [video.onloadedmetadata], for a video lasting [videoDuration].
    [supported] tells whether [new MediaRecorder] accepts the VP9 options;
    when it throws, the handler ends there, after the canvas, the duration
    and the capture stream, and nothing else is ever installed. *)
Definition onLoadedMetadata (videoDuration : float) (supported : bool) (s : State)
  : State :=
  if supported then
    {| maxDuration := maxDuration s;
       canvas := (targetWidth, targetHeight);
       stream := Some 24%Z;
       recorder :=
         Some (VideoCompression.mkRecorder "video/webm;codecs=vp9" 250000
                 VideoCompression.Recording);
       chunks := [];
       duration := effectiveDuration videoDuration (maxDuration s);
       currentTime := 0%float;
       position := position s; canplayHandler := true; seeking := seeking s;
       seeks := seeks s; draws := draws s; timers := timers s;
       stopping := stopping s; promise := promise s; urlRevoked := urlRevoked s |}
  else
    {| maxDuration := maxDuration s;
       canvas := (targetWidth, targetHeight);
       stream := Some 24%Z;
       recorder := recorder s; chunks := chunks s;
       duration := effectiveDuration videoDuration (maxDuration s);
       currentTime := currentTime s;
       position := position s; canplayHandler := canplayHandler s;
       seeking := seeking s; seeks := seeks s; draws := draws s; timers := timers s;
       stopping := stopping s; promise := promise s; urlRevoked := urlRevoked s |}.

(** [drawFrame]. *)
Definition drawFrame (s : State) : State :=
  if geb (currentTime s) (limit s) then recorderStop s
  else
    let target := (currentTime s / 1000)%float in
    set_seeking true (set_seeks (seeks s ++ [target]) (set_position target s)).

(** [video.onseeked], as [drawFrame] installs it. *)
Definition onSeeked (s : State) : State :=
  let s1 :=
    set_draws (draws s ++ [mkDraw (position s) 0 0 targetWidth targetHeight])
      (set_seeking false s) in
  let s2 := set_currentTime (currentTime s1 + frameInterval)%float s1 in
  if ltb (currentTime s2) (limit s2)
  then set_timers (timers s2 ++ [VideoCompression.DrawFrameTimer 42]) s2
  else set_timers (timers s2 ++ [VideoCompression.StopTimer 42]) s2.

(** [recorder.ondataavailable]. *)
Definition onDataAvailable (b : Blob) (s : State) : State :=
  match recorder s with
  | Some _ => if (0 <? blob_size b)%nat then set_chunks (chunks s ++ [b]) s else s
  | None => s
  end.

(** [recorder.onstop]. *)
Definition onStop (s : State) : State :=
  settle (VideoCompression.Resolved (newBlob (chunks s) "video/webm"))
    (set_urlRevoked true (set_stopping false s)).

(** What the browser can raise.  [Seeked] is the end of the seek started
    by the latest assignment to [video.currentTime], which replaces any
    seek still under way; [Timeout] is the oldest pending timer firing. *)
Inductive Event :=
| LoadedMetadata (videoDuration : float) (supported : bool)
| CanPlay
| Seeked
| Timeout
| DataAvailable (b : Blob)
| RecorderStop
| RecorderError (err : string)
| VideoError (message : string).

Definition handle (e : Event) (s : State) : State :=
  match e with
  | LoadedMetadata d supported => onLoadedMetadata d supported s
  | CanPlay => if canplayHandler s then drawFrame s else s
  | Seeked => if seeking s then onSeeked s else s
  | Timeout =>
      match timers s with
      | VideoCompression.DrawFrameTimer _ :: rest => drawFrame (set_timers rest s)
      | VideoCompression.StopTimer _ :: rest => recorderStop (set_timers rest s)
      | [] => s
      end
  | DataAvailable b => onDataAvailable b s
  | RecorderStop => if stopping s then onStop s else s
  | RecorderError err =>
      match recorder s with
      | Some _ =>
          settle (VideoCompression.Rejected ("Video compression failed: " +:+ err))
            (set_urlRevoked true s)
      | None => s
      end
  | VideoError message =>
      settle (VideoCompression.Rejected ("Failed to load video: " +:+ message))
        (set_urlRevoked true s)
  end.

(** The events in order, whatever they are. *)
Definition runEvents (es : list Event) (s : State) : State :=
  fold_left (fun s e => handle e s) es s.

(** The non-empty blobs the recorder hands over among the events, in
    order. *)
Definition delivered (es : list Event) : list Blob :=
  omap (fun e => match e with
                 | DataAvailable b => if (0 <? blob_size b)%nat then Some b else None
                 | _ => None
                 end) es.

Definition isLoadedMetadata (e : Event) : bool :=
  match e with
  | LoadedMetadata _ _ => true
  | _ => false
  end.

(** The call once the metadata of a video lasting [videoDuration] has
    loaded and the recorder has been created. *)
Definition loaded (videoDuration : float) (maxDuration : option float) : State :=
  handle (LoadedMetadata videoDuration true) (compressVideo maxDuration).

(** ** The frames *)

(** [currentTime] after [k] frames: [k] additions of 42 to 0. *)
Fixpoint clock (k : nat) : float :=
  match k with
  | O => 0%float
  | S k' => (clock k' + frameInterval)%float
  end.

(** The position sought for frame [k]. *)
Definition target (k : nat) : float := (clock k / 1000)%float.

(** The positions of the first [n] frames, each sought once. *)
Definition positions (n : nat) : list float := map target (seq 0 n).

(** The calls of [drawImage] for the first [n] frames. *)
Definition redraws (n : nat) : list Draw :=
  map (fun k => mkDraw (target k) 0 0 targetWidth targetHeight) (seq 0 n).

(** The positions of the frames from [k] on, frame [k + j] sought once
    and then again as many times as the [j]-th of [extra] says. *)
Fixpoint repeats (extra : list nat) (k : nat) : list float :=
  match extra with
  | [] => []
  | c :: rest => repeat (target k) (S c) ++ repeats rest (S k)
  end.

(** The bound in milliseconds for a video lasting [videoDuration]. *)
Definition bound (videoDuration : float) (maxDuration : option float) : float :=
  (effectiveDuration videoDuration maxDuration * 1000)%float.

(** Frame [n] is the first whose time has reached the bound [L]:
    [drawFrame] goes on to seek each of the frames before and stops at
    [n]. *)
Definition frames (L : float) (n : nat) : bool :=
  forallb (fun k => negb (geb (clock k) L)) (seq 0 n) && geb (clock n) L.

(** ** A browser's loop *)

Definition deliver (batch : list Blob) (s : State) : State :=
  fold_left (fun s b => handle (DataAvailable b) s) batch s.

(** The event a browser raises next when nothing fails: the end of the
    pending seek, else the oldest timer, else the recorder's [stop]. *)
Definition next (s : State) : option Event :=
  if seeking s then Some Seeked
  else
    match timers s with
    | _ :: _ => Some Timeout
    | [] => if stopping s then Some RecorderStop else None
    end.

(** The loop.  Before each event the recorder may hand over a batch of
    data, [feed] listing the batches; what is left of [feed] when the
    recorder stops arrives before its [stop] event. *)
Fixpoint play (fuel : nat) (feed : list (list Blob)) (s : State) : State :=
  match fuel with
  | O => s
  | S fuel' =>
      match next s with
      | Some RecorderStop => handle RecorderStop (deliver (concat feed) s)
      | Some e => play fuel' (tl feed) (handle e (deliver (hd [] feed) s))
      | None => s
      end
  end.

(** The events of a call in which nothing fails and the recorder's [stop]
    event has not come yet. *)
Definition quiet (e : Event) : bool :=
  match e with
  | CanPlay | Seeked | Timeout | DataAvailable _ => true
  | _ => false
  end.

(** A whole call on a video lasting [videoDuration]: its metadata loads,
    it becomes playable, the browser raises the events [es], in whatever
    order it does, and then lets what is pending run to its end. *)
Definition compress (fuel : nat) (videoDuration : float) (maxDuration : option float)
    (es : list Event) (feed : list (list Blob)) : State :=
  play fuel feed (runEvents (CanPlay :: es) (loaded videoDuration maxDuration)).

(** The non-empty blobs of every batch, in order of arrival. *)
Definition recorded (feed : list (list Blob)) : list Blob :=
  List.filter (fun b => (0 <? blob_size b)%nat) (concat feed).

(** ** What holds between two events *)

Definition isStopTimer (t : VideoCompression.Timer) : bool :=
  match t with
  | VideoCompression.StopTimer _ => true
  | VideoCompression.DrawFrameTimer _ => false
  end.

Definition inactive (s : State) : bool :=
  match recorder s with
  | Some r =>
      match VideoCompression.state r with
      | VideoCompression.Inactive => true
      | VideoCompression.Recording => false
      end
  | None => false
  end.

(** After [i] frames, with [extra] telling how often each frame drawn was
    sought again and [pending] how often the frame under way has been:
    the canvas, the stream and the recorder are the ones of
    [onloadedmetadata], the frames drawn are the first [i], a seek under
    way is for frame [i], and [drawFrame] let it through. *)
Definition steady (L : float) (i : nat) (extra : list nat) (pending : nat)
    (s : State) : Prop :=
  canvas s = (targetWidth, targetHeight)
  /\ stream s = Some 24%Z
  /\ (exists st,
        recorder s
        = Some (VideoCompression.mkRecorder "video/webm;codecs=vp9" 250000 st))
  /\ limit s = L
  /\ canplayHandler s = true
  /\ currentTime s = clock i
  /\ draws s = redraws i
  /\ length extra = i
  /\ seeks s
     = repeats extra 0 ++ (if seeking s then repeat (target i) (S pending) else [])
  /\ (seeking s = true -> position s = target i /\ geb (clock i) L = false)
  /\ (stopping s = true -> inactive s = true)
  /\ (length (timers s) <= i)%nat.

(** With the frames stopping at [n]: no frame from [n] on is sought, and
    the recorder is stopped, or about to be, only after frame [n - 1]. *)
Definition bounded (n i : nat) (s : State) : Prop :=
  (i <= n)%nat
  /\ (seeking s = true -> (i < n)%nat)
  /\ (inactive s = true \/ existsb isStopTimer (timers s) = true -> i = n)
  /\ (forall b, promise s = VideoCompression.Resolved b -> inactive s = true).

(** A call on its way: nothing has settled, the [stop] event of a stopped
    recorder is still due, and something is pending. *)
Definition underway (s : State) : Prop :=
  promise s = VideoCompression.Pending
  /\ (inactive s = true -> stopping s = true)
  /\ (seeking s = true \/ timers s <> [] \/ stopping s = true).

(** The work left to a loop that stops at [n]. *)
Definition work (n i : nat) (s : State) : nat :=
  3 * (n - i) + 2 * length (timers s) + (if seeking s then 1 else 0).

End VideoCompression64.

(* ===================================================================== *)
(** * Theorems *)
(* ===================================================================== *)

(** ** Strings *)

Section StringFacts.

Import JsString.

Lemma startsWith_spec (s p : string) :
  startsWith s p = true <-> exists rest, s = p +:+ rest.
Proof.
  revert s. induction p as [|a p IH]; intros s.
  - destruct s; simpl; split; eauto.
  - destruct s as [|b s]; simpl.
    + split; [discriminate | intros [rest H]; discriminate].
    + rewrite andb_true_iff, Ascii.eqb_eq, IH. split.
      * intros [-> [rest ->]]. eauto.
      * intros [rest H]. injection H as -> ->. eauto.
Qed.

Lemma includes_unfold (s p : string) :
  includes s p =
    startsWith s p
    || match s with
       | EmptyString => false
       | String _ s' => includes s' p
       end.
Proof. destruct s; reflexivity. Qed.

(** [includes] finds [p] exactly when [s] splits around an occurrence. *)
Lemma includes_spec (s p : string) :
  includes s p = true <-> exists before after, s = before +:+ p +:+ after.
Proof.
  induction s as [|c s IH]; rewrite includes_unfold, orb_true_iff.
  - split.
    + intros [H | H]; [|discriminate].
      apply startsWith_spec in H as [rest H]. exists "", rest. exact H.
    + intros [before [after H]]. left. apply startsWith_spec.
      destruct before; [eauto | discriminate].
  - rewrite IH, startsWith_spec. split.
    + intros [[rest H] | [before [after H]]].
      * exists "", rest. exact H.
      * exists (String c before), after. simpl. now rewrite H.
    + intros [before [after H]]. destruct before as [|c' before].
      * left. eauto.
      * right. injection H as _ H. eauto.
Qed.

Lemma truthy_true (s : string) : truthy s = true <-> s <> "".
Proof. destruct s; simpl; split; congruence. Qed.

Lemma truthy_false (s : string) : truthy s = false <-> s = "".
Proof. destruct s; simpl; split; congruence. Qed.

Lemma trimStart_clean (s : string) : startsClean (trimStart s).
Proof.
  induction s as [|c s IH]; simpl; [exact I|].
  destruct (isWhiteSpace c) eqn:E; [exact IH | exact E].
Qed.

Lemma trimStart_of_clean (s : string) : startsClean s -> trimStart s = s.
Proof. destruct s as [|c s]; simpl; [reflexivity | now intros ->]. Qed.

Lemma trimEnd_clean (s : string) : startsClean s -> startsClean (trimEnd s).
Proof.
  destruct s as [|c s]; simpl; [trivial|]. intros E.
  destruct (trimEnd s); rewrite ?E; exact E.
Qed.

Lemma trimEnd_idempotent (s : string) : trimEnd (trimEnd s) = trimEnd s.
Proof.
  induction s as [|c s IH]; simpl; [reflexivity|].
  destruct (trimEnd s) as [|d t] eqn:E.
  - destruct (isWhiteSpace c) eqn:W; simpl; [reflexivity | now rewrite W].
  - change (trimEnd (String c (String d t))) with
      (match trimEnd (String d t) with
       | EmptyString => if isWhiteSpace c then EmptyString else String c EmptyString
       | u => String c u
       end).
    now rewrite IH.
Qed.

(** Trimming twice is trimming once. *)
Lemma trim_idempotent (s : string) : trim (trim s) = trim s.
Proof.
  unfold trim.
  rewrite (trimStart_of_clean (trimEnd (trimStart s))).
  - apply trimEnd_idempotent.
  - apply trimEnd_clean, trimStart_clean.
Qed.

End StringFacts.

(** ** Base64 *)

Section Base64Facts.

Import Base64.

(** Lists of bytes, three at a time. *)
Lemma triples_ind (P : list Byte.byte -> Prop) :
  P [] -> (forall a, P [a]) -> (forall a b, P [a; b]) ->
  (forall a b c r, P r -> P (a :: b :: c :: r)) ->
  forall l, P l.
Proof.
  intros H0 H1 H2 H3. fix IH 1.
  intros [|a [|b [|c r]]]; [exact H0 | apply H1 | apply H2 | apply H3, IH].
Qed.

Lemma nOfByte_bound (a : Byte.byte) : (nOfByte a < 256)%N.
Proof. unfold nOfByte. pose proof (Byte.to_N_bounded a). lia. Qed.

Lemma byteOfN_nOfByte (a : Byte.byte) : byteOfN (nOfByte a) = a.
Proof. destruct a; reflexivity. Qed.

Ltac bits := zify; Z.to_euclidean_division_equations; lia.

Lemma byteOfN_eq (x : N) (a : Byte.byte) : x = nOfByte a -> byteOfN x = a.
Proof. intros ->. apply byteOfN_nOfByte. Qed.

Lemma decodeSextets_sextets (l : list Byte.byte) : decodeSextets (sextets l) = l.
Proof.
  induction l as [|a|a b|a b c r IH] using triples_ind.
  - reflexivity.
  - pose proof (nOfByte_bound a).
    cbn [sextets decodeSextets]. f_equal. apply byteOfN_eq. bits.
  - pose proof (nOfByte_bound a). pose proof (nOfByte_bound b).
    cbn [sextets decodeSextets].
    f_equal; [apply byteOfN_eq; bits|]. f_equal. apply byteOfN_eq; bits.
  - pose proof (nOfByte_bound a). pose proof (nOfByte_bound b).
    pose proof (nOfByte_bound c).
    cbn [sextets decodeSextets]. rewrite IH.
    f_equal; [apply byteOfN_eq; bits|].
    f_equal; [apply byteOfN_eq; bits|].
    f_equal. apply byteOfN_eq; bits.
Qed.

Lemma sextets_bound (l : list Byte.byte) : Forall (fun x => (x < 64)%N) (sextets l).
Proof.
  induction l as [|a|a b|a b c r IH] using triples_ind; cbn [sextets].
  - constructor.
  - pose proof (nOfByte_bound a). repeat constructor; bits.
  - pose proof (nOfByte_bound a). pose proof (nOfByte_bound b).
    repeat constructor; bits.
  - pose proof (nOfByte_bound a). pose proof (nOfByte_bound b).
    pose proof (nOfByte_bound c).
    repeat (constructor; [bits|]). exact IH.
Qed.

(** A property of the sixty-four sextets, checked on each. *)
Lemma sextet_cases (P : N -> bool) :
  forallb P (map N.of_nat (seq 0 64)) = true ->
  forall x, (x < 64)%N -> P x = true.
Proof.
  intros H x Hx. rewrite forallb_forall in H. apply H.
  apply in_map_iff. exists (N.to_nat x). split; [lia|]. apply in_seq. lia.
Qed.

Lemma sextet_alphabet (x : N) : (x < 64)%N -> sextet (alphabet x) = Some x.
Proof.
  intros Hx.
  pose proof (sextet_cases
                (fun x => match sextet (alphabet x) with
                          | Some y => (y =? x)%N
                          | None => false
                          end) eq_refl x Hx) as H.
  cbv beta in H. destruct (sextet (alphabet x)) as [y|]; [|discriminate].
  apply N.eqb_eq in H. now subst.
Qed.

Lemma alphabet_plain (x : N) :
  (x < 64)%N ->
  isAsciiWhitespace (alphabet x) = false /\ Ascii.eqb (alphabet x) "=" = false.
Proof.
  intros Hx.
  pose proof (sextet_cases
                (fun x => negb (isAsciiWhitespace (alphabet x))
                          && negb (Ascii.eqb (alphabet x) "="))
                eq_refl x Hx) as H.
  cbv beta in H. apply andb_true_iff in H as [H1 H2].
  now rewrite negb_true_iff in H1, H2.
Qed.

Lemma mapM_sextet_alphabet (v : list N) :
  Forall (fun x => (x < 64)%N) v -> mapM sextet (map alphabet v) = Some v.
Proof.
  induction 1 as [|x v Hx _ IH]; [reflexivity|].
  cbn. rewrite sextet_alphabet by exact Hx. cbn. now rewrite IH.
Qed.

Lemma padding_cases (l : list Byte.byte) :
  padding l = [] \/ padding l = ["="%char] \/ padding l = ["="%char; "="%char].
Proof.
  unfold padding. destruct (length l mod 3)%nat as [|[|[|k]]]; auto.
Qed.

Lemma filter_encoded (v : list N) (pad : list ascii) :
  Forall (fun x => (x < 64)%N) v ->
  pad = [] \/ pad = ["="%char] \/ pad = ["="%char; "="%char] ->
  List.filter (fun c => negb (isAsciiWhitespace c)) (map alphabet v ++ pad)
  = map alphabet v ++ pad.
Proof.
  intros Hv Hp. rewrite List.filter_app. f_equal.
  - induction Hv as [|x v Hx _ IH]; [reflexivity|]. cbn [map List.filter].
    destruct (alphabet_plain x Hx) as [-> _]. cbn. now rewrite IH.
  - destruct Hp as [-> | [-> | ->]]; reflexivity.
Qed.

Lemma dropPad_alphabet (v : list N) :
  Forall (fun x => (x < 64)%N) v ->
  dropPad (rev (map alphabet v)) = rev (map alphabet v).
Proof.
  intros Hv. rewrite <- map_rev.
  assert (Hr : Forall (fun x => (x < 64)%N) (rev v)) by now apply Forall_rev.
  destruct Hr as [|x w Hx _]; [reflexivity|]. cbn [map dropPad].
  now destruct (alphabet_plain x Hx) as [_ ->].
Qed.

Lemma stripPadding_encoded (v : list N) (pad : list ascii) :
  Forall (fun x => (x < 64)%N) v ->
  pad = [] \/ pad = ["="%char] \/ pad = ["="%char; "="%char] ->
  (length (map alphabet v ++ pad) mod 4 = 0)%nat ->
  stripPadding (map alphabet v ++ pad) = map alphabet v.
Proof.
  intros Hv Hp Hlen. unfold stripPadding. rewrite Hlen. cbn [Nat.eqb].
  rewrite rev_app_distr.
  destruct Hp as [-> | [-> | ->]]; cbn [rev app dropPad Ascii.eqb Bool.eqb].
  - rewrite !dropPad_alphabet by exact Hv. apply rev_involutive.
  - rewrite dropPad_alphabet by exact Hv. apply rev_involutive.
  - apply rev_involutive.
Qed.

Lemma encoded_length (l : list Byte.byte) :
  ((length (sextets l) + length (padding l)) mod 4 = 0
   /\ length (sextets l) mod 4 <> 1)%nat.
Proof.
  induction l as [|a|a b|a b c r [IH1 IH2]] using triples_ind;
    try (split; [reflexivity | discriminate]).
  assert (Hp : padding (a :: b :: c :: r) = padding r).
  { unfold padding. cbn [length].
    replace (S (S (S (length r))) mod 3)%nat with (length r mod 3)%nat; [reflexivity|].
    bits. }
  rewrite Hp. cbn [sextets length]. split.
  - bits.
  - bits.
Qed.

(** Decoding what [btoa] made gives the bytes back. *)
Lemma atob_btoa (l : list Byte.byte) : atob (btoa l) = Some l.
Proof.
  unfold atob, btoa, chars. rewrite list_ascii_of_string_of_list_ascii.
  pose proof (sextets_bound l) as Hv.
  pose proof (padding_cases l) as Hp.
  destruct (encoded_length l) as [Hlen Hone].
  rewrite filter_encoded by assumption.
  rewrite stripPadding_encoded; try assumption.
  - rewrite length_map.
    destruct (Nat.eqb_spec (length (sextets l) mod 4) 1); [contradiction|].
    rewrite mapM_sextet_alphabet by exact Hv.
    now rewrite decodeSextets_sextets.
  - now rewrite length_app, length_map.
Qed.

End Base64Facts.

(** ** The API client *)

(** C6. An answer with status 401 coming through the shared client
    removes [aria_token] and [aria_user] from [localStorage] (every other
    key is kept), sends the browser to [/login] and rejects with the error
    that carries the answer; an answer with any other status leaves the
    browser, hence the stored token and user, as they were. *)
Theorem unauthorized_clears_session (D : Type) (r : Api.Response D) (b : Api.Browser) :
  (Api.status r = 401%Z ->
     let '(b', outcome) := Api.receive (Api.Answer r) b in
     Api.localStorage b' !! "aria_token" = None
     /\ Api.localStorage b' !! "aria_user" = None
     /\ (forall k, k <> "aria_token" -> k <> "aria_user" ->
           Api.localStorage b' !! k = Api.localStorage b !! k)
     /\ Api.location_href b' = "/login"
     /\ outcome = Api.Rejected (Api.mkAxiosError (Some r)))
  /\ (Api.status r <> 401%Z -> fst (Api.receive (Api.Answer r) b) = b).
Proof.
  unfold Api.receive, Api.settle, Api.validateStatus. split.
  - intros H. rewrite H. simpl.
    unfold Api.isUnauthorized. simpl. rewrite H. simpl.
    repeat split.
    + rewrite lookup_delete_ne by done. apply lookup_delete_eq.
    + apply lookup_delete_eq.
    + intros k H1 H2. now rewrite !lookup_delete_ne by done.
  - intros H.
    destruct ((200 <=? Api.status r)%Z && (Api.status r <? 300)%Z); simpl;
      [reflexivity|].
    unfold Api.isUnauthorized. simpl.
    destruct (Z.eqb_spec (Api.status r) 401); [contradiction | reflexivity].
Qed.

Lemma unauthorized_clears_session_witness :
  let b := Api.mkBrowser (<["aria_token" := "t0k3n"]> (<["theme" := "dark"]> ∅)) "/dashboard" in
  let r := Api.mkResponse 401%Z "Not authenticated" in
  let '(b', outcome) := Api.receive (Api.Answer r) b in
  Api.localStorage b' !! "aria_token" = None
  /\ Api.localStorage b' !! "aria_user" = None
  /\ (forall k, k <> "aria_token" -> k <> "aria_user" ->
        Api.localStorage b' !! k = Api.localStorage b !! k)
  /\ Api.location_href b' = "/login"
  /\ outcome = Api.Rejected (Api.mkAxiosError (Some r)).
Proof.
  intros b r.
  apply (proj1 (unauthorized_clears_session string r b)). reflexivity.
Defined.

(** A network failure, with no answer at all, changes nothing either. *)
Lemma network_error_keeps_session (D : Type) (b : Api.Browser) :
  Api.receive (@Api.NetworkError D) b = (b, Api.Rejected (Api.mkAxiosError None)).
Proof. reflexivity. Qed.

(** ** The history list *)

Section HistoryFacts.

Import History.

Lemma map_textOf_imap (f : nat -> string -> Node) (l : list string) :
  (forall i w, textOf (f i w) = w) -> map textOf (imap f l) = l.
Proof.
  revert f. induction l as [|w l IH]; intros f Hf; simpl; [reflexivity|].
  rewrite Hf. f_equal. apply IH. intros i w'. apply Hf.
Qed.

Lemma whenText_not_gloss (x : option string) (label : string) (cls : string) :
  label <> "Gloss:" ->
  List.filter isGlossSection
    (whenText x (fun t =>
       Element "div" None "mb-3"
         [Element "strong" None "" [Text label]; Text " ";
          Element "span" None cls [Text t]])) = [].
Proof.
  intros H. unfold whenText. destruct x as [t|]; [|reflexivity].
  destruct (JsString.truthy t); [|reflexivity].
  simpl. unfold isGlossSection, textOf. simpl.
  destruct (String.eqb_spec label "Gloss:"); [contradiction | reflexivity].
Qed.

Lemma glossSections_renderEntry (e : Entry) :
  glossSections (renderEntry e) = glossSection e.
Proof.
  cbv beta iota delta [glossSections renderEntry children].
  rewrite !List.filter_app.
  rewrite (whenText_not_gloss (input_text e) "Input:") by discriminate.
  rewrite (whenText_not_gloss (output_text e) "Translation:") by discriminate.
  unfold glossSection. destruct (output_gloss e); reflexivity.
Qed.

End HistoryFacts.

(** C7. The card of an entry whose [output_gloss] is a non-empty list has
    one gloss section, with one badge per token: the badges are the tokens'
    badges in list order, keyed by index, and reading their texts back
    gives the list.  The card of an entry whose [output_gloss] is missing
    has no gloss section. *)
Theorem gloss_badges_follow_the_list (e : History.Entry) :
  (forall gloss, History.output_gloss e = Some gloss -> gloss <> [] ->
     exists section,
       History.glossSections (History.renderEntry e) = [section]
       /\ History.badges section = imap History.glossBadge gloss
       /\ length (History.badges section) = length gloss
       /\ map History.textOf (History.badges section) = gloss)
  /\ (History.output_gloss e = None ->
      History.glossSections (History.renderEntry e) = []).
Proof.
  rewrite glossSections_renderEntry. unfold History.glossSection. split.
  - intros gloss -> _. eexists. split; [reflexivity|]. simpl.
    split; [reflexivity|]. split.
    + apply length_imap.
    + apply map_textOf_imap. reflexivity.
  - intros ->. reflexivity.
Qed.

Lemma gloss_badges_follow_the_list_witness :
  let e := History.mkEntry 7 "speech_to_sign" "2024-01-01T10:00:00" (Some "hello how are you")
             None (Some ["HELLO"; "HOW"; "YOU"]) "openai" 1200 in
  exists section,
    History.glossSections (History.renderEntry e) = [section]
    /\ History.badges section = imap History.glossBadge ["HELLO"; "HOW"; "YOU"]
    /\ length (History.badges section) = 3
    /\ map History.textOf (History.badges section) = ["HELLO"; "HOW"; "YOU"].
Proof.
  intros e.
  apply (proj1 (gloss_badges_follow_the_list e) ["HELLO"; "HOW"; "YOU"]);
    [reflexivity | discriminate].
Defined.

(** ** Sign language to speech: [sendToAPI] *)

Section SendToAPI.

Import JsString SignToSpeech.

(** The guard on the translation is the substring test of the claim. *)
Lemma isEmergencyDetected_spec (r : Result) :
  isEmergencyDetected r = true <->
  exists t before after,
    r_translation r = Some t
    /\ toLowerCase t = before +:+ "this is an emergency" +:+ after.
Proof.
  unfold isEmergencyDetected. destruct (r_translation r) as [t|]; split.
  - rewrite andb_true_iff. intros [_ H].
    apply includes_spec in H as [before [after H]]. eauto.
  - intros [t' [before [after [[= <-] H]]]]. rewrite andb_true_iff. split.
    + destruct t; [|reflexivity]. destruct before; discriminate.
    + apply includes_spec. eauto.
  - discriminate.
  - intros [t [before [after [H _]]]]. discriminate.
Qed.

Lemma removeChild_absent (id : string) (body : list string) :
  ~ In id body -> removeChild id body = body.
Proof.
  induction body as [|x body IH]; simpl; [reflexivity|]. intros H.
  destruct (String.eqb_spec x id) as [->|Hne]; [tauto|].
  rewrite IH; tauto.
Qed.

Lemma onResult_isEmergency (r : Result) (s : State) :
  isEmergency (fst (onResult r s)) = isEmergencyDetected r || isEmergency s.
Proof.
  unfold onResult.
  destruct (isEmergencyDetected r), (truthyOpt (r_audio_base64 r));
    try destruct (Base64.atob _); try destruct (r_translation r) as [t|];
    try destruct (truthy t); reflexivity.
Qed.

Lemma onResult_timeouts (r : Result) (s : State) :
  timeouts (snd (onResult r s)) = if isEmergencyDetected r then blink else [].
Proof.
  unfold onResult.
  destruct (isEmergencyDetected r), (truthyOpt (r_audio_base64 r));
    try destruct (Base64.atob _); try destruct (r_translation r) as [t|];
    try destruct (truthy t); reflexivity.
Qed.

End SendToAPI.

(** C2. When a translation result arrives while no emergency is shown,
    the emergency indication is switched on (the state is set, the three
    timers of the blink are started, and the overlay is put on the page)
    exactly when the lowercased translation contains
    [this is an emergency]; for every other result the state stays off, no
    timer is started and the page gets no overlay. *)
Theorem emergency_exactly_on_phrase
    (r : SignToSpeech.Result) (s : SignToSpeech.State) (body : list string) :
  SignToSpeech.isEmergency s = false ->
  ~ In SignToSpeech.overlayId body ->
  let heard :=
    exists t before after,
      SignToSpeech.r_translation r = Some t
      /\ JsString.toLowerCase t = before +:+ "this is an emergency" +:+ after in
  let '(s', effects) := SignToSpeech.sendToAPI_settle (SignToSpeech.Resolved r) s in
  let body' :=
    SignToSpeech.commitEmergency (SignToSpeech.isEmergency s)
      (SignToSpeech.isEmergency s') body in
  (SignToSpeech.isEmergency s' = true <-> heard)
  /\ (heard ->
        SignToSpeech.timeouts effects = SignToSpeech.blink
        /\ body' = body ++ [SignToSpeech.overlayId])
  /\ (~ heard ->
        SignToSpeech.isEmergency s' = false
        /\ SignToSpeech.timeouts effects = []
        /\ body' = body).
Proof.
  intros Hoff Hbody heard. unfold SignToSpeech.sendToAPI_settle.
  pose proof (onResult_isEmergency r s) as Hem.
  pose proof (onResult_timeouts r s) as Htm.
  destruct (SignToSpeech.onResult r s) as [s1 effects]. simpl in Hem, Htm.
  rewrite Hoff, orb_false_r in Hem.
  assert (Hiff : SignToSpeech.isEmergencyDetected r = true <-> heard)
    by apply isEmergencyDetected_spec.
  change (SignToSpeech.isEmergency (SignToSpeech.set_loading false s1))
    with (SignToSpeech.isEmergency s1).
  rewrite Hem, Hoff, Htm. unfold SignToSpeech.commitEmergency.
  destruct (SignToSpeech.isEmergencyDetected r); simpl.
  - split; [exact Hiff|]. split; [auto|].
    intros Hn. exfalso. apply Hn, Hiff. reflexivity.
  - split; [exact Hiff|]. split; [|auto].
    intros H. apply Hiff in H. discriminate.
Qed.

Lemma emergency_exactly_on_phrase_witness :
  let r := SignToSpeech.mkResult (Some "Help! This is an EMERGENCY.") None in
  let heard :=
    exists t before after,
      SignToSpeech.r_translation r = Some t
      /\ JsString.toLowerCase t = before +:+ "this is an emergency" +:+ after in
  let '(s', effects) :=
    SignToSpeech.sendToAPI_settle (SignToSpeech.Resolved r) SignToSpeech.initial in
  let body' :=
    SignToSpeech.commitEmergency (SignToSpeech.isEmergency SignToSpeech.initial)
      (SignToSpeech.isEmergency s') ["root"] in
  (SignToSpeech.isEmergency s' = true <-> heard)
  /\ (heard ->
        SignToSpeech.timeouts effects = SignToSpeech.blink
        /\ body' = ["root"] ++ [SignToSpeech.overlayId])
  /\ (~ heard ->
        SignToSpeech.isEmergency s' = false
        /\ SignToSpeech.timeouts effects = []
        /\ body' = ["root"]).
Proof.
  apply (emergency_exactly_on_phrase
           (SignToSpeech.mkResult (Some "Help! This is an EMERGENCY.") None)
           SignToSpeech.initial ["root"]).
  - reflexivity.
  - simpl. intros [H | []]. discriminate.
Defined.

(** The blink itself: fired in order, its timers switch the indication
    off, on and off again. *)
Lemma blink_timeline (s : SignToSpeech.State) :
  let s1 := SignToSpeech.fire (SignToSpeech.SetIsEmergency false) s in
  let s2 := SignToSpeech.fire (SignToSpeech.SetIsEmergency true) s1 in
  let s3 := SignToSpeech.fire (SignToSpeech.SetIsEmergency false) s2 in
  SignToSpeech.blink =
    [SignToSpeech.SetTimeout (SignToSpeech.SetIsEmergency false) 200;
     SignToSpeech.SetTimeout (SignToSpeech.SetIsEmergency true) 400;
     SignToSpeech.SetTimeout (SignToSpeech.SetIsEmergency false) 600]
  /\ SignToSpeech.isEmergency s1 = false
  /\ SignToSpeech.isEmergency s2 = true
  /\ SignToSpeech.isEmergency s3 = false.
Proof. repeat split. Qed.

(** C5. A successful result is turned into sound.  When it carries audio
    ([audio_base64] present and not empty) and that data decodes, the bytes
    become an [audio/mpeg] blob whose object URL is kept and played, and
    nothing is spoken by the browser; this is so in particular for the
    base64 encoding of any audio that is not empty, which decodes to that
    audio.  When the result carries no audio but a translation, that text
    is spoken through speech synthesis and nothing is played. *)
Theorem result_becomes_sound (r : SignToSpeech.Result) (s : SignToSpeech.State) :
  let '(s', effects) := SignToSpeech.sendToAPI_settle (SignToSpeech.Resolved r) s in
  (forall a audio,
     SignToSpeech.r_audio_base64 r = Some a -> a <> "" ->
     Base64.atob a = Some audio ->
     let url := ObjectUrl (mkBlob audio "audio/mpeg") in
     SignToSpeech.audioUrl s' = url
     /\ SignToSpeech.sounds effects = [SignToSpeech.Play url])
  /\ (forall audio,
        audio <> [] ->
        SignToSpeech.r_audio_base64 r = Some (Base64.btoa audio) ->
        let url := ObjectUrl (mkBlob audio "audio/mpeg") in
        SignToSpeech.audioUrl s' = url
        /\ SignToSpeech.sounds effects = [SignToSpeech.Play url])
  /\ (forall t,
        JsString.truthyOpt (SignToSpeech.r_audio_base64 r) = false ->
        SignToSpeech.r_translation r = Some t -> t <> "" ->
        SignToSpeech.audioUrl s' = SignToSpeech.audioUrl s
        /\ SignToSpeech.sounds effects = [SignToSpeech.Speak t]).
Proof.
  assert (Hgen :
    let '(s', effects) := SignToSpeech.sendToAPI_settle (SignToSpeech.Resolved r) s in
    (forall a audio,
       SignToSpeech.r_audio_base64 r = Some a -> a <> "" ->
       Base64.atob a = Some audio ->
       let url := ObjectUrl (mkBlob audio "audio/mpeg") in
       SignToSpeech.audioUrl s' = url
       /\ SignToSpeech.sounds effects = [SignToSpeech.Play url])
    /\ (forall t,
          JsString.truthyOpt (SignToSpeech.r_audio_base64 r) = false ->
          SignToSpeech.r_translation r = Some t -> t <> "" ->
          SignToSpeech.audioUrl s' = SignToSpeech.audioUrl s
          /\ SignToSpeech.sounds effects = [SignToSpeech.Speak t])).
  2: { destruct (SignToSpeech.sendToAPI_settle (SignToSpeech.Resolved r) s)
         as [s' effects].
       destruct Hgen as [Haudio Hspeak]. split; [exact Haudio|]. split; [|exact Hspeak].
       intros audio Hne Ha. apply (Haudio (Base64.btoa audio) audio Ha).
       - destruct audio as [|a [|b [|c rest]]]; [contradiction|discriminate..].
       - apply atob_btoa. }
  unfold SignToSpeech.sendToAPI_settle, SignToSpeech.onResult.
  destruct (SignToSpeech.isEmergencyDetected r);
    (destruct (SignToSpeech.r_audio_base64 r) as [a|] eqn:Ha; simpl;
     [ destruct (JsString.truthy a) eqn:Ta
     | ]).
  all: try destruct (Base64.atob a) as [bytes|] eqn:Hd.
  all: try destruct (SignToSpeech.r_translation r) as [t0|] eqn:Ht.
  all: try destruct (JsString.truthy t0) eqn:Tt.
  all: simpl; split.
  all: try (intros a' audio [= <-] Hne Hd'; try rewrite Hd in Hd';
            try (apply truthy_false in Ta; contradiction);
            try discriminate; injection Hd' as <-; split; reflexivity).
  all: try (intros t Hf [= <-] Hne; try discriminate;
            try (apply truthy_false in Tt; contradiction);
            split; reflexivity).
  all: try (intros a' audio [=]).
  all: try (intros t Hf [=]).
Qed.

Lemma result_becomes_sound_witness :
  let r := SignToSpeech.mkResult (Some "Hi") (Some "SGk=") in
  let '(s', effects) :=
    SignToSpeech.sendToAPI_settle (SignToSpeech.Resolved r) SignToSpeech.initial in
  let url := ObjectUrl (mkBlob [Byte.x48; Byte.x69] "audio/mpeg") in
  SignToSpeech.audioUrl s' = url
  /\ SignToSpeech.sounds effects = [SignToSpeech.Play url].
Proof.
  apply (proj1 (result_becomes_sound
                  (SignToSpeech.mkResult (Some "Hi") (Some "SGk="))
                  SignToSpeech.initial) "SGk=" [Byte.x48; Byte.x69]).
  - reflexivity.
  - discriminate.
  - reflexivity.
Defined.

(** C8. Without an active key for the provider, or for a video with the
    provider [openai], [sendToAPI] only sets its error message: no request
    is issued, and the translation, the audio URL and the loading flag are
    what they were. *)
Theorem sendToAPI_refuses
    (apiKeys : list ApiKey) (provider : string) (media : SignToSpeech.Media)
    (mediaType : string) (reply : SignToSpeech.Reply) (s : SignToSpeech.State) :
  SignToSpeech.hasAPIKey apiKeys provider = false
  \/ (mediaType = "video" /\ provider = "openai") ->
  let '(s', effects) :=
    SignToSpeech.sendToAPI apiKeys provider media mediaType reply s in
  effects = []
  /\ SignToSpeech.error s' =
       (if SignToSpeech.hasAPIKey apiKeys provider
        then "Video input requires Gemini provider. Please select Gemini Pro or Gemini Flash."
        else "Please configure your " +:+ provider +:+ " API key in Settings.")
  /\ SignToSpeech.error s' <> ""
  /\ SignToSpeech.translation s' = SignToSpeech.translation s
  /\ SignToSpeech.audioUrl s' = SignToSpeech.audioUrl s
  /\ SignToSpeech.loading s' = SignToSpeech.loading s.
Proof.
  intros H. unfold SignToSpeech.sendToAPI.
  destruct (SignToSpeech.hasAPIKey apiKeys provider) eqn:Hkey; simpl.
  - destruct H as [H | [-> ->]]; [discriminate|]. simpl.
    repeat split. discriminate.
  - repeat split. discriminate.
Qed.

Lemma sendToAPI_refuses_witness :
  let '(s', effects) :=
    SignToSpeech.sendToAPI [mkApiKey "gemini-pro" true] "openai"
      (SignToSpeech.MediaUrl "data:image/jpeg;base64,AAAA") "image"
      (SignToSpeech.Resolved (SignToSpeech.mkResult (Some "hello") None))
      SignToSpeech.initial in
  effects = []
  /\ SignToSpeech.error s' =
       (if SignToSpeech.hasAPIKey [mkApiKey "gemini-pro" true] "openai"
        then "Video input requires Gemini provider. Please select Gemini Pro or Gemini Flash."
        else "Please configure your " +:+ "openai" +:+ " API key in Settings.")
  /\ SignToSpeech.error s' <> ""
  /\ SignToSpeech.translation s' = SignToSpeech.translation SignToSpeech.initial
  /\ SignToSpeech.audioUrl s' = SignToSpeech.audioUrl SignToSpeech.initial
  /\ SignToSpeech.loading s' = SignToSpeech.loading SignToSpeech.initial.
Proof.
  apply (sendToAPI_refuses [mkApiKey "gemini-pro" true] "openai"
           (SignToSpeech.MediaUrl "data:image/jpeg;base64,AAAA") "image"
           (SignToSpeech.Resolved (SignToSpeech.mkResult (Some "hello") None))
           SignToSpeech.initial).
  left. reflexivity.
Defined.

(** ** Sign language to speech: the recording timer *)

Section RecordingTimer.

Import SignToSpeech.

#[local] Set Warnings "-inexact-float".

Local Open Scope float_scope.

(** Fifty additions of 0.1 stay below 5 in binary64; the next one passes
    it. *)
Lemma accumulated_below (k : nat) :
  (k <= 49)%nat -> (MAX_RECORDING_DURATION <=? accumulated k + 0.1) = false.
Proof.
  intros H.
  do 50 (destruct k as [|k]; [vm_compute; reflexivity|]). lia.
Qed.

Lemma accumulated_reaches :
  (MAX_RECORDING_DURATION <=? accumulated 50 + 0.1) = true.
Proof. vm_compute. reflexivity. Qed.

Lemma accumulated_capped (k : nat) :
  (k <= 50)%nat -> (accumulated k <=? MAX_RECORDING_DURATION) = true.
Proof.
  intros H.
  do 51 (destruct k as [|k]; [vm_compute; reflexivity|]). lia.
Qed.

Lemma displayable_capped (t : float) :
  displayable t -> (t <=? MAX_RECORDING_DURATION) = true.
Proof.
  intros [[k [Hk ->]] | ->]; [now apply accumulated_capped|].
  vm_compute. reflexivity.
Qed.

Lemma stopRecording_recordingTime (s : State) :
  recordingTime (stopRecording s) = recordingTime s.
Proof.
  unfold stopRecording. destruct (mediaRecorder s) as [r|]; [|reflexivity].
  destruct (rec_state r); reflexivity.
Qed.

Lemma onTick_displayable (s : State) :
  displayable (recordingTime s) -> displayable (recordingTime (onTick s)).
Proof.
  intros H. unfold onTick. destruct (recordingTimer s); [|exact H].
  destruct (MAX_RECORDING_DURATION <=? recordingTime s + 0.1) eqn:E.
  - right. reflexivity.
  - left. destruct H as [[k [Hk Ht]] | Ht]; rewrite Ht in E.
    + destruct (Nat.eq_dec k 50%nat) as [->|Hne].
      * rewrite accumulated_reaches in E. discriminate.
      * exists (S k). split; [lia|]. simpl. now rewrite Ht.
    + vm_compute in E. discriminate.
Qed.

Lemma sendToAPI_recordingTime (apiKeys : list ApiKey) (provider : string)
    (media : Media) (mediaType : string) (reply : Reply) (s : State) :
  recordingTime (fst (sendToAPI apiKeys provider media mediaType reply s))
  = recordingTime s.
Proof.
  unfold sendToAPI.
  destruct (negb (hasAPIKey apiKeys provider)); [reflexivity|].
  destruct (String.eqb mediaType "video" && String.eqb provider "openai");
    [reflexivity|].
  destruct (request media mediaType provider); [|reflexivity].
  unfold sendToAPI_settle. destruct reply as [res|detail]; [|reflexivity].
  unfold onResult.
  destruct (isEmergencyDetected res), (JsString.truthyOpt (r_audio_base64 res));
    try destruct (Base64.atob _); try destruct (r_translation res) as [t|];
    try destruct (JsString.truthy t); reflexivity.
Qed.

Lemma handle_displayable (e : Event) (s : State) :
  displayable (recordingTime s) -> displayable (recordingTime (fst (handle e s))).
Proof.
  intros H. destruct e as [| |a|b|reply|message]; simpl.
  6: { unfold recorderFailed. destruct (mediaRecorder s); exact H. }
  - now apply onTick_displayable.
  - now rewrite stopRecording_recordingTime.
  - destruct a as [b|seen]; simpl; [exact H|].
    destruct (seen && _); [now rewrite stopRecording_recordingTime | exact H].
  - unfold onDataAvailable. destruct (0 <? blob_size b)%nat; exact H.
  - unfold onStop. destruct (mediaRecorder s) as [r|]; [|exact H].
    destruct (blob_size _ =? 0)%nat; [exact H|].
    now rewrite sendToAPI_recordingTime.
Qed.

Lemma run_displayable (es : list Event) (s : State) :
  displayable (recordingTime s) -> displayable (recordingTime (fst (run es s))).
Proof.
  revert s. induction es as [|e es IH]; intros s H; simpl; [exact H|].
  pose proof (handle_displayable e s H) as H1.
  destruct (handle e s) as [s1 effects1]. simpl in H1.
  specialize (IH s1 H1). destruct (run es s1) as [s2 effects2]. exact IH.
Qed.

End RecordingTimer.

#[local] Set Warnings "-inexact-float".

(** C9. A recording started in the view registers a 100 ms interval and
    shows a time that never exceeds 5, whatever happens afterwards (ticks,
    stop button, timers, recorder events, a failing recorder).  A tick whose accumulated time
    reaches 5 shows exactly 5 and, if the recorder is recording, stops it,
    clears the interval and ends the recording; a tick whose accumulated
    time is still below 5 only advances the time.  In binary64 the time
    accumulated by 50 ticks is just under 5, so the recorder is stopped by
    tick 51. *)
Theorem recording_time_capped
    (apiKeys : list ApiKey) (isTypeSupported : string -> bool)
    (s0 : SignToSpeech.State) :
  let start :=
    SignToSpeech.startRecording apiKeys isTypeSupported SignToSpeech.Granted s0 in
  let started := fst start in
  In (SignToSpeech.SetInterval 100) (snd start)
  /\ (forall es,
        (SignToSpeech.recordingTime (fst (SignToSpeech.run es started))
           <=? SignToSpeech.MAX_RECORDING_DURATION)%float = true)
  /\ (forall s,
        SignToSpeech.recordingTimer s = true ->
        (SignToSpeech.MAX_RECORDING_DURATION
           <=? SignToSpeech.recordingTime s + 0.1)%float = true ->
        SignToSpeech.recordingTime (SignToSpeech.onTick s)
          = SignToSpeech.MAX_RECORDING_DURATION
        /\ (SignToSpeech.recorderIs SignToSpeech.Recording s = true ->
            SignToSpeech.recorderIs SignToSpeech.Inactive (SignToSpeech.onTick s) = true
            /\ SignToSpeech.recordingTimer (SignToSpeech.onTick s) = false
            /\ SignToSpeech.isRecording (SignToSpeech.onTick s) = false))
  /\ (forall s,
        SignToSpeech.recordingTimer s = true ->
        (SignToSpeech.MAX_RECORDING_DURATION
           <=? SignToSpeech.recordingTime s + 0.1)%float = false ->
        SignToSpeech.onTick s
          = SignToSpeech.set_recordingTime
              (SignToSpeech.recordingTime s + 0.1)%float s)
  /\ (forall n, (n <= 50)%nat ->
        let s := fst (SignToSpeech.run (repeat SignToSpeech.Tick n) started) in
        SignToSpeech.recorderIs SignToSpeech.Recording s = true
        /\ SignToSpeech.recordingTime s = SignToSpeech.accumulated n)
  /\ (let s := fst (SignToSpeech.run (repeat SignToSpeech.Tick 51) started) in
      SignToSpeech.recorderIs SignToSpeech.Inactive s = true
      /\ SignToSpeech.recordingTimer s = false
      /\ SignToSpeech.recordingTime s = SignToSpeech.MAX_RECORDING_DURATION).
Proof.
  intros start started.
  split; [left; reflexivity|]. split; [|split; [|split; [|split]]].
  - intros es. apply displayable_capped, run_displayable.
    left. exists 0%nat. split; [lia | reflexivity].
  - intros s Ht E. unfold SignToSpeech.onTick. rewrite Ht, E.
    split; [reflexivity|]. intros Hr.
    unfold SignToSpeech.recorderIs, SignToSpeech.stopRecording in *.
    destruct (SignToSpeech.mediaRecorder s) as [r|]; [|discriminate].
    destruct (SignToSpeech.rec_state r); try discriminate. repeat split.
  - intros s Ht E. unfold SignToSpeech.onTick. now rewrite Ht, E.
  - intros n Hn.
    do 51 (destruct n as [|n]; [vm_compute; split; reflexivity|]). lia.
  - vm_compute. repeat split.
Qed.

Lemma recording_time_capped_witness :
  let s :=
    fst (SignToSpeech.run (repeat SignToSpeech.Tick 50)
           (fst (SignToSpeech.startRecording [mkApiKey "gemini-pro" true]
                   (fun _ => true) SignToSpeech.Granted SignToSpeech.initial))) in
  SignToSpeech.recordingTime (SignToSpeech.onTick s)
    = SignToSpeech.MAX_RECORDING_DURATION
  /\ (SignToSpeech.recorderIs SignToSpeech.Recording s = true ->
      SignToSpeech.recorderIs SignToSpeech.Inactive (SignToSpeech.onTick s) = true
      /\ SignToSpeech.recordingTimer (SignToSpeech.onTick s) = false
      /\ SignToSpeech.isRecording (SignToSpeech.onTick s) = false).
Proof.
  intros s.
  apply (proj1 (proj2 (proj2 (recording_time_capped [mkApiKey "gemini-pro" true]
                                (fun _ => true) SignToSpeech.initial))) s).
  - vm_compute. reflexivity.
  - vm_compute. reflexivity.
Defined.

(** ** Speech to text with summary *)

Section Chunking.

Import JsString SpeechToSign.

Variable apiKeys : list ApiKey.

Lemma requests_app (e1 e2 : list Effect) :
  requests (e1 ++ e2) = requests e1 ++ requests e2.
Proof. unfold requests. apply omap_app. Qed.

Lemma lastSent_quiet (sofar effects : list Effect) :
  requests effects = [] -> lastSent (sofar ++ effects) = lastSent sofar.
Proof.
  intros H. unfold lastSent. now rewrite requests_app, H, app_nil_r.
Qed.

Lemma lastSent_chunk (sofar effects : list Effect) (t p : string) (c : option string) :
  requests effects = [Transcription.transcriptionChunkSummary t p c] ->
  lastSent (sofar ++ effects) = t.
Proof.
  intros H. unfold lastSent. rewrite requests_app, H, omap_app. simpl.
  now rewrite last_snoc.
Qed.

(** With a key and a transcript that is not blank, the chunk is sent. *)
Lemma sendTranscriptionChunk_sends (text : string) (n : nat) (s : State) :
  hasProviderKey apiKeys (provider s) = true ->
  truthy (trim text) = true ->
  exists s',
    sendTranscriptionChunk apiKeys text n s
      = (s', [Post (Transcription.transcriptionChunkSummary text (provider s)
                      (contextOf s))])
    /\ isRecording s' = isRecording s
    /\ chunkInterval s' = chunkInterval s
    /\ provider s' = provider s
    /\ transcriptionChunk s' = transcriptionChunk s.
Proof.
  intros Hk Ht. unfold sendTranscriptionChunk. rewrite Hk, Ht. simpl.
  eexists. split; [reflexivity|]. repeat split.
Qed.

(** Whatever happens, a chunk call issues at most its one request. *)
Lemma sendTranscriptionChunk_requests (text : string) (n : nat) (s : State) :
  requests (snd (sendTranscriptionChunk apiKeys text n s))
  = if hasProviderKey apiKeys (provider s) && truthy (trim text)
    then [Transcription.transcriptionChunkSummary text (provider s) (contextOf s)]
    else [].
Proof.
  unfold sendTranscriptionChunk.
  destruct (hasProviderKey apiKeys (provider s)), (truthy (trim text)); reflexivity.
Qed.

(** What one firing of the interval sends. *)
Lemma onChunkInterval_requests (s : State) :
  let cur := trim (finalTranscript s) in
  requests (snd (onChunkInterval apiKeys s)) = []
  \/ (requests (snd (onChunkInterval apiKeys s))
        = [Transcription.transcriptionChunkSummary cur (provider s) (contextOf s)]
      /\ chunkInterval s = true
      /\ cur <> ""
      /\ cur <> transcriptionChunk s
      /\ transcriptionChunk (fst (onChunkInterval apiKeys s)) = cur).
Proof.
  intros cur. unfold onChunkInterval. fold cur.
  destruct (chunkInterval s); [|left; reflexivity].
  destruct (truthy cur) eqn:Hc; [|left; reflexivity].
  destruct (String.eqb_spec cur (transcriptionChunk s)) as [|Hne];
    [left; reflexivity|].
  simpl. destruct (truthy (trim (replace cur (transcriptionChunk s) "")));
    [|left; reflexivity].
  pose proof (sendTranscriptionChunk_requests cur (S (chunkCounter s))
                (set_chunkCounter (S (chunkCounter s)) s)) as Hr.
  destruct (sendTranscriptionChunk apiKeys cur (S (chunkCounter s))
              (set_chunkCounter (S (chunkCounter s)) s)) as [s1 effects].
  simpl in Hr |- *.
  destruct (hasProviderKey apiKeys (provider s) && truthy (trim cur));
    [right | left; exact Hr].
  repeat split; try assumption. now apply truthy_true.
Qed.

Lemma stopRecording_off (s : State) :
  isRecording (fst (stopRecording apiKeys s)) = false
  /\ chunkInterval (fst (stopRecording apiKeys s)) = false
  /\ provider (fst (stopRecording apiKeys s)) = provider s.
Proof.
  unfold stopRecording.
  destruct (truthy _ && negb _); [|repeat split].
  unfold sendTranscriptionChunk.
  destruct (negb _ || negb _); repeat split.
Qed.

Lemma consistent_stopped (s : State) (sofar : list Effect) :
  hasProviderKey apiKeys (provider s) = true ->
  isRecording s = false -> chunkInterval s = false ->
  consistent apiKeys s sofar.
Proof.
  intros Hk Hr Hc. unfold consistent. rewrite Hr, Hc.
  repeat split; [assumption | discriminate].
Qed.

Lemma stopRecording_consistent (s : State) (sofar : list Effect) :
  hasProviderKey apiKeys (provider s) = true ->
  consistent apiKeys (fst (stopRecording apiKeys s))
    (sofar ++ snd (stopRecording apiKeys s)).
Proof.
  intros Hk. destruct (stopRecording_off s) as [H1 [H2 H3]].
  apply consistent_stopped; congruence.
Qed.

(** Every handler keeps the session consistent. *)
Lemma dispatch_consistent (e : Event) (s : State) (sofar : list Effect) :
  consistent apiKeys s sofar ->
  consistent apiKeys (fst (dispatch apiKeys e s)) (sofar ++ snd (dispatch apiKeys e s)).
Proof.
  intros [Hk [Hi Hc]]. destruct e as [results| |kind| |n reply|]; simpl.
  - unfold onResult. destruct (absorb results (finalTranscript s) "") as [f i].
    rewrite app_nil_r. unfold consistent. simpl. auto.
  - unfold onEnd. destruct (isRecording s) eqn:Hr; simpl.
    + destruct (truthy (trim (interimTranscript s))); unfold consistent; simpl;
        rewrite ?Hr; (split; [exact Hk|]; split; [exact Hi|]);
        intros _; (rewrite lastSent_quiet by reflexivity); auto.
    + rewrite app_nil_r. unfold consistent. rewrite Hr. auto.
  - unfold onError.
    destruct (String.eqb kind "no-speech" || String.eqb kind "aborted").
    { simpl. rewrite app_nil_r. unfold consistent. auto. }
    destruct (String.eqb kind "network").
    { now apply stopRecording_consistent. }
    destruct (String.eqb kind "not-allowed").
    { now apply stopRecording_consistent. }
    destruct (isRecording s) eqn:Hr.
    { now apply stopRecording_consistent. }
    simpl. rewrite app_nil_r. unfold consistent. rewrite Hr. auto.
  - pose proof (onChunkInterval_requests s) as Hq. simpl in Hq.
    assert (Hsame :
      provider (fst (onChunkInterval apiKeys s)) = provider s
      /\ isRecording (fst (onChunkInterval apiKeys s)) = isRecording s
      /\ chunkInterval (fst (onChunkInterval apiKeys s)) = chunkInterval s
      /\ (requests (snd (onChunkInterval apiKeys s)) = [] ->
          transcriptionChunk (fst (onChunkInterval apiKeys s)) = transcriptionChunk s)).
    { unfold onChunkInterval.
      destruct (chunkInterval s) eqn:Hci; [|simpl; repeat split; congruence].
      destruct (truthy (trim (finalTranscript s))) eqn:Ht;
        [|simpl; repeat split; congruence].
      destruct (negb _); [|simpl; repeat split; congruence]. simpl.
      destruct (truthy (trim (replace _ _ _))); [|simpl; repeat split; congruence].
      destruct (sendTranscriptionChunk_sends (trim (finalTranscript s))
                  (S (chunkCounter s)) (set_chunkCounter (S (chunkCounter s)) s))
        as [s' [Hs [Hr' [Hc' [Hp' Ht']]]]].
      - exact Hk.
      - now rewrite trim_idempotent.
      - rewrite Hs. simpl in *.
        repeat split; congruence. }
    destruct Hsame as [Hp [Hr [Hci Hquiet]]].
    unfold consistent. rewrite Hp, Hr, Hci.
    split; [exact Hk|]. split; [exact Hi|]. intros Hrec.
    destruct Hq as [Hq | [Hq [_ [_ [_ Hnew]]]]].
    + rewrite lastSent_quiet by exact Hq. rewrite Hquiet by exact Hq. auto.
    + rewrite Hnew. symmetry. eapply lastSent_chunk. exact Hq.
  - rewrite app_nil_r. unfold onChunkSettled, consistent.
    destruct reply as [[text|]|]; try destruct (truthy text); simpl; auto.
  - now apply stopRecording_consistent.
Qed.

Lemma recognitionEffect_consistent (before s : State) (sofar : list Effect) :
  consistent apiKeys s sofar -> consistent apiKeys (recognitionEffect before s) sofar.
Proof.
  unfold recognitionEffect. destruct (Bool.eqb _ _); [trivial|].
  unfold consistent. simpl. trivial.
Qed.

Lemma handle_consistent (e : Event) (s : State) (sofar : list Effect) :
  consistent apiKeys s sofar ->
  consistent apiKeys (fst (handle apiKeys e s)) (sofar ++ snd (handle apiKeys e s)).
Proof.
  intros H. apply (dispatch_consistent e) in H. unfold handle.
  destruct (dispatch apiKeys e s) as [s1 effects].
  now apply recognitionEffect_consistent.
Qed.

Lemma run_consistent (es : list Event) (s : State) (sofar : list Effect) :
  consistent apiKeys s sofar ->
  consistent apiKeys (fst (run apiKeys es s)) (sofar ++ snd (run apiKeys es s)).
Proof.
  revert s sofar. induction es as [|e es IH]; intros s sofar H; simpl.
  - now rewrite app_nil_r.
  - pose proof (handle_consistent e s sofar H) as H1.
    destruct (handle apiKeys e s) as [s1 effects1]. simpl in H1.
    specialize (IH s1 (sofar ++ effects1) H1).
    destruct (run apiKeys es s1) as [s2 effects2]. simpl in IH |- *.
    now rewrite app_assoc.
Qed.

Lemma session_consistent (es : list Event) (s0 : State) :
  canProceed apiKeys (provider s0) = true ->
  consistent apiKeys (fst (session apiKeys es s0)) (snd (session apiKeys es s0)).
Proof.
  intros Hk. unfold session, startRecording. rewrite Hk. cbn [negb].
  match goal with
  | |- context [run apiKeys es ?s] =>
      pose proof (run_consistent es s [SetInterval chunkPeriod; RecognitionStart]) as H;
      destruct (run apiKeys es s) as [s2 effects2]
  end.
  cbn [fst snd] in H |- *. apply H.
  apply recognitionEffect_consistent. repeat split. exact Hk.
Qed.

Lemma summaryOnly_app (e1 e2 : list Effect) :
  summaryOnly e1 -> summaryOnly e2 -> summaryOnly (e1 ++ e2).
Proof.
  intros H1 H2 r. rewrite requests_app, in_app_iff. intros [H | H]; auto.
Qed.

Lemma summaryOnly_quiet (effects : list Effect) :
  requests effects = [] -> summaryOnly effects.
Proof. intros H r. rewrite H. intros []. Qed.

Lemma sendTranscriptionChunk_summaryOnly (text : string) (n : nat) (s : State) :
  summaryOnly (snd (sendTranscriptionChunk apiKeys text n s)).
Proof.
  intros r. rewrite sendTranscriptionChunk_requests.
  destruct (_ && _); simpl; [|tauto]. intros [<- | []]. reflexivity.
Qed.

Lemma stopRecording_summaryOnly (s : State) :
  summaryOnly (snd (stopRecording apiKeys s)).
Proof.
  unfold stopRecording.
  destruct (truthy _ && negb _).
  - match goal with
    | |- context [sendTranscriptionChunk apiKeys ?t ?n ?s'] =>
        pose proof (sendTranscriptionChunk_summaryOnly t n s') as H;
        destruct (sendTranscriptionChunk apiKeys t n s') as [s2 effects]
    end.
    cbn [snd] in H |- *. apply summaryOnly_app; [|apply summaryOnly_app; [|exact H]].
    + destruct (chunkInterval s); now apply summaryOnly_quiet.
    + now apply summaryOnly_quiet.
  - cbn [snd]. apply summaryOnly_app; [|now apply summaryOnly_quiet].
    destruct (chunkInterval s); now apply summaryOnly_quiet.
Qed.

Lemma handle_summaryOnly (e : Event) (s : State) :
  summaryOnly (snd (handle apiKeys e s)).
Proof.
  unfold handle.
  enough (H : summaryOnly (snd (dispatch apiKeys e s)))
    by (destruct (dispatch apiKeys e s); exact H).
  destruct e as [results| |kind| |n reply|]; simpl.
  - now apply summaryOnly_quiet.
  - unfold onEnd. destruct (isRecording s); now apply summaryOnly_quiet.
  - unfold onError.
    repeat (match goal with
            | |- context [if ?b then _ else _] => destruct b
            end; try apply stopRecording_summaryOnly);
      now apply summaryOnly_quiet.
  - intros r Hr. destruct (onChunkInterval_requests s) as [H | [H _]];
      rewrite H in Hr; simpl in Hr; [tauto|].
    destruct Hr as [<- | []]. reflexivity.
  - now apply summaryOnly_quiet.
  - apply stopRecording_summaryOnly.
Qed.

Lemma run_summaryOnly (es : list Event) (s : State) :
  summaryOnly (snd (run apiKeys es s)).
Proof.
  revert s. induction es as [|e es IH]; intros s; simpl.
  - now apply summaryOnly_quiet.
  - pose proof (handle_summaryOnly e s) as H1.
    destruct (handle apiKeys e s) as [s1 effects1]. specialize (IH s1).
    destruct (run apiKeys es s1) as [s2 effects2]. simpl in *.
    now apply summaryOnly_app.
Qed.

Lemma session_summaryOnly (es : list Event) (s0 : State) :
  summaryOnly (snd (session apiKeys es s0)).
Proof.
  unfold session.
  assert (H0 : summaryOnly (snd (startRecording apiKeys Granted s0))).
  { unfold startRecording. destruct (negb _); now apply summaryOnly_quiet. }
  destruct (startRecording apiKeys Granted s0) as [s1 effects1].
  pose proof (run_summaryOnly es (recognitionEffect s0 s1)) as H1.
  destruct (run apiKeys es (recognitionEffect s0 s1)) as [s2 effects2]. simpl in *.
  now apply summaryOnly_app.
Qed.

End Chunking.

(** C3. In a recording session of the speech view the chunk interval is
    registered with a period of 5000 ms.  One firing of it issues at most
    one summary request; when it issues one, the view is recording, the
    request carries the trimmed finalized transcript, and that transcript
    is neither empty nor the one sent with the previous chunk.  Stopping
    the recording ends it and sends the trimmed finalized transcript as one
    last chunk exactly when it is not empty and differs from the one last
    sent; otherwise nothing is sent. *)
Theorem chunks_follow_the_interval
    (apiKeys : list ApiKey) (s0 : SpeechToSign.State) (es : list SpeechToSign.Event) :
  SpeechToSign.canProceed apiKeys (SpeechToSign.provider s0) = true ->
  let reached := SpeechToSign.session apiKeys es s0 in
  let s := fst reached in
  let sofar := snd reached in
  let cur := JsString.trim (SpeechToSign.finalTranscript s) in
  let chunk :=
    Transcription.transcriptionChunkSummary cur (SpeechToSign.provider s)
      (SpeechToSign.contextOf s) in
  In (SpeechToSign.SetInterval 5000) sofar
  /\ (let sent :=
        SpeechToSign.requests (snd (SpeechToSign.onChunkInterval apiKeys s)) in
      (length sent <= 1)%nat
      /\ (sent <> [] ->
          sent = [chunk]
          /\ SpeechToSign.isRecording s = true
          /\ cur <> ""
          /\ cur <> SpeechToSign.lastSent sofar))
  /\ (SpeechToSign.isRecording s = true ->
      let stopped := SpeechToSign.stopRecording apiKeys s in
      SpeechToSign.isRecording (fst stopped) = false
      /\ SpeechToSign.requests (snd stopped) =
           if JsString.truthy cur && negb (String.eqb cur (SpeechToSign.lastSent sofar))
           then [chunk]
           else []).
Proof.
  intros Hk reached s sofar cur chunk.
  pose proof (session_consistent apiKeys es s0 Hk) as [Hkey [Hint Hchunk]].
  fold reached in Hkey, Hint, Hchunk. fold s in Hkey, Hint, Hchunk.
  fold sofar in Hchunk.
  split; [|split].
  - unfold sofar, reached, SpeechToSign.session, SpeechToSign.startRecording.
    rewrite Hk. cbn [negb].
    destruct (SpeechToSign.run apiKeys es _) as [s2 effects2]. simpl. auto.
  - destruct (onChunkInterval_requests apiKeys s) as [H | [H [Hci [Hne [Hnew _]]]]];
      rewrite H; simpl.
    + split; [lia | congruence].
    + split; [lia|]. intros _. rewrite Hci in Hint. symmetry in Hint.
      repeat split; try assumption. now rewrite <- Hchunk.
  - intros Hrec. destruct (stopRecording_off apiKeys s) as [Hoff _].
    split; [exact Hoff|].
    unfold SpeechToSign.stopRecording. simpl. fold cur.
    rewrite (Hchunk Hrec).
    destruct (JsString.truthy cur) eqn:Ht; simpl.
    + destruct (negb (String.eqb cur (SpeechToSign.lastSent sofar))).
      * match goal with
        | |- context [SpeechToSign.sendTranscriptionChunk apiKeys cur ?n ?s'] =>
            destruct (sendTranscriptionChunk_sends apiKeys cur n s')
              as [s2 [Hs _]]
        end.
        -- exact Hkey.
        -- unfold cur. now rewrite trim_idempotent.
        -- rewrite Hs. cbn [snd]. rewrite !requests_app. simpl.
           destruct (SpeechToSign.chunkInterval s); reflexivity.
      * cbn [snd]. rewrite requests_app.
        destruct (SpeechToSign.chunkInterval s); reflexivity.
    + cbn [snd]. rewrite requests_app.
      destruct (SpeechToSign.chunkInterval s); reflexivity.
Qed.

Lemma chunks_follow_the_interval_witness :
  let apiKeys := [mkApiKey "openai" true] in
  let es :=
    [SpeechToSign.Result [("hello world", true)]; SpeechToSign.ChunkInterval;
     SpeechToSign.Result [("how are you", true)]] in
  let reached := SpeechToSign.session apiKeys es SpeechToSign.initial in
  let s := fst reached in
  SpeechToSign.isRecording s = true
  /\ SpeechToSign.lastSent (snd reached) = "hello world"
  /\ SpeechToSign.requests (snd (SpeechToSign.onChunkInterval apiKeys s))
     = [Transcription.transcriptionChunkSummary "hello world how are you" "openai" None]
  /\ SpeechToSign.requests (snd (SpeechToSign.stopRecording apiKeys s))
     = [Transcription.transcriptionChunkSummary "hello world how are you" "openai" None].
Proof.
  intros apiKeys es reached s.
  destruct (chunks_follow_the_interval apiKeys SpeechToSign.initial es eq_refl)
    as [_ [[_ Htick] Hstop]].
  split; [reflexivity|]. split; [reflexivity|]. split.
  - apply Htick. discriminate.
  - apply (Hstop eq_refl).
Defined.

(** A session in which the second transcript is still unsent when the
    button is pressed: it leaves as one last chunk. *)
Example unsent_transcript_leaves_on_stop :
  SpeechToSign.requests
    (snd (SpeechToSign.session [mkApiKey "openai" true]
            [SpeechToSign.Result [("hello world", true)]; SpeechToSign.ChunkInterval;
             SpeechToSign.Result [("how are you", true)]; SpeechToSign.StopClicked]
            SpeechToSign.initial))
  = [Transcription.transcriptionChunkSummary "hello world" "openai" None;
     Transcription.transcriptionChunkSummary "hello world how are you" "openai" None].
Proof. vm_compute. reflexivity. Qed.

(** C1, as the code has it.  Whatever happens in a session of the speech
    view, each of its requests goes to [/api/transcription-chunk-summary]
    and none asks for a gloss.  A transcript that is not blank, sent while
    the provider has an active key, leaves as one chunk-summary request
    carrying the transcript, the provider and the previous summary; when
    the answer brings a summary, that summary is what the view shows and
    what the next chunk gets as context. *)
Theorem speech_is_summarised
    (apiKeys : list ApiKey) (s0 : SpeechToSign.State) (es : list SpeechToSign.Event) :
  let reached := SpeechToSign.session apiKeys es s0 in
  let s := fst reached in
  (forall r, In r (SpeechToSign.requests (snd reached)) ->
     Transcription.url r = "/api/transcription-chunk-summary"
     /\ ~ SpeechToSign.asksForGloss r)
  /\ (forall text n,
        SpeechToSign.hasProviderKey apiKeys (SpeechToSign.provider s) = true ->
        JsString.trim text <> "" ->
        let sending := SpeechToSign.sendTranscriptionChunk apiKeys text n s in
        SpeechToSign.requests (snd sending)
          = [Transcription.transcriptionChunkSummary text (SpeechToSign.provider s)
               (SpeechToSign.contextOf s)]
        /\ forall answer, answer <> "" ->
             let s' :=
               SpeechToSign.onChunkSettled n (SpeechToSign.Resolved (Some answer))
                 (fst sending) in
             SpeechToSign.summary s' = answer
             /\ SpeechToSign.contextOf s' = Some answer).
Proof.
  intros reached s. split.
  - intros r Hr. pose proof (session_summaryOnly apiKeys es s0 r Hr) as Hu.
    split; [exact Hu|]. intros [text [provider ->]]. discriminate.
  - intros text n Hk Ht sending. unfold sending.
    rewrite sendTranscriptionChunk_requests, Hk.
    apply truthy_true in Ht. rewrite Ht. split; [reflexivity|].
    intros answer Ha. apply truthy_true in Ha.
    unfold SpeechToSign.onChunkSettled, SpeechToSign.contextOf. rewrite Ha.
    simpl. now rewrite Ha.
Qed.

Lemma speech_is_summarised_witness :
  let apiKeys := [mkApiKey "openai" true] in
  let s := fst (SpeechToSign.session apiKeys [] SpeechToSign.initial) in
  let sending := SpeechToSign.sendTranscriptionChunk apiKeys "hello world " 1 s in
  SpeechToSign.requests (snd sending)
    = [Transcription.transcriptionChunkSummary "hello world " "openai" None]
  /\ forall answer, answer <> "" ->
       let s' :=
         SpeechToSign.onChunkSettled 1 (SpeechToSign.Resolved (Some answer))
           (fst sending) in
       SpeechToSign.summary s' = answer
       /\ SpeechToSign.contextOf s' = Some answer.
Proof.
  apply (proj2 (speech_is_summarised [mkApiKey "openai" true] SpeechToSign.initial [])
           "hello world " 1%nat).
  - reflexivity.
  - discriminate.
Defined.

(** C1, as the claim has it, fails: in this session the user says
    [hello world], the view sends that transcript for a summary and shows
    the summary it gets back; no request asks for a gloss. *)
Lemma speech_is_not_glossed :
  let reached :=
    SpeechToSign.session [mkApiKey "openai" true]
      [SpeechToSign.Result [("hello world", true)]; SpeechToSign.ChunkInterval;
       SpeechToSign.ChunkSettled 1 (SpeechToSign.Resolved (Some "A greeting."))]
      SpeechToSign.initial in
  SpeechToSign.requests (snd reached)
    = [Transcription.transcriptionChunkSummary "hello world" "openai" None]
  /\ SpeechToSign.summary (fst reached) = "A greeting."
  /\ ~ (exists r, In r (SpeechToSign.requests (snd reached))
                  /\ SpeechToSign.asksForGloss r).
Proof.
  intros reached.
  assert (Hreq : SpeechToSign.requests (snd reached)
                 = [Transcription.transcriptionChunkSummary "hello world" "openai" None])
    by (vm_compute; reflexivity).
  split; [exact Hreq|]. split; [vm_compute; reflexivity|].
  intros [r [Hr [text [provider Hgloss]]]].
  rewrite Hreq in Hr. destruct Hr as [<- | []]. discriminate Hgloss.
Qed.

(** ** Video compression in exact arithmetic *)

Section Compression.

Import VideoCompression.

Local Open Scope Q_scope.

(** [frameCount] counts the steps of the walk that stay below the bound. *)
Lemma frameCount_spec (b : Q) (i : nat) :
  (i < frameCount b)%nat <-> inject_Z (Z.of_nat i * frameInterval) < b.
Proof.
  unfold frameCount, frameInterval.
  set (x := b / inject_Z 42).
  assert (Hx : inject_Z (Z.of_nat i * 42) < b <-> inject_Z (Z.of_nat i) < x).
  { unfold x. rewrite inject_Z_mult. split; intros H.
    - apply Qlt_shift_div_l; [reflexivity | exact H].
    - apply (Qmult_lt_r _ _ (inject_Z 42)) in H; [|reflexivity].
      unfold Qdiv in H. rewrite <- Qmult_assoc in H.
      rewrite (Qmult_comm (/ inject_Z 42)) in H.
      rewrite Qmult_inv_r in H by discriminate.
      now rewrite Qmult_1_r in H. }
  rewrite Hx. split; intros H.
  - assert (Hz : (Z.of_nat i <= Qceiling x - 1)%Z) by lia.
    apply Qle_lt_trans with (inject_Z (Qceiling x - 1)).
    + rewrite <- Zle_Qle. exact Hz.
    + apply Qceiling_lt.
  - assert (Hz : (Z.of_nat i < Qceiling x)%Z).
    { rewrite Zlt_Qlt. eapply Qlt_le_trans; [exact H | apply Qle_ceiling]. }
    lia.
Qed.

Lemma positions_S (n : nat) :
  positions (S n) = positions n ++ [inject_Z (Z.of_nat n * frameInterval) / 1000].
Proof. unfold positions. now rewrite seq_S, map_app. Qed.

Lemma last_positions_S (n : nat) :
  List.last (positions (S n)) 0 = inject_Z (Z.of_nat n * frameInterval) / 1000.
Proof. rewrite positions_S. apply List.last_last. Qed.

Lemma redraws_S (n : nat) :
  redraws (S n) =
    redraws n
    ++ [mkDraw (inject_Z (Z.of_nat n * frameInterval) / 1000) 0 0
          targetWidth targetHeight].
Proof. unfold redraws. now rewrite positions_S, map_app. Qed.

Lemma geb_false (a b : Q) : geb a b = false <-> a < b.
Proof.
  unfold geb. rewrite <- not_true_iff_false, Qle_bool_iff. split.
  - apply Qnot_le_lt.
  - apply Qlt_not_le.
Qed.

Lemma ltb_true (a b : Q) : ltb a b = true <-> a < b.
Proof. unfold ltb. rewrite negb_true_iff. apply geb_false. Qed.

Variable maxDuration : option Q.
Variable videoDuration : Q.

Let snap := snapshot maxDuration videoDuration.
Let limitMs := bound videoDuration maxDuration.

(** The call after [loadedmetadata] and [canplay]. *)
Lemma started_snapshot :
  handle CanPlay
    (handle (LoadedMetadata videoDuration) (compressVideo maxDuration))
  = if ltb 0 limitMs then snap Seeking 0%nat [] else snap Stopping 0%nat [].
Proof.
  unfold handle, onLoadedMetadata, drawFrame, compressVideo. cbn - [geb ltb].
  unfold limit. cbn - [geb ltb].
  change (effectiveDuration videoDuration maxDuration * 1000) with limitMs.
  unfold ltb, geb at 1. change (inject_Z 0) with 0.
  destruct (Qle_bool limitMs 0); reflexivity.
Qed.

Lemma deliver_snapshot (ph : Phase) (i : nat) (c batch : list Blob) :
  deliver batch (snap ph i c)
  = snap ph i (c ++ List.filter (fun b => (0 <? blob_size b)%nat) batch).
Proof.
  revert c. induction batch as [|b batch IH]; intros c; simpl.
  - now rewrite app_nil_r.
  - unfold deliver in *. simpl. unfold onDataAvailable at 2. simpl.
    destruct (0 <? blob_size b)%nat.
    + change (set_chunks (c ++ [b]) (snap ph i c)) with (snap ph i (c ++ [b])).
      rewrite IH. now rewrite <- app_assoc.
    + apply IH.
Qed.

Lemma seeked_snapshot (i : nat) (c : list Blob) :
  handle Seeked (snap Seeking i c)
  = snap (if ltb (inject_Z (Z.of_nat (S i) * frameInterval)) limitMs
          then Waiting else Closing) (S i) c.
Proof.
  unfold handle, onSeeked, snap, snapshot. cbn - [ltb positions redraws Z.of_nat].
  unfold limit. cbn - [ltb positions redraws Z.of_nat].
  change (effectiveDuration videoDuration maxDuration * 1000) with limitMs.
  rewrite last_positions_S, <- redraws_S.
  replace (Z.of_nat i * frameInterval + frameInterval)%Z
    with (Z.of_nat (S i) * frameInterval)%Z by lia.
  destruct (ltb _ limitMs); cbv iota; rewrite last_positions_S; reflexivity.
Qed.

Lemma waiting_snapshot (i : nat) (c : list Blob) :
  inject_Z (Z.of_nat i * frameInterval) < limitMs ->
  handle Timeout (snap Waiting i c) = snap Seeking i c.
Proof.
  intros H. apply geb_false in H.
  unfold handle, drawFrame, snap, snapshot. cbn - [geb positions redraws Z.of_nat].
  unfold limit. cbn - [geb positions redraws Z.of_nat].
  change (effectiveDuration videoDuration maxDuration * 1000) with limitMs.
  rewrite H. cbn - [positions redraws Z.of_nat].
  rewrite last_positions_S, <- positions_S. reflexivity.
Qed.

Lemma closing_snapshot (i : nat) (c : list Blob) :
  handle Timeout (snap Closing i c) = snap Stopping i c.
Proof. reflexivity. Qed.


Lemma recorded_cons (feed : list (list Blob)) :
  List.filter (fun b => (0 <? blob_size b)%nat) (hd [] feed) ++ recorded (tl feed)
  = recorded feed.
Proof.
  unfold recorded. destruct feed as [|batch feed]; simpl; [reflexivity|].
  now rewrite List.filter_app.
Qed.

Lemma play_seeking (fuel : nat) (feed : list (list Blob)) (i : nat) (c : list Blob) :
  play (S fuel) feed (snap Seeking i c)
  = play fuel (tl feed) (handle Seeked (deliver (hd [] feed) (snap Seeking i c))).
Proof. reflexivity. Qed.

Lemma play_timer (fuel : nat) (feed : list (list Blob)) (ph : Phase) (i : nat)
    (c : list Blob) :
  ph = Waiting \/ ph = Closing ->
  play (S fuel) feed (snap ph i c)
  = play fuel (tl feed) (handle Timeout (deliver (hd [] feed) (snap ph i c))).
Proof. intros [-> | ->]; reflexivity. Qed.

Lemma play_stopping (fuel : nat) (feed : list (list Blob)) (i : nat) (c : list Blob) :
  play (S fuel) feed (snap Stopping i c)
  = handle RecorderStop (deliver (concat feed) (snap Stopping i c)).
Proof. reflexivity. Qed.

(** From a pending seek with [r] frames still to draw, the browser's loop
    reaches the recorder's [stop] within [2 * r + 1] events. *)
Lemma play_from_seeking (r : nat) :
  forall (i : nat) (c : list Blob) (feed : list (list Blob)) (fuel : nat),
    (0 < r)%nat -> (i + r)%nat = frameCount limitMs -> (2 * r + 1 <= fuel)%nat ->
    play fuel feed (snap Seeking i c)
    = handle RecorderStop (snap Stopping (i + r)%nat (c ++ recorded feed)).
Proof.
  induction r as [|r IH]; intros i c feed fuel Hr Hn Hfuel; [lia|].
  destruct fuel as [|[|[|fuel]]]; try lia.
  rewrite play_seeking, deliver_snapshot, seeked_snapshot.
  destruct (ltb (inject_Z (Z.of_nat (S i) * frameInterval)) limitMs) eqn:E.
  - assert (Hlt : (S i < frameCount limitMs)%nat)
      by (apply frameCount_spec, ltb_true, E).
    rewrite play_timer by (left; reflexivity).
    rewrite deliver_snapshot, waiting_snapshot by (apply ltb_true, E).
    rewrite (IH (S i) _ (tl (tl feed)) (S fuel)); try lia.
    f_equal. f_equal; [lia|].
    rewrite <- !app_assoc. f_equal.
    now rewrite !recorded_cons.
  - assert (Hge : ~ (S i < frameCount limitMs)%nat).
    { rewrite frameCount_spec, <- ltb_true, E. discriminate. }
    assert (r = 0%nat) by lia. subst r.
    rewrite play_timer by (right; reflexivity).
    rewrite deliver_snapshot, closing_snapshot.
    rewrite play_stopping, deliver_snapshot.
    f_equal. f_equal; [lia|].
    rewrite <- !app_assoc. f_equal.
    rewrite <- (recorded_cons feed), <- (recorded_cons (tl feed)).
    reflexivity.
Qed.

(** A whole call, with enough events allowed for its frames. *)
Lemma compress_stopped (feed : list (list Blob)) (fuel : nat) :
  (2 * frameCount limitMs + 1 <= fuel)%nat ->
  compress fuel videoDuration maxDuration feed
  = handle RecorderStop (snap Stopping (frameCount limitMs) (recorded feed)).
Proof.
  intros Hfuel. unfold compress. rewrite started_snapshot.
  destruct (ltb 0 limitMs) eqn:E.
  - assert (H0 : (0 < frameCount limitMs)%nat)
      by (apply frameCount_spec; apply ltb_true in E; exact E).
    rewrite (play_from_seeking (frameCount limitMs) 0%nat [] feed fuel);
      [reflexivity | lia | lia | lia].
  - assert (H0 : frameCount limitMs = 0%nat).
    { destruct (frameCount limitMs) eqn:En; [reflexivity|].
      assert (H : (0 < frameCount limitMs)%nat) by lia.
      apply frameCount_spec, ltb_true in H.
      change (inject_Z (Z.of_nat 0 * frameInterval)) with 0 in H.
      rewrite E in H. discriminate. }
    rewrite H0. destruct fuel as [|fuel]; [lia|].
    now rewrite play_stopping, deliver_snapshot.
Qed.

End Compression.

#[local] Set Warnings "-inexact-float".

(** ** Adding 42 in binary64 *)

(** [currentTime] is a sum of 42s.  The additions are followed through
    the specification of the float operations ([SpecFloat]): the mantissas
    are aligned, added, shifted back to 53 bits and rounded to nearest
    even.  A number below [2 ^ 59] plus 42 is below [2 ^ 60]; from
    [2 ^ 59] on the floats are 128 apart and adding 42 rounds back to
    where it started.  So the clock never reaches [2 ^ 60], let alone
    [Infinity]. *)

Section Rounding64.

Local Open Scope Z_scope.

(** The number of binary digits of a mantissa. *)
Lemma digits2_bounds (p : positive) :
  2 ^ (Zpos (digits2_pos p) - 1) <= Zpos p < 2 ^ Zpos (digits2_pos p).
Proof.
  induction p as [p IH|p IH|]; cbn [digits2_pos]; [| |cbn; lia];
    rewrite Pos2Z.inj_succ;
    replace (Z.succ (Zpos (digits2_pos p)) - 1) with (Z.succ (Zpos (digits2_pos p) - 1))
      by lia;
    rewrite !Z.pow_succ_r by lia; lia.
Qed.

Lemma digits2_le (p : positive) (k : Z) :
  0 <= k -> Zpos p < 2 ^ k -> Zpos (digits2_pos p) <= k.
Proof.
  intros Hk Hp. destruct (digits2_bounds p) as [Hlo _].
  assert (H : 2 ^ (Zpos (digits2_pos p) - 1) < 2 ^ k) by lia.
  apply Z.pow_lt_mono_r_iff in H; lia.
Qed.

Lemma digits2_ge (p : positive) (k : Z) :
  0 <= k -> 2 ^ k <= Zpos p -> k < Zpos (digits2_pos p).
Proof.
  intros Hk Hp. destruct (digits2_bounds p) as [_ Hhi].
  assert (H : 2 ^ k < 2 ^ Zpos (digits2_pos p)) by lia.
  apply Z.pow_lt_mono_r_iff in H; lia.
Qed.

Lemma Zdigits2_le (m k : Z) : 0 <= k -> 0 <= m < 2 ^ k -> Zdigits2 m <= k.
Proof.
  intros Hk [Hm Hlt]. destruct m as [|p|p]; cbn; [lia| |lia].
  now apply digits2_le.
Qed.

(** Shifting a mantissa to the left. *)
Lemma iter_xO (p d : positive) :
  Zpos (Pos.iter xO p d) = Zpos p * 2 ^ Zpos d
  /\ Zpos (digits2_pos (Pos.iter xO p d)) = Zpos (digits2_pos p) + Zpos d.
Proof.
  induction d as [|d IH] using Pos.peano_ind.
  - cbn. split; lia.
  - rewrite Pos.iter_succ. cbn [digits2_pos]. destruct IH as [IH1 IH2].
    rewrite Pos2Z.inj_xO, IH1, !Pos2Z.inj_succ, IH2, Z.pow_succ_r by lia. split; lia.
Qed.

Lemma shl_align_spec (mx : positive) (ex ex' : Z) :
  Zpos (fst (shl_align mx ex ex')) = Zpos mx * 2 ^ (ex - snd (shl_align mx ex ex'))
  /\ snd (shl_align mx ex ex') = Z.min ex ex'
  /\ Zpos (digits2_pos (fst (shl_align mx ex ex'))) + snd (shl_align mx ex ex')
     = Zpos (digits2_pos mx) + ex.
Proof.
  unfold shl_align. destruct (ex' - ex) as [|d|d] eqn:E; cbn [fst snd].
  - rewrite Z.sub_diag. cbn. split; [lia|]. split; lia.
  - rewrite Z.sub_diag. cbn. split; [lia|]. split; lia.
  - destruct (iter_xO mx d) as [H1 H2]. rewrite H1, H2.
    replace (ex - ex') with (Zpos d) by lia. split; [reflexivity|]. split; lia.
Qed.

(** Shifting a mantissa to the right: what is left, and the last bit
    shifted out. *)
Lemma iter_pos_iter {A : Type} (f : A -> A) (n : positive) :
  forall x : A, SpecFloat.iter_pos f n x = Pos.iter f x n.
Proof.
  induction n as [n IH|n IH|]; intros x; cbn; [|now rewrite !IH|reflexivity].
  now rewrite !IH, !Pos.iter_swap.
Qed.

Lemma shr_1_spec (mrs : shr_record) :
  0 <= shr_m mrs ->
  shr_m (shr_1 mrs) = Z.div2 (shr_m mrs) /\ shr_r (shr_1 mrs) = Z.odd (shr_m mrs).
Proof.
  destruct mrs as [[|[p|p|]|p] r s]; cbn; intros H; try lia; split; reflexivity.
Qed.

Lemma shr_iter (n : positive) (mrs : shr_record) :
  0 <= shr_m mrs ->
  shr_m (SpecFloat.iter_pos shr_1 n mrs) = Z.shiftr (shr_m mrs) (Zpos n)
  /\ shr_r (SpecFloat.iter_pos shr_1 n mrs) = Z.testbit (shr_m mrs) (Zpos n - 1).
Proof.
  intros Hm. rewrite iter_pos_iter.
  induction n as [|n IH] using Pos.peano_ind.
  - cbn [Pos.iter]. destruct (shr_1_spec mrs Hm) as [H1 H2].
    rewrite H1, H2, Z.div2_spec. split; [reflexivity|].
    now rewrite Z.testbit_odd, Z.shiftr_0_r.
  - rewrite Pos.iter_succ. destruct IH as [IH1 IH2].
    destruct (shr_1_spec (Pos.iter shr_1 mrs n)) as [H1 H2].
    { rewrite IH1. now apply Z.shiftr_nonneg. }
    rewrite H1, H2, IH1, Z.div2_spec, Z.shiftr_shiftr, Pos2Z.inj_succ by lia.
    split; [f_equal; lia|].
    rewrite Z.testbit_odd. do 2 f_equal. lia.
Qed.

Lemma round_nearest_even_bounds (q : Z) (l : location) :
  q <= round_nearest_even q l <= q + 1.
Proof.
  destruct l as [|[]]; cbn; try lia. destruct (Z.even q); lia.
Qed.

Lemma round_nearest_even_down (mrs : shr_record) :
  shr_r mrs = false ->
  round_nearest_even (shr_m mrs) (loc_of_shr_record mrs) = shr_m mrs.
Proof.
  destruct mrs as [q r s]. cbn. intros ->. now destruct s.
Qed.

(** Rounding a mantissa of magnitude at most [K]: the exponent of the
    result is that of magnitude [K + 1], and that of [K] when the first
    bit shifted out is 0. *)
Lemma binary_round_aux_bound (mz : positive) (ez K c : Z) :
  let D := Zpos (digits2_pos mz) + ez in
  -1074 <= ez <= fexp prec emax D -> D <= K -> K + 1 <= 1024 -> 0 <= c <= 1 ->
  (c = 0 -> forall p, fexp prec emax D - ez = Zpos p ->
            Z.testbit (Zpos mz) (Zpos p - 1) = false) ->
  binary_round_aux prec emax false (Zpos mz) ez loc_Exact = S754_zero false
  \/ exists m e,
       binary_round_aux prec emax false (Zpos mz) ez loc_Exact = S754_finite false m e
       /\ e <= fexp prec emax (K + c).
Proof.
  intros D Hez HK HK1 Hc Hfine.
  assert (Hmz := digits2_bounds mz).
  unfold binary_round_aux, shr_fexp. cbn [Zdigits2]. fold D.
  set (n1 := fexp prec emax D - ez) in *.
  assert (Hq : exists mrs e',
             shr (shr_record_of_loc (Zpos mz) loc_Exact) ez n1 = (mrs, e')
             /\ e' = fexp prec emax D
             /\ 0 <= shr_m mrs < 2 ^ (D - fexp prec emax D)
             /\ (c = 0 -> shr_r mrs = false)).
  { unfold shr. destruct n1 as [|p|p] eqn:En; [| |lia].
    - eexists _, _. split; [reflexivity|]. cbn. split; [lia|].
      split; [|reflexivity]. replace (D - fexp prec emax D) with (Zpos (digits2_pos mz)) by lia.
      lia.
    - eexists _, _. split; [reflexivity|].
      destruct (shr_iter p (shr_record_of_loc (Zpos mz) loc_Exact)) as [H1 H2]; [cbn; lia|].
      rewrite H1, H2. cbn [shr_record_of_loc shr_m]. split; [lia|]. split.
      + rewrite Z.shiftr_div_pow2 by lia. split; [apply Z.div_pos; lia|].
        apply Z.div_lt_upper_bound; [lia|].
        rewrite <- Z.pow_add_r; [|lia|unfold fexp, emin, prec, emax in *; lia].
        replace (Zpos p + (D - fexp prec emax D)) with (Zpos (digits2_pos mz)) by lia.
        lia.
      + intros Hc0. now apply Hfine. }
  destruct Hq as (mrs & e' & -> & He' & Hqb & Hr).
  set (m1 := round_nearest_even (shr_m mrs) (loc_of_shr_record mrs)).
  assert (Hm1 : 0 <= m1 < 2 ^ (D - fexp prec emax D + c)).
  { pose proof (round_nearest_even_bounds (shr_m mrs) (loc_of_shr_record mrs)) as Hb.
    fold m1 in Hb. assert (Hc' : c = 0 \/ c = 1) by lia. destruct Hc' as [->| ->].
    - unfold m1. rewrite round_nearest_even_down by auto. now rewrite Z.add_0_r.
    - rewrite Z.pow_add_r, Z.pow_1_r; [lia| |lia].
      unfold fexp, emin, prec, emax in *. lia. }
  assert (Hd1 : Zdigits2 m1 + e' <= D + c).
  { assert (Zdigits2 m1 <= D - fexp prec emax D + c); [|lia].
    apply Zdigits2_le; [unfold fexp, emin, prec, emax in *; lia | exact Hm1]. }
  set (n2 := fexp prec emax (Zdigits2 m1 + e') - e').
  assert (Hs : exists mrs2 e2,
             shr (shr_record_of_loc m1 loc_Exact) e' n2 = (mrs2, e2)
             /\ 0 <= shr_m mrs2 /\ e2 <= fexp prec emax (K + c)).
  { unfold shr. destruct n2 as [|p|p] eqn:En; eexists _, _; (split; [reflexivity|]).
    - cbn [shr_record_of_loc shr_m].
      split; [lia|]. unfold fexp, emin, prec, emax in *. lia.
    - destruct (shr_iter p (shr_record_of_loc m1 loc_Exact)) as [H1 _]; [cbn; lia|].
      rewrite H1. cbn [shr_record_of_loc shr_m].
      split; [apply Z.shiftr_nonneg; lia|]. unfold fexp, emin, prec, emax in *. lia.
    - cbn [shr_record_of_loc shr_m].
      split; [lia|]. unfold fexp, emin, prec, emax in *. lia. }
  destruct Hs as (mrs2 & e2 & -> & Hm2 & He2).
  destruct (shr_m mrs2) as [|m|m]; [now left| |lia].
  right. exists m, e2.
  assert (Hle : (e2 <=? emax - prec) = true).
  { apply Z.leb_le. unfold fexp, emin, prec, emax in *. lia. }
  rewrite Hle. auto.
Qed.


Lemma binary_round_bound (M : positive) (ez K c : Z) :
  let D := Zpos (digits2_pos M) + ez in
  -1074 <= ez -> D <= K -> K + 1 <= 1024 -> 0 <= c <= 1 ->
  (c = 0 -> forall p, fexp prec emax D - Z.min ez (fexp prec emax D) = Zpos p ->
            Z.testbit (Zpos M * 2 ^ (ez - Z.min ez (fexp prec emax D))) (Zpos p - 1)
            = false) ->
  binary_round prec emax false M ez = S754_zero false
  \/ exists m e,
       binary_round prec emax false M ez = S754_finite false m e
       /\ e <= fexp prec emax (K + c).
Proof.
  intros D Hez HK HK1 Hc Hfine. unfold binary_round. fold D.
  destruct (shl_align_spec M ez (fexp prec emax D)) as (H1 & H2 & H3).
  destruct (shl_align M ez (fexp prec emax D)) as [mz ez2]. cbn [fst snd] in *.
  apply binary_round_aux_bound; rewrite ?H3; fold D; try assumption.
  - unfold fexp, emin, prec, emax in *. lia.
  - intros Hc0 p Hp. rewrite H1, H2. apply Hfine; [exact Hc0|]. now rewrite <- H2.
Qed.

(** Adding 42 to a number below [2 ^ 60] gives a number below
    [2 ^ 60]: from [2 ^ 59] on the numbers are 128 apart, and 42 is
    rounded away. *)
Lemma add_42_small (m : positive) (e : Z) :
  bounded prec emax m e = true -> e <= 7 ->
  SFadd prec emax (S754_finite false m e) (S754_finite false 5910974510923776 (-47))
  = S754_zero false
  \/ exists m' e',
       SFadd prec emax (S754_finite false m e)
         (S754_finite false 5910974510923776 (-47))
       = S754_finite false m' e'
       /\ e' <= 7.
Proof.
  intros Hb He. unfold bounded, canonical_mantissa in Hb.
  apply andb_true_iff in Hb as [Hcan _]. apply Z.eqb_eq in Hcan.
  pose proof (digits2_bounds m) as Hm.
  assert (P53 : 2 ^ 53 = 9007199254740992) by reflexivity.
  assert (Hd : Zpos (digits2_pos m) <= 53 /\ -1074 <= e
               /\ (-1074 < e -> Zpos (digits2_pos m) = 53)).
  { unfold fexp, emin, prec, emax in Hcan. lia. }
  destruct Hd as (Hd53 & Hemin & Hnormal).
  assert (Hm53 : Zpos m < 2 ^ 53).
  { apply Z.lt_le_trans with (1 := proj2 Hm). apply Z.pow_le_mono_r; lia. }
  unfold SFadd. cbn [cond_Zopp].
  set (ez := Z.min e (-47)).
  destruct (shl_align_spec m e ez) as (A1 & A2 & _).
  destruct (shl_align_spec 5910974510923776 (-47) ez) as (B1 & B2 & _).
  set (A := fst (shl_align m e ez)) in *.
  set (B := fst (shl_align 5910974510923776 (-47) ez)) in *.
  rewrite A2 in A1. rewrite B2 in B1.
  replace (Z.min e ez) with ez in A1 by (unfold ez; lia).
  replace (Z.min (-47) ez) with ez in B1 by (unfold ez; lia).
  change (Zpos A + Zpos B) with (Zpos (A + B)). cbn [binary_normalize].
  assert (HM : Zpos (A + B) = Zpos m * 2 ^ (e - ez) + 5910974510923776 * 2 ^ (-47 - ez))
    by (rewrite Pos2Z.inj_add, A1, B1; reflexivity).
  destruct (Z.eq_dec e 7) as [->|Hne].
  - (* the numbers from [2 ^ 59] on *)
    assert (Hez : ez = -47) by (unfold ez; lia). rewrite Hez in *.
    change (7 - -47) with 54 in HM. change (-47 - -47) with 0 in HM.
    assert (P54 : 2 ^ 54 = 18014398509481984) by reflexivity.
    assert (P106 : 2 ^ 106 = 81129638414606681695789005144064) by reflexivity.
    assert (P107 : 2 ^ 107 = 162259276829213363391578010288128) by reflexivity.
    assert (Hm52 : 2 ^ 52 <= Zpos m).
    { rewrite Hnormal in Hm by lia. exact (proj1 Hm). }
    assert (P52 : 2 ^ 52 = 4503599627370496) by reflexivity.
    assert (Hdig : Zpos (digits2_pos (A + B)) = 107).
    { assert (Zpos (digits2_pos (A + B)) <= 107) by (apply digits2_le; lia).
      assert (106 < Zpos (digits2_pos (A + B))) by (apply digits2_ge; lia). lia. }
    destruct (binary_round_bound (A + B) (-47) 60 0) as [H|(m' & e' & H & He')];
      rewrite ?Hdig; try lia.
    + intros _ p Hp. cbn in Hp. injection Hp as <-.
      change (Z.min (-47) (fexp prec emax (107 + -47))) with (-47).
      change (-47 - -47) with 0. rewrite Z.mul_1_r, HM.
      change (54 - 1) with 53. rewrite Z.testbit_odd, Z.shiftr_div_pow2 by lia.
      replace (Zpos m * 2 ^ 54 + 5910974510923776 * 2 ^ 0)
        with (2 * Zpos m * 2 ^ 53 + 5910974510923776) by lia.
      rewrite Z.div_add_l by lia. rewrite (Z.div_small 5910974510923776) by lia.
      rewrite Z.add_0_r, Z.odd_mul. reflexivity.
    + now left.
    + right. exists m', e'. split; [exact H|]. exact He'.
  - (* the numbers below [2 ^ 59] *)
    assert (Hbound : Zpos (A + B) < 2 ^ (59 - ez)).
    { rewrite HM. destruct (Z_le_gt_dec (-47) e) as [Hge|Hlt].
      - assert (Hez : ez = -47) by (unfold ez; lia). rewrite Hez.
        change (-47 - -47) with 0. change (59 - -47) with 106.
        assert (P106 : 2 ^ 106 = 81129638414606681695789005144064) by reflexivity.
        assert (Hp : 0 < 2 ^ (e - -47) <= 2 ^ 53).
        { split; [apply Z.pow_pos_nonneg; lia | apply Z.pow_le_mono_r; lia]. }
        nia.
      - assert (Hez : ez = e) by (unfold ez; lia). rewrite Hez.
        rewrite Z.sub_diag. replace (59 - e) with (106 + (-47 - e)) by lia.
        rewrite Z.pow_add_r by lia.
        assert (P106 : 2 ^ 106 = 81129638414606681695789005144064) by reflexivity.
        assert (Hp : 0 < 2 ^ (-47 - e)) by (apply Z.pow_pos_nonneg; lia).
        nia. }
    assert (Hez : -1074 <= ez <= 7) by (unfold ez; lia).
    destruct (binary_round_bound (A + B) ez 59 1) as [H|(m' & e' & H & He')]; try lia.
    + assert (Zpos (digits2_pos (A + B)) <= 59 - ez) by (apply digits2_le; lia). lia.
    + now left.
    + right. exists m', e'. split; [exact H|]. exact He'.
Qed.

(** The clock of the frame loop never leaves the numbers below
    [2 ^ 60]. *)
Lemma clock_small (k : nat) :
  Prim2SF (VideoCompression64.clock k) = S754_zero false
  \/ exists m e, Prim2SF (VideoCompression64.clock k) = S754_finite false m e /\ e <= 7.
Proof.
  induction k as [|k IH]; [now left|].
  cbn [VideoCompression64.clock]. rewrite add_spec.
  change (Prim2SF VideoCompression64.frameInterval)
    with (S754_finite false 5910974510923776 (-47)).
  pose proof (Prim2SF_valid (VideoCompression64.clock k)) as Hv.
  destruct IH as [->|(m & e & Hk & He)].
  - right. exists 5910974510923776%positive, (-47). split; [reflexivity | lia].
  - rewrite Hk in *. apply add_42_small; assumption.
Qed.

(** Comparing the other way round gives the opposite. *)
Lemma SFcompare_antisym (x y : spec_float) :
  SFcompare y x = option_map CompOpp (SFcompare x y).
Proof.
  destruct x as [sx|sx| |sx mx ex], y as [sy|sy| |sy my ey];
    try destruct sx; try destruct sy; cbn; try reflexivity;
    rewrite (Z.compare_antisym ex ey); destruct (ex ?= ey); cbn; try reflexivity;
    pose proof (Pos.compare_cont_antisym mx my Eq) as H; cbn [CompOpp] in H;
    rewrite <- H; now destruct (Pos.compare_cont Eq mx my).
Qed.

(** A frame's time that has not reached a bound is below it, when the
    bound is a number. *)
Lemma clock_below (k : nat) (L : float) :
  Prim2SF L <> S754_nan ->
  VideoCompression64.geb (VideoCompression64.clock k) L = false ->
  VideoCompression64.ltb (VideoCompression64.clock k) L = true.
Proof.
  unfold VideoCompression64.geb, VideoCompression64.ltb.
  rewrite FloatAxioms.leb_spec, FloatAxioms.ltb_spec. unfold SFleb, SFltb.
  rewrite (SFcompare_antisym (Prim2SF L)). intros HL.
  destruct (Prim2SF L) as [sl|sl| |sl ml el]; [| |contradiction|];
    destruct (clock_small k) as [->|(m & e & -> & _)]; cbn;
    try destruct sl; cbn; try discriminate; try reflexivity;
    destruct (el ?= e); cbn; try discriminate; try reflexivity;
    destruct (Pos.compare_cont Eq ml m); cbn; try discriminate; reflexivity.
Qed.

(** A bound that some number has reached is a number. *)
Lemma reached_number (a L : float) :
  VideoCompression64.geb a L = true -> Prim2SF L <> S754_nan.
Proof.
  unfold VideoCompression64.geb. rewrite FloatAxioms.leb_spec. unfold SFleb.
  intros H E. rewrite E in H. discriminate H.
Qed.

(** A number below another has not reached it. *)
Lemma below_not_reached (a L : float) :
  VideoCompression64.ltb a L = true -> VideoCompression64.geb a L = false.
Proof.
  unfold VideoCompression64.geb, VideoCompression64.ltb.
  rewrite FloatAxioms.leb_spec, FloatAxioms.ltb_spec. unfold SFleb, SFltb.
  rewrite (SFcompare_antisym (Prim2SF a)).
  destruct (SFcompare (Prim2SF a) (Prim2SF L)) as [[]|]; cbn; congruence.
Qed.

(** Every frame's time is below [Infinity]. *)
Lemma clock_below_infinity (k : nat) :
  VideoCompression64.geb (VideoCompression64.clock k) infinity = false
  /\ VideoCompression64.ltb (VideoCompression64.clock k) infinity = true.
Proof.
  unfold VideoCompression64.geb, VideoCompression64.ltb.
  rewrite FloatAxioms.leb_spec, FloatAxioms.ltb_spec.
  change (Prim2SF infinity) with (S754_infinity false).
  destruct (clock_small k) as [->|(m & e & -> & _)]; split; reflexivity.
Qed.

End Rounding64.

(** ** Video compression in binary64 *)

(** The handlers keep [steady] whatever the browser raises; with a bound
    [L] that frame [n] is the first to reach they keep [bounded] too, and
    a call under way comes to its end along [play]. *)

Section Binary64.

Import VideoCompression64.

Variable L : float.

#[local] Arguments geb : simpl never.
#[local] Arguments ltb : simpl never.
#[local] Arguments target : simpl never.
#[local] Arguments clock : simpl never.
#[local] Arguments redraws : simpl never.
#[local] Arguments repeats : simpl never.

Lemma redraws_S64 (i : nat) :
  redraws (S i) = redraws i ++ [mkDraw (target i) 0 0 targetWidth targetHeight].
Proof. unfold redraws. now rewrite seq_S, map_app. Qed.

Lemma repeats_snoc (extra : list nat) (c : nat) :
  forall k : nat,
  repeats (extra ++ [c]) k
  = repeats extra k ++ repeat (target (k + length extra)) (S c).
Proof.
  induction extra as [|a extra IH]; intros k.
  - cbn [app length]. unfold repeats. now rewrite Nat.add_0_r, app_nil_r.
  - cbn [app length]. unfold repeats; fold repeats.
    rewrite IH, <- app_assoc, Nat.add_succ_r. reflexivity.
Qed.

Lemma repeat_snoc (x : float) (c : nat) : repeat x c ++ [x] = repeat x (S c).
Proof. symmetry. apply (repeat_cons c x). Qed.

Ltac steady_in H :=
  destruct H as (Hcanvas & Hstream & [st Hrec] & Hlimit & Hhandler & Htime & Hdraws
                 & Hextra & Hseeks & Hpos & Hstop & Htimers);
  unfold limit in Hlimit.

Lemma steady_timers (i : nat) (extra : list nat) (pending : nat)
    (t : list VideoCompression.Timer) (s : State) :
  steady L i extra pending s -> (length t <= i)%nat ->
  steady L i extra pending (set_timers t s).
Proof.
  intros H Ht. steady_in H. unfold steady, limit.
  repeat split; try assumption; try (eexists; exact Hrec); try (eexists; reflexivity); apply Hpos; assumption.
Qed.

Lemma steady_recorderStop (i : nat) (extra : list nat) (pending : nat) (s : State) :
  steady L i extra pending s -> steady L i extra pending (recorderStop s).
Proof.
  intros H. pose proof H as H0. steady_in H. unfold recorderStop. rewrite Hrec.
  destruct st; cbn [VideoCompression.state]; [exact H0|].
  unfold steady, limit. cbn.
  repeat split; try assumption; try (eexists; exact Hrec); try (eexists; reflexivity); apply Hpos; assumption.
Qed.

Lemma steady_drawFrame (i : nat) (extra : list nat) (pending : nat) (s : State) :
  steady L i extra pending s ->
  exists pending', steady L i extra pending' (drawFrame s).
Proof.
  intros H. pose proof H as H0. steady_in H. unfold drawFrame, limit.
  rewrite Htime, Hlimit. destruct (geb (clock i) L) eqn:G.
  - exists pending. now apply steady_recorderStop.
  - change (clock i / 1000)%float with (target i).
    destruct (seeking s) eqn:Sk.
    + exists (S pending). unfold steady, limit. cbn. rewrite Hseeks.
      repeat split; try assumption; eauto.
      now rewrite <- app_assoc, repeat_snoc.
    + exists 0%nat. unfold steady, limit. cbn. rewrite Hseeks.
      repeat split; try assumption; eauto.
      now rewrite app_nil_r.
Qed.

Lemma steady_onSeeked (i : nat) (extra : list nat) (pending : nat) (s : State) :
  steady L i extra pending s -> seeking s = true ->
  steady L (S i) (extra ++ [pending]) 0 (onSeeked s).
Proof.
  intros H Sk. steady_in H. destruct (Hpos Sk) as [Hp _].
  rewrite Sk in Hseeks. unfold onSeeked, limit. cbn. rewrite Htime, Hp, Hlimit.
  change (clock i + frameInterval)%float with (clock (S i)).
  assert (Hs : repeats extra 0 ++ repeat (target i) (S pending)
               = repeats (extra ++ [pending]) 0 ++ []).
  { now rewrite repeats_snoc, Hextra, app_nil_r. }
  destruct (ltb (clock (S i)) L);
    unfold steady, limit; cbn; rewrite Hseeks, Hs, redraws_S64, Hdraws;
    repeat split; try assumption; try (eexists; exact Hrec); try discriminate;
    rewrite ?length_app; cbn; lia.
Qed.


Ltac branches :=
  repeat match goal with
         | |- context [if ?b then _ else _] => destruct b
         | |- context [match ?x with _ => _ end] => destruct x
         end.

(** The handlers of the frame loop touch neither the chunks nor the
    promise. *)
Lemma loop_keeps (s : State) :
  (chunks (drawFrame s) = chunks s /\ promise (drawFrame s) = promise s)
  /\ (chunks (onSeeked s) = chunks s /\ promise (onSeeked s) = promise s)
  /\ (chunks (recorderStop s) = chunks s /\ promise (recorderStop s) = promise s).
Proof.
  unfold drawFrame, onSeeked, recorderStop. repeat split; branches; reflexivity.
Qed.

Lemma delivered_snoc (pre : list Event) (e : Event) :
  delivered (pre ++ [e]) = delivered pre ++ delivered [e].
Proof. apply (omap_app _ pre [e]). Qed.

(** One event more: the chunks are those delivered, and a resolved
    promise holds the blob of those delivered before the [stop] event that
    resolved it. *)
Lemma blob_step (e : Event) (pre : list Event) (s : State) :
  isLoadedMetadata e = false ->
  (exists r, recorder s = Some r) ->
  chunks s = delivered pre ->
  (forall b, promise s = VideoCompression.Resolved b ->
     exists es1 es2,
       pre = es1 ++ RecorderStop :: es2 /\ b = newBlob (delivered es1) "video/webm") ->
  chunks (handle e s) = delivered (pre ++ [e])
  /\ (forall b, promise (handle e s) = VideoCompression.Resolved b ->
        exists es1 es2,
          pre ++ [e] = es1 ++ RecorderStop :: es2
          /\ b = newBlob (delivered es1) "video/webm").
Proof.
  intros He [r Hr] Hc Hres. rewrite delivered_snoc.
  assert (Hold : forall b, promise s = VideoCompression.Resolved b ->
            exists es1 es2,
              pre ++ [e] = es1 ++ RecorderStop :: es2
              /\ b = newBlob (delivered es1) "video/webm").
  { intros b Hb. destruct (Hres b Hb) as (es1 & es2 & -> & ->).
    exists es1, (es2 ++ [e]). split; [|reflexivity].
    now rewrite <- app_assoc. }
  destruct (loop_keeps s) as ((Hd1 & Hd2) & (Hs1 & Hs2) & (Hr1 & Hr2)).
  destruct e as [d sup| | | |b| |err|message]; try discriminate He; cbn [handle];
    try match goal with
        | |- context [delivered [?e]] =>
            match e with
            | DataAvailable _ => idtac
            | _ => change (delivered [e]) with (@nil Blob); rewrite app_nil_r
            end
        end.
  - destruct (canplayHandler s); rewrite ?Hd1, ?Hd2; auto.
  - destruct (seeking s); rewrite ?Hs1, ?Hs2; auto.
  - destruct (timers s) as [|[ms|ms] rest]; [auto| |].
    + destruct (loop_keeps (set_timers rest s)) as ((H1 & H2) & _).
      rewrite H1, H2. auto.
    + destruct (loop_keeps (set_timers rest s)) as (_ & _ & (H1 & H2)).
      rewrite H1, H2. auto.
  - unfold onDataAvailable. rewrite Hr.
    assert (Hd : delivered [DataAvailable b]
                 = if (0 <? blob_size b)%nat then [b] else [])
      by (unfold delivered, omap, list_omap; now destruct (0 <? blob_size b)%nat).
    rewrite Hd. destruct (0 <? blob_size b)%nat; cbn; rewrite ?app_nil_r, ?Hc;
      split; auto.
  - destruct (stopping s); [|split; auto].
    unfold onStop, settle. cbn.
    destruct (promise s) eqn:Ep; cbn; (split; [exact Hc|]); intros b1 Hb1;
      first [ discriminate Hb1
            | injection Hb1 as <-; exists pre, []; now rewrite Hc
            | apply Hold; congruence ].
  - rewrite Hr. unfold settle. cbn.
    destruct (promise s) eqn:Ep; cbn; (split; [exact Hc|]); intros b1 Hb1;
      first [ discriminate Hb1 | apply Hold; congruence ].
  - unfold settle. cbn.
    destruct (promise s) eqn:Ep; cbn; (split; [exact Hc|]); intros b1 Hb1;
      first [ discriminate Hb1 | apply Hold; congruence ].
Qed.

Lemma steady_onDataAvailable (i : nat) (extra : list nat) (pending : nat) (b : Blob)
    (s : State) :
  steady L i extra pending s -> steady L i extra pending (onDataAvailable b s).
Proof.
  intros H. pose proof H as H0. steady_in H. unfold onDataAvailable. rewrite Hrec.
  destruct (0 <? blob_size b)%nat; [|exact H0].
  unfold steady, limit. cbn. repeat split; try assumption; try (eexists; exact Hrec); try (eexists; reflexivity); apply Hpos; assumption.
Qed.

Lemma steady_settle (i : nat) (extra : list nat) (pending : nat)
    (p : VideoCompression.Promise) (s : State) :
  steady L i extra pending s ->
  steady L i extra pending (settle p (set_urlRevoked true s)).
Proof.
  intros H. steady_in H. unfold settle. cbn.
  destruct (promise s); unfold steady, limit; cbn;
    repeat split; try assumption; try (eexists; exact Hrec); try (eexists; reflexivity); apply Hpos; assumption.
Qed.

Lemma steady_onStop (i : nat) (extra : list nat) (pending : nat) (s : State) :
  steady L i extra pending s -> steady L i extra pending (onStop s).
Proof.
  intros H. steady_in H. unfold onStop, settle. cbn.
  destruct (promise s); unfold steady, limit; cbn;
    repeat split; try assumption; try (eexists; exact Hrec); try discriminate; apply Hpos; assumption.
Qed.

Lemma steady_handle (e : Event) (i : nat) (extra : list nat) (pending : nat)
    (s : State) :
  isLoadedMetadata e = false ->
  steady L i extra pending s ->
  exists i' extra' pending',
    steady L i' extra' pending' (handle e s)
    /\ (i' = i \/ i' = S i /\ geb (clock i) L = false).
Proof.
  intros He H. pose proof H as H0. steady_in H.
  destruct e as [d sup| | | |b| |err|message]; try discriminate He; cbn [handle].
  - rewrite Hhandler. destruct (steady_drawFrame i extra pending s H0) as [p' Hp'].
    exists i, extra, p'. auto.
  - destruct (seeking s) eqn:Sk; [|exists i, extra, pending; auto].
    exists (S i), (extra ++ [pending]), 0%nat.
    split; [now apply steady_onSeeked | right; split; [reflexivity | now apply Hpos]].
  - destruct (timers s) as [|[ms|ms] rest] eqn:Et; [exists i, extra, pending; auto| |].
    + assert (Hr : steady L i extra pending (set_timers rest s))
        by (apply steady_timers; [exact H0 | cbn in Htimers; lia]).
      destruct (steady_drawFrame i extra pending _ Hr) as [p' Hp'].
      exists i, extra, p'. auto.
    + assert (Hr : steady L i extra pending (set_timers rest s))
        by (apply steady_timers; [exact H0 | cbn in Htimers; lia]).
      exists i, extra, pending. split; [now apply steady_recorderStop | auto].
  - exists i, extra, pending. split; [now apply steady_onDataAvailable | auto].
  - exists i, extra, pending.
    split; [destruct (stopping s); [now apply steady_onStop | exact H0] | auto].
  - rewrite Hrec. exists i, extra, pending. split; [now apply steady_settle | auto].
  - exists i, extra, pending. split; [now apply steady_settle | auto].
Qed.

Lemma steady_chunks (i : nat) (extra : list nat) (pending : nat) (c : list Blob)
    (s : State) :
  steady L i extra pending s -> steady L i extra pending (set_chunks c s).
Proof.
  intros H. steady_in H. unfold steady, limit. cbn.
  repeat split; try assumption; try (eexists; exact Hrec); apply Hpos; assumption.
Qed.

Lemma deliver_chunks (batch : list Blob) :
  forall s : State,
  (exists r, recorder s = Some r) ->
  deliver batch s
  = set_chunks (chunks s ++ List.filter (fun b => (0 <? blob_size b)%nat) batch) s.
Proof.
  induction batch as [|b batch IH]; intros s [r Hr].
  - cbn. rewrite app_nil_r. now destruct s.
  - unfold deliver. cbn [fold_left handle]. fold (deliver batch (onDataAvailable b s)).
    unfold onDataAvailable. rewrite Hr. cbn [List.filter].
    destruct (0 <? blob_size b)%nat.
    + rewrite IH by (cbn; eauto). cbn. now rewrite <- app_assoc.
    + apply IH. eauto.
Qed.

(** Whatever the events, the state stays one of the frame loop, no frame
    is drawn whose time has reached the bound, the chunks are the blobs
    delivered, and a promise resolved holds those delivered before the
    recorder's [stop] event. *)
Lemma run_steady (es : list Event) :
  forall (pre : list Event) (s : State) (i : nat) (extra : list nat) (pending : nat),
  forallb (fun e => negb (isLoadedMetadata e)) es = true ->
  steady L i extra pending s ->
  (forall k, (k < i)%nat -> geb (clock k) L = false) ->
  chunks s = delivered pre ->
  (forall b, promise s = VideoCompression.Resolved b ->
     exists es1 es2,
       pre = es1 ++ RecorderStop :: es2 /\ b = newBlob (delivered es1) "video/webm") ->
  (exists i' extra' pending',
     steady L i' extra' pending' (runEvents es s)
     /\ (forall k, (k < i')%nat -> geb (clock k) L = false))
  /\ chunks (runEvents es s) = delivered (pre ++ es)
  /\ (forall b, promise (runEvents es s) = VideoCompression.Resolved b ->
        exists es1 es2,
          pre ++ es = es1 ++ RecorderStop :: es2
          /\ b = newBlob (delivered es1) "video/webm").
Proof.
  induction es as [|e es IH]; intros pre s i extra pending Hes H Hlow Hc Hres.
  - cbn. rewrite app_nil_r. eauto 8.
  - cbn [forallb] in Hes. apply andb_true_iff in Hes as [He Hes].
    apply negb_true_iff in He.
    destruct (steady_handle e i extra pending s He H) as (i' & x' & p' & H' & Hi).
    assert (Hlow' : forall k, (k < i')%nat -> geb (clock k) L = false).
    { intros k Hk. destruct Hi as [->|[-> Hg]]; [now apply Hlow|].
      destruct (Nat.eq_dec k i) as [->|Hne]; [exact Hg | apply Hlow; lia]. }
    assert (Hr : exists r, recorder s = Some r)
      by (destruct H as (_ & _ & [st Hr] & _); eauto).
    destruct (blob_step e pre s He Hr Hc Hres) as [Hc' Hres'].
    specialize (IH (pre ++ [e]) (handle e s) i' x' p' Hes H' Hlow' Hc' Hres').
    rewrite <- app_assoc in IH. exact IH.
Qed.

(** *** A bound that is never reached *)

(** When every frame's time is below the bound, the recorder is never
    stopped and the promise never resolved. *)
Lemma unbounded_step (e : Event) (i : nat) (extra : list nat) (pending : nat)
    (s : State) :
  (forall k, geb (clock k) L = false /\ ltb (clock k) L = true) ->
  isLoadedMetadata e = false ->
  steady L i extra pending s ->
  inactive s = false /\ stopping s = false
  /\ existsb isStopTimer (timers s) = false
  /\ (forall b, promise s <> VideoCompression.Resolved b) ->
  inactive (handle e s) = false /\ stopping (handle e s) = false
  /\ existsb isStopTimer (timers (handle e s)) = false
  /\ (forall b, promise (handle e s) <> VideoCompression.Resolved b).
Proof.
  intros Hun He H (Hin & Hst & Hno & Hp). pose proof H as H0. steady_in H.
  assert (Hdraw : forall s1 : State,
            currentTime s1 = clock i -> limit s1 = L ->
            inactive s1 = false -> stopping s1 = false ->
            existsb isStopTimer (timers s1) = false ->
            (forall b, promise s1 <> VideoCompression.Resolved b) ->
            inactive (drawFrame s1) = false /\ stopping (drawFrame s1) = false
            /\ existsb isStopTimer (timers (drawFrame s1)) = false
            /\ (forall b, promise (drawFrame s1) <> VideoCompression.Resolved b)).
  { intros s1 Ht Hl A B C D. unfold drawFrame. rewrite Ht, Hl, (proj1 (Hun i)).
    cbn. auto. }
  destruct e as [d sup| | | |b| |err|message]; try discriminate He; cbn [handle].
  - rewrite Hhandler. now apply Hdraw.
  - destruct (seeking s); [|repeat split; auto].
    unfold onSeeked, limit. cbn. rewrite Htime, Hlimit.
    change (clock i + frameInterval)%float with (clock (S i)).
    rewrite (proj2 (Hun (S i))). cbn. rewrite existsb_app, Hno. cbn.
    repeat split; auto.
  - destruct (timers s) as [|[ms|ms] rest] eqn:Et;
      [repeat split; auto; now rewrite Et| |].
    + apply Hdraw; auto.
    + cbn in Hno. discriminate Hno.
  - unfold onDataAvailable. rewrite Hrec.
    destruct (0 <? blob_size b)%nat; cbn; repeat split; auto.
  - rewrite Hst. repeat split; auto.
  - rewrite Hrec. unfold settle. cbn.
    destruct (promise s) eqn:Ep; cbn; rewrite ?Ep; repeat split; auto; discriminate.
  - unfold settle. cbn.
    destruct (promise s) eqn:Ep; cbn; rewrite ?Ep; repeat split; auto; discriminate.
Qed.

(** When every frame's time is below the bound, the recorder is never
    stopped and the promise never resolved. *)
Lemma run_unbounded (es : list Event) :
  (forall k, geb (clock k) L = false /\ ltb (clock k) L = true) ->
  forall (s : State) (i : nat) (extra : list nat) (pending : nat),
  forallb (fun e => negb (isLoadedMetadata e)) es = true ->
  steady L i extra pending s ->
  inactive s = false /\ stopping s = false
  /\ existsb isStopTimer (timers s) = false
  /\ (forall b, promise s <> VideoCompression.Resolved b) ->
  inactive (runEvents es s) = false
  /\ forall b, promise (runEvents es s) <> VideoCompression.Resolved b.
Proof.
  intros Hun. induction es as [|e es IH]; intros s i extra pending Hes H Hrun.
  - cbn. tauto.
  - cbn [forallb] in Hes. apply andb_true_iff in Hes as [He Hes].
    apply negb_true_iff in He.
    destruct (steady_handle e i extra pending s He H) as (i' & x' & p' & H' & _).
    apply (IH (handle e s) i' x' p' Hes H').
    now apply (unbounded_step e i extra pending).
Qed.

(** *** The frames stop at [n] *)
(** *** The frames stop at [n] *)

Variable n : nat.
Hypothesis stops : frames L n = true.

Lemma frames_seek (k : nat) : (k < n)%nat -> geb (clock k) L = false.
Proof.
  intros Hk. unfold frames in stops. apply andb_true_iff in stops as [H _].
  apply negb_true_iff, (proj1 (forallb_forall _ _) H), in_seq. lia.
Qed.

Lemma frames_stop : geb (clock n) L = true.
Proof. unfold frames in stops. now apply andb_true_iff in stops as [_ H]. Qed.

Lemma frames_again (k : nat) : (k < n)%nat -> ltb (clock k) L = true.
Proof.
  intros Hk. apply clock_below; [exact (reached_number _ _ frames_stop)|].
  now apply frames_seek.
Qed.

Lemma inactive_recorderStop (s : State) (st : VideoCompression.RecorderState)
    (mime : string) (bits : Z) :
  recorder s = Some (VideoCompression.mkRecorder mime bits st) ->
  inactive (recorderStop s) = true
  /\ seeking (recorderStop s) = seeking s
  /\ timers (recorderStop s) = timers s
  /\ promise (recorderStop s) = promise s
  /\ chunks (recorderStop s) = chunks s
  /\ (stopping (recorderStop s) = true <-> stopping s = true \/ inactive s = false).
Proof.
  intros Hr. unfold recorderStop, inactive. rewrite Hr. cbn.
  destruct st; cbn; rewrite ?Hr; cbn; intuition congruence.
Qed.

Lemma bounded_recorderStop (i : nat) (extra : list nat) (pending : nat) (s : State) :
  steady L i extra pending s -> bounded n i s -> i = n ->
  bounded n i (recorderStop s).
Proof.
  intros H (Hle & Hsk & Hend & Hres) Hi. steady_in H.
  destruct (inactive_recorderStop s st _ _ Hrec) as (Hin & Hs & Ht & Hp & _ & _).
  unfold bounded. rewrite Hs, Ht, Hp, Hin. repeat split; auto.
Qed.

Lemma bounded_drawFrame (i : nat) (extra : list nat) (pending : nat) (s : State) :
  steady L i extra pending s -> bounded n i s -> bounded n i (drawFrame s).
Proof.
  intros H Hb. pose proof H as H0. pose proof Hb as Hb0.
  destruct Hb as (Hle & Hsk & Hend & Hres). steady_in H.
  unfold drawFrame, limit. rewrite Htime, Hlimit.
  destruct (geb (clock i) L) eqn:G.
  - apply (bounded_recorderStop i extra pending); [assumption..|].
    destruct (Nat.eq_dec i n) as [|Hne]; [assumption|].
    rewrite frames_seek in G by lia. discriminate.
  - assert (Hlt : (i < n)%nat).
    { destruct (Nat.eq_dec i n) as [->|Hne]; [|lia].
      rewrite frames_stop in G. discriminate. }
    unfold bounded. cbn. repeat split; auto.
Qed.

Lemma bounded_onSeeked (i : nat) (extra : list nat) (pending : nat) (s : State) :
  steady L i extra pending s -> bounded n i s -> seeking s = true ->
  bounded n (S i) (onSeeked s).
Proof.
  intros H (Hle & Hsk & Hend & Hres) Sk. steady_in H. specialize (Hsk Sk).
  assert (Hnot : inactive s = false /\ existsb isStopTimer (timers s) = false).
  { destruct (inactive s) eqn:E1; [exfalso; assert (i = n) by auto; lia|].
    destruct (existsb isStopTimer (timers s)) eqn:E2;
      [exfalso; assert (i = n) by auto; lia | auto]. }
  destruct Hnot as [Hin Hno].
  assert (Hin' : forall t v d,
            inactive (set_timers t (set_currentTime v (set_draws d (set_seeking false s))))
            = false) by (intros; exact Hin).
  unfold onSeeked, limit. cbn. rewrite Htime, Hlimit.
  change (clock i + frameInterval)%float with (clock (S i)).
  destruct (ltb (clock (S i)) L) eqn:T; unfold bounded; cbn; rewrite Hin', existsb_app, Hno;
    cbn; repeat split; try lia; try discriminate; try (intros [?|?]; discriminate).
  - intros b Hb. apply Hres in Hb. congruence.
  - intros _. destruct (Nat.eq_dec (S i) n) as [|Hne]; [assumption|].
    rewrite frames_again in T by lia. discriminate.
  - intros b Hb. apply Hres in Hb. congruence.
Qed.


Lemma bounded_timers (i : nat) (t : VideoCompression.Timer)
    (rest : list VideoCompression.Timer) (s : State) :
  timers s = t :: rest -> bounded n i s -> bounded n i (set_timers rest s).
Proof.
  intros Ht (Hle & Hsk & Hend & Hres). unfold bounded. cbn. repeat split; auto.
  intros [H | H]; apply Hend; [now left | right].
  rewrite Ht. cbn. rewrite H. apply orb_true_r.
Qed.

Lemma bounded_quiet (i : nat) (s s' : State) :
  seeking s' = seeking s -> timers s' = timers s -> inactive s' = inactive s ->
  (forall b, promise s' = VideoCompression.Resolved b -> inactive s = true) ->
  bounded n i s -> bounded n i s'.
Proof.
  intros Hs Ht Hi Hp (Hle & Hsk & Hend & Hres). unfold bounded.
  rewrite Hs, Ht, Hi. repeat split; auto.
Qed.

Lemma step (e : Event) (i : nat) (extra : list nat) (pending : nat) (s : State) :
  isLoadedMetadata e = false ->
  steady L i extra pending s -> bounded n i s ->
  exists i' extra' pending',
    steady L i' extra' pending' (handle e s) /\ bounded n i' (handle e s).
Proof.
  intros He H Hb. pose proof H as H0. pose proof Hb as Hb0.
  destruct Hb as (Hle & Hsk & Hend & Hres). steady_in H.
  destruct e as [d sup| | | |b| |err|message]; try discriminate He; cbn [handle].
  - rewrite Hhandler. destruct (steady_drawFrame i extra pending s H0) as [p' Hp'].
    exists i, extra, p'. split; [exact Hp'|].
    now apply (bounded_drawFrame i extra pending).
  - destruct (seeking s) eqn:Sk; [|now exists i, extra, pending].
    exists (S i), (extra ++ [pending]), 0%nat.
    split; [now apply steady_onSeeked | now apply (bounded_onSeeked i extra pending)].
  - destruct (timers s) as [|[ms|ms] rest] eqn:Et; [now exists i, extra, pending| |].
    + assert (Hr : steady L i extra pending (set_timers rest s))
        by (apply steady_timers; [exact H0 | cbn in Htimers; lia]).
      assert (Hbr : bounded n i (set_timers rest s))
        by (eapply bounded_timers; eassumption).
      destruct (steady_drawFrame i extra pending _ Hr) as [p' Hp'].
      exists i, extra, p'. split; [exact Hp'|].
      now apply (bounded_drawFrame i extra pending).
    + assert (Hr : steady L i extra pending (set_timers rest s))
        by (apply steady_timers; [exact H0 | cbn in Htimers; lia]).
      assert (Hbr : bounded n i (set_timers rest s))
        by (eapply bounded_timers; eassumption).
      assert (Hi : i = n) by (apply Hend; right; reflexivity).
      exists i, extra, pending.
      split; [now apply steady_recorderStop
             | now apply (bounded_recorderStop i extra pending)].
  - exists i, extra, pending. split; [now apply steady_onDataAvailable|].
    apply (bounded_quiet i s); try exact Hb0;
      unfold onDataAvailable; rewrite Hrec; destruct (0 <? blob_size b)%nat; auto.
  - destruct (stopping s) eqn:Es; [|exists i, extra, pending; split; assumption].
    exists i, extra, pending. split; [now apply steady_onStop|].
    apply (bounded_quiet i s); try exact Hb0; unfold onStop, settle; cbn;
      destruct (promise s); auto.
  - rewrite Hrec. exists i, extra, pending. split; [now apply steady_settle|].
    apply (bounded_quiet i s); try exact Hb0; unfold settle; cbn;
      destruct (promise s) eqn:Ep; cbn; auto; try discriminate;
      try (intros b0 Hb1; apply (Hres b0); congruence).
  - exists i, extra, pending. split; [now apply steady_settle|].
    apply (bounded_quiet i s); try exact Hb0; unfold settle; cbn;
      destruct (promise s) eqn:Ep; cbn; auto; try discriminate;
      try (intros b0 Hb1; apply (Hres b0); congruence).
Qed.



(** *** The loop comes to its end *)

Lemma timers_recorderStop (s : State) : timers (recorderStop s) = timers s.
Proof.
  unfold recorderStop. destruct (recorder s) as [[mime bits []]|]; reflexivity.
Qed.

Lemma seeking_recorderStop (s : State) : seeking (recorderStop s) = seeking s.
Proof.
  unfold recorderStop. destruct (recorder s) as [[mime bits []]|]; reflexivity.
Qed.

Lemma chunks_recorderStop (s : State) : chunks (recorderStop s) = chunks s.
Proof.
  unfold recorderStop. destruct (recorder s) as [[mime bits []]|]; reflexivity.
Qed.

Lemma timers_drawFrame (s : State) : timers (drawFrame s) = timers s.
Proof.
  unfold drawFrame. destruct (geb (currentTime s) (limit s));
    [apply timers_recorderStop | reflexivity].
Qed.

Lemma chunks_drawFrame (s : State) : chunks (drawFrame s) = chunks s.
Proof.
  unfold drawFrame. destruct (geb (currentTime s) (limit s));
    [apply chunks_recorderStop | reflexivity].
Qed.

Lemma chunks_onSeeked (s : State) : chunks (onSeeked s) = chunks s.
Proof.
  unfold onSeeked. cbn.
  match goal with |- context [if ?c then _ else _] => destruct c end; reflexivity.
Qed.

Lemma underway_recorderStop (s : State) :
  (exists r, recorder s = Some r) ->
  promise s = VideoCompression.Pending ->
  (inactive s = true -> stopping s = true) ->
  underway (recorderStop s).
Proof.
  intros [[mime bits st] Hr] Hp Hin. revert Hin.
  unfold underway, recorderStop, inactive. rewrite Hr. cbn.
  destruct st; cbn; rewrite ?Hr; cbn; intros Hin; repeat split; auto.
Qed.

Lemma underway_drawFrame (s : State) :
  (exists r, recorder s = Some r) ->
  promise s = VideoCompression.Pending ->
  (inactive s = true -> stopping s = true) ->
  underway (drawFrame s).
Proof.
  intros Hr Hp Hin. unfold drawFrame.
  destruct (geb (currentTime s) (limit s)); [now apply underway_recorderStop|].
  unfold underway. cbn. repeat split; auto.
Qed.

Lemma underway_onSeeked (s : State) : underway s -> underway (onSeeked s).
Proof.
  intros (Hp & Hin & _). unfold onSeeked. cbn.
  match goal with |- context [if ?c then _ else _] => destruct c end;
    unfold underway; cbn; repeat split; auto;
    right; left; intros E; apply app_eq_nil in E as [_ E]; discriminate E.
Qed.

(** Every event in which nothing fails keeps the loop under way. *)
Lemma quiet_step (e : Event) (i : nat) (extra : list nat) (pending : nat) (s : State) :
  quiet e = true ->
  steady L i extra pending s -> bounded n i s -> underway s ->
  exists i' extra' pending',
    steady L i' extra' pending' (handle e s) /\ bounded n i' (handle e s)
    /\ underway (handle e s).
Proof.
  intros Hq H Hb Hu.
  assert (He : isLoadedMetadata e = false) by (destruct e; try reflexivity; discriminate Hq).
  destruct (step e i extra pending s He H Hb) as (i' & x' & p' & H' & Hb').
  exists i', x', p'. split; [exact H'|]. split; [exact Hb'|].
  pose proof Hu as (Hp & Hin & Hj). steady_in H.
  assert (Hr : exists r, recorder s = Some r) by eauto.
  destruct e as [d sup| | | |b| |err|message]; try discriminate Hq; cbn [handle].
  - rewrite Hhandler. now apply underway_drawFrame.
  - destruct (seeking s); [now apply underway_onSeeked | exact Hu].
  - destruct (timers s) as [|[ms|ms] rest]; [exact Hu| |].
    + now apply underway_drawFrame.
    + now apply underway_recorderStop.
  - unfold onDataAvailable. rewrite Hrec. destruct (0 <? blob_size b)%nat; exact Hu.
Qed.

Lemma run_quiet (es : list Event) :
  forall (s : State) (i : nat) (extra : list nat) (pending : nat),
  forallb quiet es = true ->
  steady L i extra pending s -> bounded n i s -> underway s ->
  exists i' extra' pending',
    steady L i' extra' pending' (runEvents es s) /\ bounded n i' (runEvents es s)
    /\ underway (runEvents es s).
Proof.
  induction es as [|e es IH]; intros s i extra pending Hes H Hb Hu.
  - now exists i, extra, pending.
  - cbn [forallb] in Hes. apply andb_true_iff in Hes as [He Hes].
    destruct (quiet_step e i extra pending s He H Hb Hu) as (i' & x' & p' & H' & Hb' & Hu').
    exact (IH (handle e s) i' x' p' Hes H' Hb' Hu').
Qed.

Lemma recorded_split (feed : list (list Blob)) :
  List.filter (fun b => (0 <? blob_size b)%nat) (hd [] feed) ++ recorded (tl feed)
  = recorded feed.
Proof.
  destruct feed as [|batch feed]; [reflexivity|].
  unfold recorded. cbn. now rewrite List.filter_app.
Qed.

(** With enough fuel the loop ends by resolving the promise, after [n]
    frames, with everything the recorder handed over. *)
Lemma play_ends (fuel : nat) :
  forall (feed : list (list Blob)) (s : State) (i : nat) (extra : list nat)
         (pending : nat),
  steady L i extra pending s -> bounded n i s -> underway s ->
  (work n i s < fuel)%nat ->
  (exists extra' pending', steady L n extra' pending' (play fuel feed s))
  /\ seeking (play fuel feed s) = false
  /\ promise (play fuel feed s)
     = VideoCompression.Resolved (newBlob (chunks s ++ recorded feed) "video/webm").
Proof.
  induction fuel as [|fuel IH]; intros feed s i extra pending H Hb Hu Hw; [lia|].
  pose proof H as H0. pose proof Hb as Hb0. pose proof Hu as Hu0.
  destruct Hb as (Hle & Hsk & Hend & Hres). destruct Hu as (Hp & Hin & Hj).
  steady_in H.
  assert (Hr : exists r, recorder s = Some r) by eauto.
  cbn [play]. unfold next.
  destruct (seeking s) eqn:Sk.
  - rewrite (deliver_chunks _ s Hr).
    set (s1 := set_chunks _ s).
    assert (H1 : steady L i extra pending s1) by now apply steady_chunks.
    assert (Sk1 : seeking s1 = true) by exact Sk.
    cbn [handle]. rewrite Sk1.
    specialize (Hsk eq_refl).
    destruct (IH (tl feed) (onSeeked s1) (S i) (extra ++ [pending]) 0%nat) as (Hs & Hk & Hq).
    + now apply steady_onSeeked.
    + now apply (bounded_onSeeked i extra pending).
    + now apply underway_onSeeked.
    + unfold work in *. unfold onSeeked. cbn.
      match goal with |- context [if ?c then _ else _] => destruct c end;
        cbn; rewrite length_app; cbn; lia.
    + split; [exact Hs|]. split; [exact Hk|]. rewrite Hq, chunks_onSeeked.
      unfold s1. cbn. now rewrite <- app_assoc, recorded_split.
  - destruct (timers s) as [|t rest] eqn:Et.
    + destruct (stopping s) eqn:Es; [|destruct Hj as [?|[?|?]]; congruence].
      assert (Hi : i = n) by (apply Hend; left; now apply Hstop).
      rewrite (deliver_chunks _ s Hr).
      set (s1 := set_chunks _ s).
      cbn [handle]. change (stopping s1) with (stopping s). rewrite Es.
      split; [exists extra, pending; rewrite <- Hi;
              apply steady_onStop; now apply steady_chunks|].
      unfold onStop, settle. cbn. rewrite Hp. cbn. split; [exact Sk | reflexivity].
    + rewrite (deliver_chunks _ s Hr).
      set (s1 := set_chunks _ s).
      assert (H1 : steady L i extra pending s1) by now apply steady_chunks.
      assert (Hr1 : steady L i extra pending (set_timers rest s1))
        by (apply steady_timers; [exact H1 | cbn in Htimers; lia]).
      assert (Hbr : bounded n i (set_timers rest s1))
        by (apply (bounded_timers i t rest s1); [exact Et | exact Hb0]).
      cbn [handle]. change (timers s1) with (timers s). rewrite Et.
      destruct t as [ms|ms].
      * destruct (steady_drawFrame i extra pending _ Hr1) as [p' Hp'].
        destruct (IH (tl feed) (drawFrame (set_timers rest s1)) i extra p') as (Hs & Hk & Hq).
        -- exact Hp'.
        -- now apply (bounded_drawFrame i extra pending).
        -- now apply underway_drawFrame.
        -- unfold work in *. rewrite Et, Sk in Hw. rewrite timers_drawFrame. cbn in *.
           destruct (seeking (drawFrame _)); lia.
        -- split; [exact Hs|]. split; [exact Hk|]. rewrite Hq, chunks_drawFrame.
           unfold s1. cbn. now rewrite <- app_assoc, recorded_split.
      * assert (Hi : i = n) by (apply Hend; right; reflexivity).
        destruct (IH (tl feed) (recorderStop (set_timers rest s1)) i extra pending)
          as (Hs & Hk & Hq).
        -- now apply steady_recorderStop.
        -- now apply (bounded_recorderStop i extra pending).
        -- now apply underway_recorderStop.
        -- unfold work in *. rewrite Et, Sk in Hw.
           rewrite timers_recorderStop, seeking_recorderStop.
           cbn in *. rewrite Sk. lia.
        -- split; [exact Hs|]. split; [exact Hk|]. rewrite Hq, chunks_recorderStop.
           unfold s1. cbn. now rewrite <- app_assoc, recorded_split.
Qed.

End Binary64.

Section Compression64.

Import VideoCompression64.

Lemma loaded_steady (d : float) (m : option float) :
  steady (bound d m) 0 [] 0 (loaded d m).
Proof.
  unfold steady, loaded, bound, limit. cbn.
  repeat split; try reflexivity; try discriminate; eauto.
Qed.

Lemma loaded_bounded (d : float) (m : option float) (n : nat) :
  bounded n 0 (loaded d m).
Proof.
  unfold bounded, loaded. cbn.
  repeat split; try lia; try discriminate; intros [H|H]; discriminate H.
Qed.

Lemma canplay_underway (d : float) (m : option float) :
  underway (handle CanPlay (loaded d m)).
Proof.
  change (handle CanPlay (loaded d m)) with (drawFrame (loaded d m)).
  apply underway_drawFrame; [cbn; eauto | reflexivity | discriminate].
Qed.


Lemma compress_steady (d : float) (m : option float) (es : list Event) :
  forallb (fun e => negb (isLoadedMetadata e)) es = true ->
  (exists i extra pending,
     steady (bound d m) i extra pending (runEvents es (loaded d m))
     /\ (forall k, (k < i)%nat -> geb (clock k) (bound d m) = false))
  /\ chunks (runEvents es (loaded d m)) = delivered es
  /\ (forall b, promise (runEvents es (loaded d m)) = VideoCompression.Resolved b ->
        exists es1 es2,
          es = es1 ++ RecorderStop :: es2 /\ b = newBlob (delivered es1) "video/webm").
Proof.
  intros Hes.
  apply (run_steady (bound d m) es [] (loaded d m) 0 [] 0 Hes (loaded_steady d m)).
  - intros k Hk. lia.
  - reflexivity.
  - intros b Hb. discriminate Hb.
Qed.

Lemma quiet_events (es : list Event) :
  forallb quiet es = true ->
  forallb (fun e => negb (isLoadedMetadata e)) es = true.
Proof.
  intros H. apply forallb_forall. intros e He.
  apply (proj1 (forallb_forall _ _) H) in He. now destruct e.
Qed.

Lemma delivered_canplay (es : list Event) : delivered (CanPlay :: es) = delivered es.
Proof. reflexivity. Qed.

(** A call in which nothing fails resolves, after the [n] frames at which
    the tests of the loop stop, with everything the recorder handed
    over. *)
Lemma compress_ends (d : float) (m : option float) (n : nat) (es : list Event)
    (feed : list (list Blob)) (fuel : nat) :
  frames (bound d m) n = true ->
  forallb quiet es = true ->
  (3 * n + 2 <= fuel)%nat ->
  promise (compress fuel d m es feed)
  = VideoCompression.Resolved (newBlob (delivered es ++ recorded feed) "video/webm")
  /\ exists extra pending,
       steady (bound d m) n extra pending (compress fuel d m es feed)
       /\ seeking (compress fuel d m es feed) = false.
Proof.
  intros Hn Hes Hfuel. unfold compress.
  change (runEvents (CanPlay :: es) (loaded d m))
    with (runEvents es (handle CanPlay (loaded d m))).
  destruct (step (bound d m) n Hn CanPlay 0 [] 0 (loaded d m) eq_refl
              (loaded_steady d m) (loaded_bounded d m n))
    as (i1 & x1 & p1 & H1 & B1).
  destruct (run_quiet (bound d m) n Hn es _ i1 x1 p1 Hes H1 B1 (canplay_underway d m))
    as (i & x & p & H & B & U).
  destruct (compress_steady d m (CanPlay :: es)) as (_ & Hc & _).
  { cbn [forallb]. now rewrite quiet_events. }
  change (runEvents (CanPlay :: es) (loaded d m))
    with (runEvents es (handle CanPlay (loaded d m))) in Hc.
  destruct (play_ends (bound d m) n Hn fuel feed _ i x p H B U) as ((x' & p' & Hs) & Hk & Hq).
  - unfold work. destruct H as (_ & _ & _ & _ & _ & _ & _ & _ & _ & _ & _ & Ht).
    destruct B as (Hle & _). destruct (seeking _); lia.
  - rewrite Hq, Hc, delivered_canplay. split; [reflexivity|]. now exists x', p'.
Qed.

End Compression64.

(** C4. Whatever the browser raises after the metadata of the video has
    loaded, and in whatever order, a call of [compressVideo] keeps the
    canvas at 1280 by 720, its capture stream at 24 frames per second and
    the recorder created for VP9 WebM at 250000 bits per second; the
    frames drawn are the first ones of the 42 ms clock, each once, in
    order and to the whole canvas, the positions sought are theirs, a
    position being sought again when [canplay] or a timer comes before
    its seek has ended; and a promise resolved holds one [video/webm]
    blob of the non-empty chunks that arrived before the recorder's
    [stop] event, in order of arrival.  When frame [n] is the first whose
    time has reached [duration * 1000] and nothing fails, the promise is
    resolved, after exactly [n] frames.  When every frame's time is below
    [duration * 1000], as for a video whose duration is [Infinity], the
    recorder is never stopped and the promise never resolved. *)
Theorem compressVideo_redraws_and_records (d : float) (m : option float) :
  (forall es : list VideoCompression64.Event,
     forallb (fun e => negb (VideoCompression64.isLoadedMetadata e)) es = true ->
     let s := VideoCompression64.runEvents es (VideoCompression64.loaded d m) in
     VideoCompression64.canvas s = (1280, 720)%Z
     /\ VideoCompression64.stream s = Some 24%Z
     /\ (exists st,
           VideoCompression64.recorder s
           = Some (VideoCompression.mkRecorder "video/webm;codecs=vp9" 250000 st))
     /\ (exists (extra : list nat) (pending : nat),
           VideoCompression64.draws s = VideoCompression64.redraws (length extra)
           /\ VideoCompression64.seeks s
              = VideoCompression64.repeats extra 0
                ++ (if VideoCompression64.seeking s
                    then repeat (VideoCompression64.target (length extra)) (S pending)
                    else []))
     /\ (forall b,
           VideoCompression64.promise s = VideoCompression.Resolved b ->
           exists es1 es2,
             es = es1 ++ VideoCompression64.RecorderStop :: es2
             /\ b = newBlob (VideoCompression64.delivered es1) "video/webm"))
  /\ (forall (n : nat) (es : list VideoCompression64.Event) (feed : list (list Blob))
             (fuel : nat),
        VideoCompression64.frames (VideoCompression64.bound d m) n = true ->
        forallb VideoCompression64.quiet es = true ->
        (3 * n + 2 <= fuel)%nat ->
        let s := VideoCompression64.compress fuel d m es feed in
        VideoCompression64.promise s
        = VideoCompression.Resolved
            (newBlob (VideoCompression64.delivered es ++ VideoCompression64.recorded feed)
               "video/webm")
        /\ VideoCompression64.draws s = VideoCompression64.redraws n
        /\ exists extra,
             length extra = n
             /\ VideoCompression64.seeks s = VideoCompression64.repeats extra 0)
  /\ ((forall k,
         VideoCompression64.ltb (VideoCompression64.clock k)
           (VideoCompression64.bound d m) = true) ->
      forall es : list VideoCompression64.Event,
        forallb (fun e => negb (VideoCompression64.isLoadedMetadata e)) es = true ->
        VideoCompression64.inactive
          (VideoCompression64.runEvents es (VideoCompression64.loaded d m)) = false
        /\ forall b,
             VideoCompression64.promise
               (VideoCompression64.runEvents es (VideoCompression64.loaded d m))
             <> VideoCompression.Resolved b).
Proof.
  split; [|split].
  - intros es Hes s.
    destruct (compress_steady d m es Hes) as ((i & extra & pending & H & _) & _ & Hres).
    destruct H as (Hcanvas & Hstream & Hrec & _ & _ & _ & Hdraws & Hextra & Hseeks & _).
    split; [exact Hcanvas|]. split; [exact Hstream|]. split; [exact Hrec|].
    split; [|exact Hres].
    exists extra, pending. rewrite Hextra. split; [exact Hdraws | exact Hseeks].
  - intros n es feed fuel Hn Hes Hfuel s.
    destruct (compress_ends d m n es feed fuel Hn Hes Hfuel)
      as (Hp & extra & pending & H & Hk).
    destruct H as (_ & _ & _ & _ & _ & _ & Hdraws & Hextra & Hseeks & _).
    split; [exact Hp|]. split; [exact Hdraws|].
    exists extra. split; [exact Hextra|].
    unfold s. rewrite Hseeks, Hk. apply app_nil_r.
  - intros Hun es Hes.
    apply (run_unbounded (VideoCompression64.bound d m) es
             (fun k => conj (below_not_reached _ _ (Hun k)) (Hun k))
             (VideoCompression64.loaded d m) 0 [] 0 Hes (loaded_steady d m)).
    repeat split; try reflexivity. intros b Hb. discriminate Hb.
Qed.

Lemma compressVideo_redraws_and_records_witness :
  let feed := [[mkBlob [Byte.x1a; Byte.x45] "video/webm"]; [mkBlob [] "video/webm"];
               [mkBlob [Byte.xdf] "video/webm"]] in
  (VideoCompression64.frames (VideoCompression64.bound 2.1 None) 50 = true
   /\ VideoCompression64.promise (VideoCompression64.compress 152 2.1 None [] feed)
      = VideoCompression.Resolved (mkBlob [Byte.x1a; Byte.x45; Byte.xdf] "video/webm")
   /\ VideoCompression64.draws (VideoCompression64.compress 152 2.1 None [] feed)
      = VideoCompression64.redraws 50)
  /\ (forall es : list VideoCompression64.Event,
        forallb (fun e => negb (VideoCompression64.isLoadedMetadata e)) es = true ->
        forall b,
          VideoCompression64.promise
            (VideoCompression64.runEvents es (VideoCompression64.loaded infinity None))
          <> VideoCompression.Resolved b).
Proof.
  intros feed. split.
  - assert (Hn : VideoCompression64.frames (VideoCompression64.bound 2.1 None) 50 = true)
      by (vm_compute; reflexivity).
    destruct (compressVideo_redraws_and_records 2.1 None) as (_ & Hlive & _).
    destruct (Hlive 50%nat [] feed 152%nat Hn eq_refl ltac:(lia)) as (Hp & Hd & _).
    split; [exact Hn|]. split; [exact Hp | exact Hd].
  - destruct (compressVideo_redraws_and_records infinity None) as (_ & _ & Hnever).
    intros es Hes. apply Hnever; [|exact Hes].
    exact (fun k => proj2 (clock_below_infinity k)).
Defined.



(** The frames of some durations: 42 ms gives one frame, 2.1 s gives 50,
    4.2 s gives 100, and 16.17 s gives 386, the last of them sought at
    16.17 s. *)
Example binary64_frame_counts :
  VideoCompression64.frames (VideoCompression64.bound 0.042 None) 1 = true
  /\ VideoCompression64.frames (VideoCompression64.bound 2.1 None) 50 = true
  /\ VideoCompression64.frames (VideoCompression64.bound 4.2 None) 100 = true
  /\ VideoCompression64.frames (VideoCompression64.bound 16.17 None) 386 = true
  /\ VideoCompression64.target 385 = 16.17%float.
Proof. vm_compute. repeat split; reflexivity. Qed.

(* ===================================================================== *)
(** * Further properties of the code *)
(* ===================================================================== *)

(** ** Video compression, beyond the nominal run *)

Section CompressionMore.

Import VideoCompression.

Local Open Scope Q_scope.

Lemma min_le_r (a b : Q) : VideoCompression.min a b <= b.
Proof.
  unfold VideoCompression.min. destruct (Qle_bool a b) eqn:E.
  - now apply Qle_bool_iff.
  - apply Qle_refl.
Qed.

(** Every branch of a handler, one goal each. *)
Ltac branches :=
  unfold handle, drawFrame, onSeeked, onDataAvailable, onStop, recorderStop, settle;
  repeat match goal with
         | |- context [match ?x with _ => _ end] => destruct x eqn:?; simpl in *
         end.

Lemma handle_recorder (e : Event) (s : State) :
  recorder s <> None -> recorder (handle e s) <> None.
Proof. intros H. branches; congruence. Qed.

Lemma handle_chunks (e : Event) (s : State) :
  recorder s <> None -> isLoadedMetadata e = false ->
  chunks (handle e s) = chunks s ++ delivered [e].
Proof.
  intros Hr He. unfold delivered. simpl.
  branches; rewrite ?app_nil_r; congruence.
Qed.

Lemma delivered_cons (e : Event) (es : list Event) :
  delivered (e :: es) = delivered [e] ++ delivered es.
Proof. unfold delivered. simpl. destruct e; try reflexivity. now destruct (0 <? _)%nat. Qed.

Lemma runEvents_chunks (es : list Event) (s : State) :
  recorder s <> None -> forallb (fun e => negb (isLoadedMetadata e)) es = true ->
  chunks (runEvents es s) = chunks s ++ delivered es.
Proof.
  revert s. induction es as [|e es IH]; intros s Hr Hes.
  - simpl. now rewrite app_nil_r.
  - simpl in Hes. apply andb_true_iff in Hes as [He Hes].
    apply negb_true_iff in He. unfold runEvents in *. cbn [fold_left].
    rewrite IH; [|now apply handle_recorder | exact Hes].
    rewrite handle_chunks by assumption.
    now rewrite (delivered_cons e es), app_assoc.
Qed.

Lemma handle_tidy (e : Event) (s : State) : tidy s -> tidy (handle e s).
Proof. unfold tidy. intros H. branches; intuition congruence. Qed.

Lemma runEvents_tidy (es : list Event) (s : State) : tidy s -> tidy (runEvents es s).
Proof.
  revert s. induction es as [|e es IH]; intros s H; [exact H|].
  unfold runEvents in *. cbn [fold_left]. apply IH, handle_tidy, H.
Qed.

Lemma tryNextCodec_spec (f : string -> bool) (c : option string * option Z -> bool)
    (options : list (option string * option Z)) :
  let usable o := f (default "video/webm" (fst o)) && c o in
  match tryNextCodec f c options with
  | None => Forall (fun o => usable o = false) options
  | Some o =>
      exists before after,
        options = before ++ o :: after
        /\ Forall (fun o' => usable o' = false) before
        /\ usable o = true
  end.
Proof.
  intros usable. induction options as [|o rest IH]; simpl; [constructor|].
  fold (usable o). destruct (usable o) eqn:E.
  - exists [], rest. repeat split; [constructor | exact E].
  - destruct (tryNextCodec f c rest) as [o'|].
    + destruct IH as [before [after [-> [Hb Hu]]]].
      exists (o :: before), after. repeat split; [constructor; assumption | exact Hu].
    + constructor; assumption.
Qed.

End CompressionMore.

(** X2. From [loadedmetadata] on, whatever the browser raises and in
    whatever order (as long as the metadata does not load a second time),
    the chunks [compressVideo] holds are exactly the non-empty blobs its
    recorder has handed over since, in order of arrival: seeks, timers,
    errors and the stop itself never add, drop or reorder one. *)
Theorem compressVideo_keeps_what_arrived
    (maxDuration : option Q) (videoDuration : Q) (es : list VideoCompression.Event) :
  forallb (fun e => negb (VideoCompression.isLoadedMetadata e)) es = true ->
  VideoCompression.chunks
    (VideoCompression.runEvents es
       (VideoCompression.handle (VideoCompression.LoadedMetadata videoDuration)
          (VideoCompression.compressVideo maxDuration)))
  = VideoCompression.delivered es.
Proof.
  intros H. rewrite runEvents_chunks; [reflexivity | discriminate | exact H].
Qed.

Lemma compressVideo_keeps_what_arrived_witness :
  let a := mkBlob [Byte.x1a] "video/webm" in
  let b := mkBlob [] "video/webm" in
  let c := mkBlob [Byte.x45; Byte.xdf] "video/webm" in
  let es :=
    [VideoCompression.DataAvailable a; VideoCompression.CanPlay;
     VideoCompression.DataAvailable b; VideoCompression.Seeked;
     VideoCompression.RecorderError "boom"; VideoCompression.DataAvailable c;
     VideoCompression.Timeout] in
  VideoCompression.chunks
    (VideoCompression.runEvents es
       (VideoCompression.handle (VideoCompression.LoadedMetadata 1)
          (VideoCompression.compressVideo None)))
  = VideoCompression.delivered es.
Proof.
  intros a b c es.
  apply (compressVideo_keeps_what_arrived None 1 es). reflexivity.
Defined.

(** X3. [compressVideo] never settles its promise without revoking the
    object URL it made for the video: after any events at all, a promise
    that is resolved or rejected comes with a revoked URL. *)
Theorem compressVideo_revokes_when_settled
    (maxDuration : option Q) (es : list VideoCompression.Event) :
  let s := VideoCompression.runEvents es (VideoCompression.compressVideo maxDuration) in
  VideoCompression.promise s <> VideoCompression.Pending ->
  VideoCompression.urlRevoked s = true.
Proof.
  intros s Hs.
  assert (H : VideoCompression.tidy s)
    by (apply runEvents_tidy; left; reflexivity).
  destruct H as [H | H]; [contradiction | exact H].
Qed.

Lemma compressVideo_revokes_when_settled_witness :
  let s :=
    VideoCompression.runEvents
      [VideoCompression.LoadedMetadata 1; VideoCompression.RecorderError "boom";
       VideoCompression.RecorderStop]
      (VideoCompression.compressVideo None) in
  VideoCompression.urlRevoked s = true.
Proof.
  apply (compressVideo_revokes_when_settled None
           [VideoCompression.LoadedMetadata 1; VideoCompression.RecorderError "boom";
            VideoCompression.RecorderStop]).
  discriminate.
Defined.

(** X4. [maxDuration] is tested for truthiness: a [maxDuration] of zero is
    no cap at all, the call seeks, draws and resolves exactly as with
    [null]; a negative one makes the call draw nothing, and it still
    resolves with the blob of what the recorder handed over. *)
Theorem compressVideo_falsy_or_negative_maxDuration
    (videoDuration m : Q) (feed : list (list Blob)) (fuel : nat) :
  ((m == 0)%Q ->
   (2 * VideoCompression.frameCount (VideoCompression.bound videoDuration None) + 1
    <= fuel)%nat ->
   let s := VideoCompression.compress fuel videoDuration (Some m) feed in
   let s' := VideoCompression.compress fuel videoDuration None feed in
   VideoCompression.seeks s = VideoCompression.seeks s'
   /\ VideoCompression.draws s = VideoCompression.draws s'
   /\ VideoCompression.promise s = VideoCompression.promise s')
  /\ ((m < 0)%Q -> (1 <= fuel)%nat ->
      let s := VideoCompression.compress fuel videoDuration (Some m) feed in
      VideoCompression.seeks s = []
      /\ VideoCompression.draws s = []
      /\ VideoCompression.promise s
         = VideoCompression.Resolved
             (newBlob (VideoCompression.recorded feed) "video/webm")).
Proof.
  split.
  - intros Hm Hfuel s s'.
    assert (Hb : VideoCompression.bound videoDuration (Some m)
                 = VideoCompression.bound videoDuration None).
    { unfold VideoCompression.bound, VideoCompression.effectiveDuration,
        VideoCompression.truthy.
      apply Qeq_bool_iff in Hm. now rewrite Hm. }
    unfold s, s'. rewrite !compress_stopped by (rewrite ?Hb; exact Hfuel).
    rewrite Hb. repeat split.
  - intros Hm Hfuel s.
    assert (H0 : VideoCompression.frameCount
                   (VideoCompression.bound videoDuration (Some m)) = 0%nat).
    { destruct (VideoCompression.frameCount _) eqn:E; [reflexivity|]. exfalso.
      assert (H : (0 < VideoCompression.frameCount
                         (VideoCompression.bound videoDuration (Some m)))%nat) by lia.
      apply frameCount_spec in H.
      change (inject_Z (Z.of_nat 0 * VideoCompression.frameInterval)) with 0%Q in H.
      assert (Hb : (VideoCompression.bound videoDuration (Some m) <= m * 1000)%Q).
      { unfold VideoCompression.bound, VideoCompression.effectiveDuration,
          VideoCompression.truthy.
        destruct (Qeq_bool m 0) eqn:Eq.
        - apply Qeq_bool_iff in Eq. rewrite Eq in Hm. now apply Qlt_irrefl in Hm.
        - apply Qmult_le_compat_r; [apply min_le_r | discriminate]. }
      assert (Hneg : (m * 1000 < 0)%Q).
      { rewrite <- (Qmult_0_l 1000). apply Qmult_lt_compat_r; [reflexivity | exact Hm]. }
      apply (Qlt_irrefl 0).
      eapply Qlt_trans; [exact H|]. eapply Qle_lt_trans; eassumption. }
    unfold s. rewrite compress_stopped by (rewrite H0; lia).
    rewrite H0. repeat split.
Qed.

Lemma compressVideo_falsy_or_negative_maxDuration_witness :
  let feed := [[mkBlob [Byte.x1a] "video/webm"]] in
  (let s := VideoCompression.compress 7 (1 # 10) (Some 0%Q) feed in
   let s' := VideoCompression.compress 7 (1 # 10) None feed in
   VideoCompression.seeks s = VideoCompression.seeks s'
   /\ VideoCompression.draws s = VideoCompression.draws s'
   /\ VideoCompression.promise s = VideoCompression.promise s')
  /\ (let s := VideoCompression.compress 1 10 (Some (-1)%Q) feed in
      VideoCompression.seeks s = []
      /\ VideoCompression.draws s = []
      /\ VideoCompression.promise s
         = VideoCompression.Resolved
             (newBlob (VideoCompression.recorded feed) "video/webm")).
Proof.
  intros feed. split.
  - apply (proj1 (compressVideo_falsy_or_negative_maxDuration (1 # 10) 0 feed 7)).
    + reflexivity.
    + apply Nat.leb_le. vm_compute. reflexivity.
  - apply (proj2 (compressVideo_falsy_or_negative_maxDuration 10 (-1) feed 1)).
    + reflexivity.
    + apply Nat.leb_le. reflexivity.
Defined.

(** X5. [recordVideoWithConstraints] takes the first of its four options
    whose type is supported and whose recorder can be created, starts it
    with a 100 ms time slice and a stop timer of [maxDuration * 1000] ms,
    and rejects with [No supported video codec found] exactly when no
    option is usable.  Its last option [{}] is tested against
    [video/webm] like the third, so when creating a recorder never throws
    the [{}] fallback is never the one taken. *)
Theorem recordVideo_takes_first_usable
    (isTypeSupported : string -> bool)
    (constructs : option string * option Z -> bool) (maxDuration : Q) :
  let usable o := isTypeSupported (default "video/webm" (fst o)) && constructs o in
  let outcome :=
    VideoCompression.recordVideoWithConstraints isTypeSupported constructs maxDuration in
  (outcome = VideoCompression.NoCodec "No supported video codec found"
   <-> Forall (fun o => usable o = false) VideoCompression.codecOptions)
  /\ (forall o timeslice stopAfter,
        outcome = VideoCompression.Started o timeslice stopAfter ->
        timeslice = 100%Z /\ stopAfter = (maxDuration * 1000)%Q
        /\ usable o = true
        /\ exists before after,
             VideoCompression.codecOptions = before ++ o :: after
             /\ Forall (fun o' => usable o' = false) before)
  /\ ((forall o, constructs o = true) ->
      forall timeslice stopAfter,
        outcome <> VideoCompression.Started (None, None) timeslice stopAfter).
Proof.
  intros usable outcome. unfold outcome, VideoCompression.recordVideoWithConstraints.
  pose proof (tryNextCodec_spec isTypeSupported constructs VideoCompression.codecOptions)
    as H. cbv zeta in H. fold usable in H.
  destruct (VideoCompression.tryNextCodec isTypeSupported constructs
              VideoCompression.codecOptions) as [o|] eqn:E.
  - destruct H as [before [after [Hsplit [Hb Hu]]]]. split; [|split].
    + split; [discriminate|]. intros Hall. exfalso.
      rewrite Hsplit in Hall. apply Forall_app in Hall as [_ Hall].
      inversion Hall; subst. congruence.
    + intros o' t q [= <- <- <-]. repeat split; [exact Hu|]. eauto.
    + intros Hc t q [= -> _ _].
      unfold VideoCompression.codecOptions in E. simpl in E.
      rewrite !Hc, !andb_true_r in E.
      destruct (isTypeSupported "video/webm;codecs=vp9"); [discriminate|].
      destruct (isTypeSupported "video/webm;codecs=vp8"); [discriminate|].
      destruct (isTypeSupported "video/webm"); discriminate.
  - split; [|split].
    + split; [intros _; exact H | reflexivity].
    + intros o t q [=].
    + intros _ t q [=].
Qed.

Lemma recordVideo_takes_first_usable_witness :
  let isTypeSupported := fun t => String.eqb t "video/webm;codecs=vp8" in
  let outcome :=
    VideoCompression.recordVideoWithConstraints isTypeSupported (fun _ => true) 4 in
  outcome
  = VideoCompression.Started (Some "video/webm;codecs=vp8", Some 250000%Z) 100 4000
  /\ forall timeslice stopAfter,
       outcome <> VideoCompression.Started (None, None) timeslice stopAfter.
Proof.
  intros isTypeSupported outcome. split; [reflexivity|].
  apply (proj2 (proj2 (recordVideo_takes_first_usable isTypeSupported
                         (fun _ => true) 4))).
  reflexivity.
Defined.

(** ** Sign language to speech, beyond the claims *)

Section SendToAPIMore.

Import JsString SignToSpeech.

Lemma requests_app_s (e1 e2 : list Effect) :
  requests (e1 ++ e2) = requests e1 ++ requests e2.
Proof. unfold requests. apply omap_app. Qed.

(** Nothing that runs after the [await] posts anything. *)
Lemma settle_requests (reply : Reply) (s : State) :
  requests (snd (sendToAPI_settle reply s)) = [].
Proof.
  unfold sendToAPI_settle, onResult. destruct reply as [res|detail]; [|reflexivity].
  destruct (isEmergencyDetected res), (truthyOpt (r_audio_base64 res));
    try destruct (Base64.atob _); try destruct (r_translation res) as [t|];
    try destruct (truthy t); reflexivity.
Qed.

Lemma sendToAPI_requests (apiKeys : list ApiKey) (provider : string) (media : Media)
    (mediaType : string) (reply : Reply) (s : State) :
  requests (snd (sendToAPI apiKeys provider media mediaType reply s))
  = if admitted apiKeys provider mediaType
    then match request media mediaType provider with
         | Some rq => [rq]
         | None => []
         end
    else [].
Proof.
  unfold sendToAPI, admitted.
  destruct (hasAPIKey apiKeys provider); [|reflexivity]. cbn [negb andb].
  destruct (String.eqb mediaType "video" && String.eqb provider "openai");
    [reflexivity|]. cbn [negb].
  destruct (request media mediaType provider) as [rq|]; [|reflexivity].
  pose proof (settle_requests reply
                (set_audioUrl EmptyUrl
                   (set_translation (Some "") (set_error "" (set_loading true s)))))
    as H.
  destruct (sendToAPI_settle reply _) as [s2 effects]. simpl in *. now rewrite H.
Qed.

Lemma request_shape (media : Media) (mediaType provider : string)
    (rq : Transcription.Request) :
  request media mediaType provider = Some rq ->
  (mediaType = "video"
   /\ exists b, media = MediaBlob b /\ rq = Transcription.signToSpeechFromVideo b provider)
  \/ (mediaType = "image"
      /\ exists v, rq = Transcription.signToSpeechFromBase64 v provider).
Proof.
  unfold request. destruct (String.eqb_spec mediaType "video") as [->|_].
  - destruct media as [u|b]; [discriminate|]. intros [= <-]. left. eauto.
  - destruct (String.eqb_spec mediaType "image") as [->|_]; [|discriminate].
    intros [= <-]. right. eauto.
Qed.

(** The fields [sendToAPI] leaves alone. *)
Lemma sendToAPI_frame (apiKeys : list ApiKey) (provider0 : string) (media : Media)
    (mediaType : string) (reply : Reply) (s : State) :
  let s' := fst (sendToAPI apiKeys provider0 media mediaType reply s) in
  videoChunks s' = videoChunks s
  /\ mediaRecorder s' = mediaRecorder s
  /\ provider s' = provider s
  /\ inputType s' = inputType s
  /\ videoBlob s' = videoBlob s
  /\ isRecording s' = isRecording s
  /\ isCapturing s' = isCapturing s.
Proof.
  unfold sendToAPI.
  destruct (negb (hasAPIKey apiKeys provider0)); [repeat split|].
  destruct (String.eqb mediaType "video" && String.eqb provider0 "openai");
    [repeat split|].
  destruct (request media mediaType provider0); [|repeat split].
  unfold sendToAPI_settle. destruct reply as [res|detail]; [|repeat split].
  unfold onResult.
  destruct (isEmergencyDetected res), (truthyOpt (r_audio_base64 res));
    try destruct (Base64.atob _); try destruct (r_translation res) as [t|];
    try destruct (truthy t); repeat split.
Qed.

End SendToAPIMore.

(** X6. Once past its two guards, [sendToAPI] always switches the loading
    flag off again, whatever the backend answers and even when no request
    can be built; it posts at most one request, and that request goes to
    [/api/sign-to-speech] with the provider the call was made for. *)
Theorem sendToAPI_ends_loading
    (apiKeys : list ApiKey) (provider : string) (media : SignToSpeech.Media)
    (mediaType : string) (reply : SignToSpeech.Reply) (s : SignToSpeech.State) :
  SignToSpeech.hasAPIKey apiKeys provider = true ->
  ~ (mediaType = "video" /\ provider = "openai") ->
  let '(s', effects) :=
    SignToSpeech.sendToAPI apiKeys provider media mediaType reply s in
  SignToSpeech.loading s' = false
  /\ (length (SignToSpeech.requests effects) <= 1)%nat
  /\ (forall rq, In rq (SignToSpeech.requests effects) ->
        Transcription.url rq = "/api/sign-to-speech"
        /\ exists fields,
             Transcription.payload rq
             = Transcription.FormData (fields ++ [("provider", Transcription.FText provider)])).
Proof.
  intros Hkey Hguard.
  pose proof (sendToAPI_requests apiKeys provider media mediaType reply s) as Hreq.
  assert (Hadm : SignToSpeech.admitted apiKeys provider mediaType = true).
  { unfold SignToSpeech.admitted. rewrite Hkey. simpl. apply negb_true_iff.
    destruct (String.eqb_spec mediaType "video"), (String.eqb_spec provider "openai");
      try reflexivity. tauto. }
  rewrite Hadm in Hreq.
  assert (Hload :
    SignToSpeech.loading
      (fst (SignToSpeech.sendToAPI apiKeys provider media mediaType reply s)) = false).
  { unfold SignToSpeech.sendToAPI. rewrite Hkey. cbn [negb].
    unfold SignToSpeech.admitted in Hadm. rewrite Hkey in Hadm. cbn [andb] in Hadm.
    apply negb_true_iff in Hadm. rewrite Hadm.
    destruct (SignToSpeech.request media mediaType provider); [|reflexivity].
    unfold SignToSpeech.sendToAPI_settle. destruct reply as [res|detail];
      [|reflexivity].
    destruct (SignToSpeech.onResult res _) as [s2 e2]. reflexivity. }
  destruct (SignToSpeech.sendToAPI apiKeys provider media mediaType reply s)
    as [s' effects].
  simpl in Hreq, Hload. split; [exact Hload|]. rewrite Hreq.
  destruct (SignToSpeech.request media mediaType provider) as [rq|] eqn:E.
  - split; [simpl; lia|]. intros rq' [<- | []].
    apply request_shape in E as [[_ [b [_ ->]]] | [_ [v ->]]].
    + split; [reflexivity|]. eexists [_]. reflexivity.
    + split; [reflexivity|]. eexists [_]. reflexivity.
  - split; [simpl; lia|]. intros rq' [].
Qed.

Lemma sendToAPI_ends_loading_witness :
  let '(s', effects) :=
    SignToSpeech.sendToAPI [mkApiKey "gemini-pro" true] "gemini-pro"
      (SignToSpeech.MediaUrl "data:image/jpeg;base64,AAAA") "video"
      (SignToSpeech.Failed None) SignToSpeech.initial in
  SignToSpeech.loading s' = false
  /\ (length (SignToSpeech.requests effects) <= 1)%nat
  /\ (forall rq, In rq (SignToSpeech.requests effects) ->
        Transcription.url rq = "/api/sign-to-speech"
        /\ exists fields,
             Transcription.payload rq
             = Transcription.FormData
                 (fields ++ [("provider", Transcription.FText "gemini-pro")])).
Proof.
  apply (sendToAPI_ends_loading [mkApiKey "gemini-pro" true] "gemini-pro"
           (SignToSpeech.MediaUrl "data:image/jpeg;base64,AAAA") "video"
           (SignToSpeech.Failed None) SignToSpeech.initial).
  - reflexivity.
  - intros [_ H]. discriminate H.
Defined.

Section RecordingMore.

Import JsString SignToSpeech.

Lemma recordingOf_same (k : list ApiKey) (p m : string) (c : list Blob) (s s' : State) :
  videoChunks s' = videoChunks s -> mediaRecorder s' = mediaRecorder s ->
  recordingOf k p m c s -> recordingOf k p m c s'.
Proof. unfold recordingOf. intros -> ->. auto. Qed.

Lemma stopRecording_recordingOf (k : list ApiKey) (p m : string) (c : list Blob)
    (s : State) :
  recordingOf k p m c s -> recordingOf k p m c (stopRecording s).
Proof.
  unfold recordingOf, stopRecording. intros [Hc [st Hr]]. rewrite Hr.
  destruct st; cbn; rewrite ?Hr; eauto.
Qed.

Lemma sendToAPI_recordingOf (k : list ApiKey) (p m : string) (c : list Blob)
    (apiKeys : list ApiKey) (provider0 : string) (media : Media) (mediaType : string)
    (reply : Reply) (s : State) :
  recordingOf k p m c s ->
  recordingOf k p m c (fst (sendToAPI apiKeys provider0 media mediaType reply s)).
Proof.
  destruct (sendToAPI_frame apiKeys provider0 media mediaType reply s)
    as [Hc [Hr _]].
  now apply recordingOf_same.
Qed.

Lemma handle_recordingOf (k : list ApiKey) (p m : string) (c : list Blob)
    (e : Event) (s : State) :
  recordingOf k p m c s ->
  recordingOf k p m (c ++ arrived [Component e]) (fst (handle e s)).
Proof.
  intros H. destruct e as [| |a|b|reply|message]; cbn [arrived omap handle fst].
  - rewrite app_nil_r. unfold onTick. destruct (recordingTimer s); [|exact H].
    destruct (_ <=? _)%float.
    + eapply recordingOf_same; [| |apply stopRecording_recordingOf, H]; reflexivity.
    + eapply recordingOf_same; [| |exact H]; reflexivity.
  - rewrite app_nil_r. now apply stopRecording_recordingOf.
  - rewrite app_nil_r. destruct a as [b|seen]; cbn [fire].
    + eapply recordingOf_same; [| |exact H]; reflexivity.
    + destruct (seen && _); [now apply stopRecording_recordingOf | exact H].
  - unfold onDataAvailable. simpl. destruct (0 <? blob_size b)%nat.
    + destruct H as [Hc Hr]. split; [simpl; now rewrite Hc | exact Hr].
    + now rewrite app_nil_r.
  - rewrite app_nil_r. unfold onStop. destruct (mediaRecorder s) as [r|] eqn:Hr;
      [|exact H].
    destruct (_ =? 0)%nat.
    + eapply recordingOf_same; [| |exact H]; reflexivity.
    + apply sendToAPI_recordingOf.
      eapply recordingOf_same; [| |exact H]; reflexivity.
  - rewrite app_nil_r. destruct H as [Hc [st Hr]]. unfold recorderFailed.
    rewrite Hr. split; [exact Hc|]. simpl. eauto.
Qed.


Lemma handleUi_recordingOf (keys k : list ApiKey) (p m : string) (c : list Blob)
    (e : UiEvent) (s : State) :
  isRecordClicked e = false ->
  recordingOf k p m c s ->
  recordingOf k p m (c ++ arrived [e]) (fst (handleUi keys e s)).
Proof.
  intros He H.
  destruct e as [e| newProvider | | | |sup perm|imageSrc reply|file compressed reply];
    try discriminate He; try (apply handle_recordingOf; exact H);
    cbn [arrived omap handleUi fst]; rewrite app_nil_r.
  - unfold selectProvider. destruct (_ && _);
      (eapply recordingOf_same; [| |exact H]; reflexivity).
  - unfold clickVideo. destruct (String.eqb _ _); [exact H|].
    eapply recordingOf_same; [| |exact H]; reflexivity.
  - unfold clickImage. destruct (String.eqb _ _); [exact H|].
    eapply recordingOf_same; [| |exact H]; reflexivity.
  - unfold clickCamera. destruct (isCapturing s || isRecording s).
    + destruct (isRecording s).
      * eapply recordingOf_same; [| |apply stopRecording_recordingOf, H]; reflexivity.
      * eapply recordingOf_same; [| |exact H]; reflexivity.
    + eapply recordingOf_same; [| |exact H]; reflexivity.
  - unfold clickCapture, captureImage. destruct (_ && _); [|exact H].
    apply sendToAPI_recordingOf.
    eapply recordingOf_same; [| |exact H]; reflexivity.
  - unfold handleFileUpload. destruct file as [f|]; [|exact H].
    destruct (startsWith (blob_type f) "video/").
    + destruct compressed as [b|message].
      * apply sendToAPI_recordingOf.
        eapply recordingOf_same; [| |exact H]; reflexivity.
      * eapply recordingOf_same; [| |exact H]; reflexivity.
    + destruct (startsWith (blob_type f) "image/").
      * apply sendToAPI_recordingOf.
        eapply recordingOf_same; [| |exact H]; reflexivity.
      * eapply recordingOf_same; [| |exact H]; reflexivity.
Qed.

Lemma arrived_cons (e : UiEvent) (es : list UiEvent) :
  arrived (e :: es) = arrived [e] ++ arrived es.
Proof. apply (omap_app _ [e] es). Qed.

Lemma runUi_recordingOf (keys k : list ApiKey) (p m : string) (es : list UiEvent) :
  forall (c : list Blob) (s : State),
  forallb (fun e => negb (isRecordClicked e)) es = true ->
  recordingOf k p m c s ->
  recordingOf k p m (c ++ arrived es) (fst (runUi keys es s)).
Proof.
  induction es as [|e es IH]; intros c s Hes H.
  - simpl. now rewrite app_nil_r.
  - cbn [forallb] in Hes. apply andb_true_iff in Hes as [He Hes].
    apply negb_true_iff in He.
    pose proof (handleUi_recordingOf keys k p m c e s He H) as H1.
    cbn [runUi]. destruct (handleUi keys e s) as [s1 effects1].
    specialize (IH _ s1 Hes H1).
    destruct (runUi keys es s1) as [s2 effects2].
    rewrite arrived_cons, app_assoc. exact IH.
Qed.

Lemma startRecording_recordingOf (apiKeys : list ApiKey) (sup : string -> bool)
    (s : State) :
  exists mime,
    recordingOf apiKeys (provider s) mime []
      (fst (startRecording apiKeys sup Granted s))
    /\ (if truthy mime then mime else "video/webm") = recordingType sup.
Proof.
  unfold startRecording, recordingType, chooseCodec, codecOptions. cbn [List.find fst].
  destruct (sup "video/webm;codecs=vp9");
    [|destruct (sup "video/webm;codecs=vp8"); [|destruct (sup "video/webm")]];
    eexists; (split; [split; [reflexivity | eexists; reflexivity] | reflexivity]).
Qed.

Lemma onStop_recordingOf (k : list ApiKey) (p m : string) (c : list Blob)
    (reply : Reply) (s : State) :
  recordingOf k p m c s ->
  let blob := newBlob c (if truthy m then m else "video/webm") in
  onStop reply s
  = if (blob_size blob =? 0)%nat
    then (set_error "Failed to process recorded video: Recorded video is empty" s, [])
    else sendToAPI k p (MediaBlob blob) "video" reply (set_videoBlob (Some blob) s).
Proof.
  intros [Hc [st Hr]]. unfold onStop. rewrite Hr, Hc. reflexivity.
Qed.

(** No call of [sendToAPI] posts a video for [openai]. *)
Lemma sendToAPI_no_openai_video (apiKeys : list ApiKey) (provider0 : string)
    (media : Media) (mediaType : string) (reply : Reply) (s : State) (b : Blob) :
  ~ In (Transcription.signToSpeechFromVideo b "openai")
       (requests (snd (sendToAPI apiKeys provider0 media mediaType reply s))).
Proof.
  rewrite sendToAPI_requests. unfold admitted.
  destruct (hasAPIKey apiKeys provider0); [|intros []]. cbn [andb].
  destruct (String.eqb mediaType "video" && String.eqb provider0 "openai") eqn:G;
    [intros []|]. cbn [negb].
  destruct (request media mediaType provider0) as [rq|] eqn:E; [|intros []].
  intros [-> | []].
  apply request_shape in E as [[-> [b' [_ E]]] | [_ [v E]]].
  - injection E as _ E. subst provider0. discriminate G.
  - discriminate E.
Qed.

Lemma handleUi_no_openai_video (keys : list ApiKey) (e : UiEvent) (s : State)
    (b : Blob) :
  ~ In (Transcription.signToSpeechFromVideo b "openai")
       (requests (snd (handleUi keys e s))).
Proof.
  destruct e as [e| newProvider | | | |sup perm|imageSrc reply|file compressed reply];
    cbn [handleUi snd]; try (intros []).
  - destruct e as [| |a|b0|reply|message]; cbn [handle snd]; try (intros []).
    unfold onStop. destruct (mediaRecorder s); [|intros []].
    destruct (_ =? 0)%nat; [intros []|]. apply sendToAPI_no_openai_video.
  - unfold clickRecord. destruct (_ && _); [|intros []].
    destruct (isRecording s); [intros []|].
    unfold startRecording. destruct perm; cbn; tauto.
  - unfold clickCapture, captureImage. destruct (_ && _); [|intros []].
    apply sendToAPI_no_openai_video.
  - unfold handleFileUpload. destruct file as [f|]; [|intros []].
    destruct (startsWith (blob_type f) "video/").
    + destruct compressed; [apply sendToAPI_no_openai_video | intros []].
    + destruct (startsWith (blob_type f) "image/");
        [apply sendToAPI_no_openai_video | intros []].
Qed.

Lemma stopRecording_fields (s : State) :
  provider (stopRecording s) = provider s
  /\ inputType (stopRecording s) = inputType s.
Proof.
  unfold stopRecording. destruct (mediaRecorder s) as [r|]; [|auto].
  destruct (rec_state r); auto.
Qed.

Lemma inputFits_same (s s' : State) :
  provider s' = provider s -> inputType s' = inputType s ->
  inputFits s -> inputFits s'.
Proof. unfold inputFits. intros -> ->. auto. Qed.

Lemma sendToAPI_inputFits (apiKeys : list ApiKey) (provider0 : string) (media : Media)
    (mediaType : string) (reply : Reply) (s : State) :
  inputFits s -> inputFits (fst (sendToAPI apiKeys provider0 media mediaType reply s)).
Proof.
  destruct (sendToAPI_frame apiKeys provider0 media mediaType reply s)
    as [_ [_ [Hp [Hi _]]]].
  now apply inputFits_same.
Qed.

Lemma handleUi_inputFits (keys : list ApiKey) (e : UiEvent) (s : State) :
  isVideoUpload e = false -> inputFits s -> inputFits (fst (handleUi keys e s)).
Proof.
  intros He H.
  destruct e as [e| newProvider | | | |sup perm|imageSrc reply|file compressed reply];
    cbn [handleUi fst].
  - destruct e as [| |a|b|reply|message]; cbn [handle fst].
    + unfold onTick. destruct (recordingTimer s); [|exact H].
      destruct (_ <=? _)%float.
      * destruct (stopRecording_fields s) as [Hp Hi].
        eapply inputFits_same; [| |exact H]; assumption.
      * exact H.
    + destruct (stopRecording_fields s) as [Hp Hi].
      eapply inputFits_same; [| |exact H]; assumption.
    + destruct a as [b|seen]; cbn [fire]; [exact H|].
      destruct (seen && _); [|exact H].
      destruct (stopRecording_fields s) as [Hp Hi].
      eapply inputFits_same; [| |exact H]; assumption.
    + unfold onDataAvailable. destruct (0 <? blob_size b)%nat; exact H.
    + unfold onStop. destruct (mediaRecorder s); [|exact H].
      destruct (_ =? 0)%nat; [exact H|]. apply sendToAPI_inputFits. exact H.
    + unfold recorderFailed. destruct (mediaRecorder s); exact H.
  - unfold selectProvider, inputFits in *.
    destruct (String.eqb_spec newProvider "openai") as [->|Hn]; cbn [andb].
    + destruct (String.eqb_spec (inputType s) "video") as [Hv|Hv]; cbn; [auto|].
      destruct H as [H | [H _]]; [auto | contradiction].
    + cbn. destruct H as [H | [H _]]; auto.
  - unfold clickVideo, inputFits in *.
    destruct (String.eqb_spec (provider s) "openai") as [Hp|Hp]; [exact H|].
    cbn. auto.
  - unfold clickImage, inputFits in *.
    destruct (String.eqb (provider s) "openai"); [exact H|]. cbn. auto.
  - unfold clickCamera. destruct (isCapturing s || isRecording s); [|exact H].
    destruct (isRecording s); [|exact H].
    destruct (stopRecording_fields s) as [Hp Hi].
    eapply inputFits_same; [| |exact H]; assumption.
  - unfold clickRecord. destruct (_ && _); [|exact H].
    destruct (isRecording s).
    + destruct (stopRecording_fields s) as [Hp Hi].
      eapply inputFits_same; [| |exact H]; assumption.
    + unfold startRecording. destruct perm; exact H.
  - unfold clickCapture, captureImage. destruct (_ && _); [|exact H].
    apply sendToAPI_inputFits. left. reflexivity.
  - unfold handleFileUpload. destruct file as [f|]; [|exact H].
    cbn [isVideoUpload] in He. rewrite He.
    destruct (startsWith (blob_type f) "image/"); [|exact H].
    apply sendToAPI_inputFits. left. reflexivity.
Qed.

End RecordingMore.

Section UiMore.

Import JsString SignToSpeech.

Lemma runUi_inputFits (keys : list ApiKey) (es : list UiEvent) :
  forall s : State,
  forallb (fun e => negb (isVideoUpload e)) es = true ->
  inputFits s -> inputFits (fst (runUi keys es s)).
Proof.
  induction es as [|e es IH]; intros s Hes H; [exact H|].
  cbn [forallb] in Hes. apply andb_true_iff in Hes as [He Hes].
  apply negb_true_iff in He.
  pose proof (handleUi_inputFits keys e s He H) as H1.
  cbn [runUi]. destruct (handleUi keys e s) as [s1 effects1].
  specialize (IH s1 Hes H1). destruct (runUi keys es s1) as [s2 effects2].
  exact IH.
Qed.

Lemma runUi_no_openai_video (keys : list ApiKey) (es : list UiEvent) (b : Blob) :
  forall s : State,
  ~ In (Transcription.signToSpeechFromVideo b "openai")
       (requests (snd (runUi keys es s))).
Proof.
  induction es as [|e es IH]; intros s; [intros []|].
  pose proof (handleUi_no_openai_video keys e s b) as H1.
  cbn [runUi]. destruct (handleUi keys e s) as [s1 effects1].
  specialize (IH s1). destruct (runUi keys es s1) as [s2 effects2].
  cbn [snd] in *. rewrite requests_app_s, in_app_iff. tauto.
Qed.

End UiMore.

(** X7. An answer whose [audio_base64] is not base64 is reported, not
    played: the translation is shown, the error is [Failed to analyze
    sign.], no audio URL is made, nothing is played or spoken (the browser's
    speech is not used as a fallback), loading ends, and the blink of an
    emergency phrase still runs. *)
Theorem undecodable_audio_is_reported
    (r : SignToSpeech.Result) (a : string) (s : SignToSpeech.State) :
  SignToSpeech.r_audio_base64 r = Some a -> a <> "" -> Base64.atob a = None ->
  let '(s', effects) := SignToSpeech.sendToAPI_settle (SignToSpeech.Resolved r) s in
  SignToSpeech.error s' = "Failed to analyze sign."
  /\ SignToSpeech.translation s' = SignToSpeech.r_translation r
  /\ SignToSpeech.audioUrl s' = SignToSpeech.audioUrl s
  /\ SignToSpeech.loading s' = false
  /\ SignToSpeech.sounds effects = []
  /\ SignToSpeech.timeouts effects
     = if SignToSpeech.isEmergencyDetected r then SignToSpeech.blink else [].
Proof.
  intros Ha Hne Hd. apply truthy_true in Hne.
  unfold SignToSpeech.sendToAPI_settle, SignToSpeech.onResult.
  rewrite Ha. simpl. rewrite Hne, Hd.
  destruct (SignToSpeech.isEmergencyDetected r); repeat split.
Qed.

Lemma undecodable_audio_is_reported_witness :
  let r := SignToSpeech.mkResult (Some "This is an emergency") (Some "SGk*") in
  let '(s', effects) :=
    SignToSpeech.sendToAPI_settle (SignToSpeech.Resolved r) SignToSpeech.initial in
  SignToSpeech.error s' = "Failed to analyze sign."
  /\ SignToSpeech.translation s' = SignToSpeech.r_translation r
  /\ SignToSpeech.audioUrl s' = SignToSpeech.audioUrl SignToSpeech.initial
  /\ SignToSpeech.loading s' = false
  /\ SignToSpeech.sounds effects = []
  /\ SignToSpeech.timeouts effects
     = if SignToSpeech.isEmergencyDetected r then SignToSpeech.blink else [].
Proof.
  intros r.
  apply (undecodable_audio_is_reported r "SGk*" SignToSpeech.initial).
  - reflexivity.
  - discriminate.
  - vm_compute. reflexivity.
Defined.

(** X8. What a recording sends when its recorder stops is fixed when it
    starts.  After [startRecording] in a render with API keys [keys0] and
    provider [provider s0], and whatever happens in between short of the
    record button (ticks, timers, data, the provider select, the input
    type buttons, the camera button, captures, uploads, with whatever keys
    later renders see), [recorder.onstop] builds one blob from the
    non-empty chunks that arrived, in order, typed by the recorder option
    taken, and posts it for the provider selected at the start if the
    keys of the start allow it; a later choice of provider or change of
    keys plays no part.  With no data the handler posts nothing and
    reports an empty recording. *)
Theorem recording_is_sent_as_started
    (keys0 keys : list ApiKey) (isTypeSupported : string -> bool)
    (s0 : SignToSpeech.State) (es : list SignToSpeech.UiEvent)
    (reply : SignToSpeech.Reply) :
  forallb (fun e => negb (SignToSpeech.isRecordClicked e)) es = true ->
  let started :=
    fst (SignToSpeech.startRecording keys0 isTypeSupported SignToSpeech.Granted s0) in
  let s := fst (SignToSpeech.runUi keys es started) in
  let blob :=
    newBlob (SignToSpeech.arrived es) (SignToSpeech.recordingType isTypeSupported) in
  SignToSpeech.requests (snd (SignToSpeech.onStop reply s))
  = (if negb (blob_size blob =? 0)%nat
        && SignToSpeech.admitted keys0 (SignToSpeech.provider s0) "video"
     then [Transcription.signToSpeechFromVideo blob (SignToSpeech.provider s0)]
     else [])
  /\ (blob_size blob = 0%nat ->
      SignToSpeech.onStop reply s
      = (SignToSpeech.set_error
           "Failed to process recorded video: Recorded video is empty" s, [])).
Proof.
  intros Hes started s blob.
  destruct (startRecording_recordingOf keys0 isTypeSupported s0) as [mime [H0 Hm]].
  pose proof (runUi_recordingOf keys keys0 (SignToSpeech.provider s0) mime es []
                _ Hes H0) as H.
  cbn [app] in H. fold started in H. fold s in H.
  pose proof (onStop_recordingOf _ _ _ _ reply s H) as Hstop.
  cbv zeta in Hstop. rewrite Hm in Hstop. fold blob in Hstop. rewrite Hstop.
  destruct (blob_size blob =? 0)%nat eqn:E.
  - split; [reflexivity | reflexivity].
  - split.
    + rewrite sendToAPI_requests. cbn [negb andb].
      destruct (SignToSpeech.admitted _ _ _); reflexivity.
    + intros H1. apply Nat.eqb_neq in E. contradiction.
Qed.

Lemma recording_is_sent_as_started_witness :
  let keys0 := [mkApiKey "gemini-pro" true] in
  let sup := fun m => String.eqb m "video/webm" in
  let a := mkBlob [Byte.x1a; Byte.x45] "video/webm" in
  let b := mkBlob [Byte.xdf] "video/webm" in
  let es :=
    [SignToSpeech.Component (SignToSpeech.DataAvailable a);
     SignToSpeech.ProviderSelected "openai";
     SignToSpeech.Component (SignToSpeech.DataAvailable (mkBlob [] "video/webm"));
     SignToSpeech.Component SignToSpeech.Tick;
     SignToSpeech.Component (SignToSpeech.DataAvailable b);
     SignToSpeech.Component SignToSpeech.StopClicked] in
  let started :=
    fst (SignToSpeech.startRecording keys0 sup SignToSpeech.Granted
           SignToSpeech.initial) in
  let s := fst (SignToSpeech.runUi [] es started) in
  let blob := newBlob (SignToSpeech.arrived es) (SignToSpeech.recordingType sup) in
  SignToSpeech.requests
    (snd (SignToSpeech.onStop (SignToSpeech.Failed None) s))
  = (if negb (blob_size blob =? 0)%nat
        && SignToSpeech.admitted keys0
             (SignToSpeech.provider SignToSpeech.initial) "video"
     then [Transcription.signToSpeechFromVideo blob
             (SignToSpeech.provider SignToSpeech.initial)]
     else [])
  /\ (blob_size blob = 0%nat ->
      SignToSpeech.onStop (SignToSpeech.Failed None) s
      = (SignToSpeech.set_error
           "Failed to process recorded video: Recorded video is empty" s, [])).
Proof.
  intros keys0 sup a b es.
  apply (recording_is_sent_as_started keys0 [] sup SignToSpeech.initial es
           (SignToSpeech.Failed None)).
  reflexivity.
Defined.

(** X9. The view never posts a video for the provider [openai]: whatever
    the state it is in and whatever is done to it (recordings started and
    stopped, uploads, captures, provider changes in between), no request
    built by [signToSpeechFromVideo] for [openai] is among those it
    sends. *)
Theorem no_video_is_sent_to_openai
    (keys : list ApiKey) (es : list SignToSpeech.UiEvent) (s : SignToSpeech.State) :
  Forall (fun rq => forall b, rq <> Transcription.signToSpeechFromVideo b "openai")
    (SignToSpeech.requests (snd (SignToSpeech.runUi keys es s))).
Proof.
  apply List.Forall_forall. intros rq Hin b ->.
  exact (runUi_no_openai_video keys es b s Hin).
Qed.

(** X10. [stopRecording] is idempotent: a second call, as made by the
    tick that reaches the maximum after the stop button or by the camera
    button after either, changes nothing. *)
Theorem stopRecording_idempotent (s : SignToSpeech.State) :
  SignToSpeech.stopRecording (SignToSpeech.stopRecording s)
  = SignToSpeech.stopRecording s.
Proof.
  unfold SignToSpeech.stopRecording.
  destruct (SignToSpeech.mediaRecorder s) as [r|] eqn:Hr; [|now rewrite Hr].
  destruct (SignToSpeech.rec_state r) eqn:Hst; cbn; rewrite ?Hr, ?Hst; reflexivity.
Qed.

(** X11. The auto-stop timer of [startRecording] never stops a recording.
    The record button starts a recording only in a render where
    [isRecording] is false, the timer's callback tests the [isRecording]
    of that render, so whenever the callback runs it leaves the state as
    it is; the only timer the button sets is that one, for 5000 ms. *)
Theorem auto_stop_timer_is_dead
    (keys : list ApiKey) (isTypeSupported : string -> bool)
    (perm : SignToSpeech.Permission) (s s' : SignToSpeech.State)
    (a : SignToSpeech.Action) (ms : Z) :
  In (SignToSpeech.SetTimeout a ms)
     (snd (SignToSpeech.clickRecord keys isTypeSupported perm s)) ->
  ms = 5000%Z /\ SignToSpeech.fire a s' = s'.
Proof.
  unfold SignToSpeech.clickRecord.
  destruct (_ && _); [|intros []].
  destruct (SignToSpeech.isRecording s) eqn:E; [intros []|].
  unfold SignToSpeech.startRecording. destruct perm; [|intros []].
  rewrite E. intros [H | [H | []]]; [discriminate|].
  injection H as <- <-. split; reflexivity.
Qed.

Lemma auto_stop_timer_is_dead_witness :
  let s :=
    SignToSpeech.set_isCapturing true SignToSpeech.initial in
  let s' :=
    fst (SignToSpeech.clickRecord [] (fun _ => true) SignToSpeech.Granted s) in
  5000%Z = 5000%Z
  /\ SignToSpeech.fire (SignToSpeech.AutoStop false) s' = s'.
Proof.
  intros s s'.
  apply (auto_stop_timer_is_dead [] (fun _ => true) SignToSpeech.Granted s s'
           (SignToSpeech.AutoStop false) 5000).
  right. left. reflexivity.
Defined.

(** X12. Without a video upload the provider select and the input type
    buttons keep the input type and the provider in step: from the
    initial view, after any events none of which is the choice of a video
    file, the input type is [image] or it is [video] with a provider
    other than [openai]; so with [openai] selected the record button does
    nothing. *)
Theorem video_input_needs_gemini
    (keys : list ApiKey) (es : list SignToSpeech.UiEvent) :
  forallb (fun e => negb (SignToSpeech.isVideoUpload e)) es = true ->
  let s := fst (SignToSpeech.runUi keys es SignToSpeech.initial) in
  SignToSpeech.inputFits s
  /\ (SignToSpeech.provider s = "openai" ->
      forall keys' isTypeSupported perm,
        SignToSpeech.clickRecord keys' isTypeSupported perm s = (s, [])).
Proof.
  intros Hes s.
  assert (H : SignToSpeech.inputFits s).
  { apply runUi_inputFits; [exact Hes|]. right. split; [reflexivity | discriminate]. }
  split; [exact H|]. intros Hp keys' sup perm.
  destruct H as [H | [_ H]]; [|contradiction].
  unfold SignToSpeech.clickRecord. rewrite H.
  now rewrite andb_false_r.
Qed.

Lemma video_input_needs_gemini_witness :
  let es :=
    [SignToSpeech.CameraClicked; SignToSpeech.ProviderSelected "openai";
     SignToSpeech.VideoClicked;
     SignToSpeech.FileChosen (Some (mkBlob [Byte.x89] "image/png"))
       (SignToSpeech.CompressionFailed "") (SignToSpeech.Failed None)] in
  let s := fst (SignToSpeech.runUi [] es SignToSpeech.initial) in
  SignToSpeech.inputFits s
  /\ (SignToSpeech.provider s = "openai" ->
      forall keys' isTypeSupported perm,
        SignToSpeech.clickRecord keys' isTypeSupported perm s = (s, [])).
Proof.
  intros es.
  apply (video_input_needs_gemini [] es). reflexivity.
Defined.



(** ** The speech view, beyond the claims *)

Section SpeechMore.

Import JsString SpeechToSign.

Variable apiKeys : list ApiKey.

Lemma append_assoc (a b c : string) : (a +:+ b) +:+ c = a +:+ (b +:+ c).
Proof.
  induction a as [|x a IH]; [reflexivity|].
  change (String x ((a +:+ b) +:+ c) = String x (a +:+ (b +:+ c))). now rewrite IH.
Qed.

Lemma append_empty_r (a : string) : a +:+ "" = a.
Proof.
  induction a as [|x a IH]; [reflexivity|].
  change (String x (a +:+ "") = String x a). now rewrite IH.
Qed.

Lemma last_default_cons (t i : string) (l : list string) :
  default i (last (t :: l)) = default t (last l).
Proof.
  revert t i. induction l as [|x l IH]; intros t i; [reflexivity|].
  change (last (t :: x :: l)) with (last (x :: l)).
  now rewrite (IH x i), (IH x t).
Qed.

Lemma absorb_spec (results : list (string * bool)) :
  forall final interim : string,
  absorb results final interim
  = (final +:+ finals results, default interim (last (interims results))).
Proof.
  induction results as [|[t [|]] rest IH]; intros final interim.
  - simpl. now rewrite append_empty_r.
  - cbn [absorb finals]. rewrite IH, !append_assoc. reflexivity.
  - cbn [absorb finals]. rewrite IH. unfold interims. cbn [List.filter snd negb map fst].
    now rewrite last_default_cons.
Qed.

Lemma sendTranscriptionChunk_kept (text : string) (n : nat) (s : State) :
  kept s -> kept (fst (sendTranscriptionChunk apiKeys text n s)).
Proof.
  intros H. unfold sendTranscriptionChunk. destruct (_ || _); [exact H|].
  destruct H as [_ H]. split; [reflexivity | exact H].
Qed.

Lemma onChunkSettled_kept (n : nat) (reply : Reply) (s : State) :
  kept s -> kept (onChunkSettled n reply s).
Proof.
  intros [_ H]. unfold onChunkSettled. split; [reflexivity|].
  destruct reply as [[text|]|]; [|exact H..].
  destruct (truthy text); [reflexivity | exact H].
Qed.

Lemma stopRecording_kept (s : State) :
  kept s -> kept (fst (stopRecording apiKeys s)).
Proof.
  intros H. unfold stopRecording. destruct (_ && _); [|exact H].
  match goal with
  | |- context [sendTranscriptionChunk apiKeys ?t ?n ?s'] =>
      pose proof (sendTranscriptionChunk_kept t n s' H) as H1;
      destruct (sendTranscriptionChunk apiKeys t n s') as [s2 effects]
  end.
  exact H1.
Qed.

Lemma recognitionEffect_kept (before s : State) :
  kept s -> kept (recognitionEffect before s).
Proof.
  intros H. unfold recognitionEffect. destruct (Bool.eqb _ _); exact H.
Qed.

Lemma dispatch_kept (e : Event) (s : State) :
  kept s -> kept (fst (dispatch apiKeys e s)).
Proof.
  intros H. destruct e as [results| |kind| |n reply|]; cbn [dispatch fst].
  - unfold onResult. destruct (absorb _ _ _). exact H.
  - unfold onEnd. destruct (isRecording s); [|exact H].
    destruct (truthy _); exact H.
  - unfold onError. destruct (_ || _); [exact H|].
    destruct (String.eqb kind "network"); [apply stopRecording_kept; exact H|].
    destruct (String.eqb kind "not-allowed"); [apply stopRecording_kept; exact H|].
    destruct (isRecording s); [apply stopRecording_kept; exact H | exact H].
  - unfold onChunkInterval. destruct (chunkInterval s); [|exact H].
    destruct (_ && _); [|exact H]. destruct (truthy _); [|exact H].
    match goal with
    | |- context [sendTranscriptionChunk apiKeys ?t ?n ?s'] =>
        pose proof (sendTranscriptionChunk_kept t n s' H) as H1;
        destruct (sendTranscriptionChunk apiKeys t n s') as [s2 effects]
    end.
    exact H1.
  - apply onChunkSettled_kept. exact H.
  - apply stopRecording_kept. exact H.
Qed.

Lemma startRecording_kept (perm : Permission) (s : State) :
  kept s -> kept (fst (startRecording apiKeys perm s)).
Proof.
  intros H. unfold startRecording. destruct (negb _); [exact H|].
  destruct H as [H _]. destruct perm; split; (exact H || reflexivity).
Qed.

Lemma handleUi_kept (e : UiEvent) (s : State) :
  kept s -> kept (fst (handleUi apiKeys e s)).
Proof.
  intros H. destruct e as [e|perm|p|l]; cbn [handleUi].
  - unfold handle. pose proof (dispatch_kept e s H) as H1.
    destruct (dispatch apiKeys e s) as [s1 effects].
    apply recognitionEffect_kept. exact H1.
  - assert (H1 : kept (fst (clickMic apiKeys perm s))).
    { unfold clickMic. destruct (canProceed _ _); [|exact H].
      destruct (isRecording s);
        [apply stopRecording_kept | apply startRecording_kept]; exact H. }
    destruct (clickMic apiKeys perm s) as [s1 effects].
    apply recognitionEffect_kept. exact H1.
  - unfold selectProvider. destruct (isRecording s); exact H.
  - unfold selectLanguage. destruct (_ || _); exact H.
Qed.

Lemma runUi_kept (es : list UiEvent) :
  forall s : State, kept s -> kept (fst (runUi apiKeys es s)).
Proof.
  induction es as [|e es IH]; intros s H; [exact H|].
  pose proof (handleUi_kept e s H) as H1.
  cbn [runUi]. destruct (handleUi apiKeys e s) as [s1 effects1].
  specialize (IH s1 H1). destruct (runUi apiKeys es s1) as [s2 effects2].
  exact IH.
Qed.


Lemma carriesContext_nil (c : string) : carriesContext c [].
Proof. constructor. Qed.

Lemma sendTranscriptionChunk_context (text : string) (n : nat) (s : State) :
  carriesContext (previousContext s) (snd (sendTranscriptionChunk apiKeys text n s)).
Proof.
  unfold sendTranscriptionChunk. destruct (_ || _); [apply carriesContext_nil|].
  constructor; [|apply carriesContext_nil]. unfold contextIn, contextOf. simpl.
  destruct (truthy (previousContext s)); reflexivity.
Qed.

Lemma stopRecording_context (s : State) :
  carriesContext (previousContext s) (snd (stopRecording apiKeys s)).
Proof.
  unfold stopRecording. destruct (_ && _).
  - match goal with
    | |- context [sendTranscriptionChunk apiKeys ?t ?n ?s'] =>
        pose proof (sendTranscriptionChunk_context t n s') as H1;
        destruct (sendTranscriptionChunk apiKeys t n s') as [s2 effects]
    end.
    unfold carriesContext in *. cbn [snd] in *. rewrite !requests_app.
    destruct (chunkInterval s); exact H1.
  - unfold carriesContext. cbn [snd]. rewrite !requests_app. destruct (chunkInterval s); apply carriesContext_nil.
Qed.

Lemma dispatch_context (e : Event) (s : State) :
  carriesContext (previousContext s) (snd (dispatch apiKeys e s)).
Proof.
  destruct e as [results| |kind| |n reply|]; cbn [dispatch snd]; try apply carriesContext_nil.
  - unfold onEnd. destruct (isRecording s); apply carriesContext_nil.
  - unfold onError. destruct (_ || _); [apply carriesContext_nil|].
    destruct (String.eqb kind "network"); [apply (stopRecording_context (set_error _ s))|].
    destruct (String.eqb kind "not-allowed");
      [apply (stopRecording_context (set_error _ s))|].
    destruct (isRecording s);
      [apply (stopRecording_context (set_error _ s)) | apply carriesContext_nil].
  - unfold onChunkInterval. destruct (chunkInterval s); [|apply carriesContext_nil].
    destruct (_ && _); [|apply carriesContext_nil]. destruct (truthy _); [|apply carriesContext_nil].
    match goal with
    | |- context [sendTranscriptionChunk apiKeys ?t ?n ?s'] =>
        pose proof (sendTranscriptionChunk_context t n s') as H1;
        destruct (sendTranscriptionChunk apiKeys t n s') as [s2 effects]
    end.
    exact H1.
  - apply stopRecording_context.
Qed.

Lemma handleUi_context (e : UiEvent) (s : State) :
  carriesContext (previousContext s) (snd (handleUi apiKeys e s)).
Proof.
  destruct e as [e|perm|p|l]; cbn [handleUi snd]; try apply carriesContext_nil.
  - unfold handle. pose proof (dispatch_context e s) as H1.
    destruct (dispatch apiKeys e s) as [s1 effects]. exact H1.
  - assert (H1 : carriesContext (previousContext s) (snd (clickMic apiKeys perm s))).
    { unfold clickMic. destruct (canProceed _ _); [|apply carriesContext_nil].
      destruct (isRecording s); [apply stopRecording_context|].
      unfold startRecording. destruct (negb _); [apply carriesContext_nil|].
      destruct perm; apply carriesContext_nil. }
    destruct (clickMic apiKeys perm s) as [s1 effects]. exact H1.
Qed.

End SpeechMore.

(** X14. [recognition.onresult] never loses or reorders a final result:
    the finalized transcript after the event is the one before followed by
    the transcripts of the event's final results, in order, each with a
    space after it; the interim transcript is that of the event's last
    result that is not final, or empty; and the transcription shown is the
    two joined and trimmed. *)
Theorem onresult_appends_finals
    (results : list (string * bool)) (s : SpeechToSign.State) :
  let s' := SpeechToSign.onResult results s in
  SpeechToSign.finalTranscript s'
  = SpeechToSign.finalTranscript s +:+ SpeechToSign.finals results
  /\ SpeechToSign.interimTranscript s'
     = default "" (last (SpeechToSign.interims results))
  /\ SpeechToSign.transcription s'
     = JsString.trim
         (SpeechToSign.finalTranscript s' +:+ SpeechToSign.interimTranscript s').
Proof.
  unfold SpeechToSign.onResult. rewrite absorb_spec. repeat split.
Qed.

(** X15. The number of pending requests the view shows is always the
    number of distinct request ids it holds: from the initial view, after
    any clicks on the microphone button, changes of provider or language,
    recognition events, interval firings and settled chunks, in any order,
    [pendingRequestsCount] is the size of [pendingRequestsRef]. *)
Theorem pending_count_is_set_size
    (apiKeys : list ApiKey) (es : list SpeechToSign.UiEvent) :
  let s := fst (SpeechToSign.runUi apiKeys es SpeechToSign.initial) in
  SpeechToSign.pendingRequestsCount s = size (SpeechToSign.pendingRequests s).
Proof.
  intros s. apply (runUi_kept apiKeys es SpeechToSign.initial). split; reflexivity.
Qed.

(** X16. The context a chunk is sent with is the summary on the screen.
    From the initial view and after any events, [previousContextRef] holds
    the summary shown, so every request the next event posts carries that
    summary as its [previous_context], or [null] when no summary is
    shown. *)
Theorem chunk_context_is_the_summary
    (apiKeys : list ApiKey) (es : list SpeechToSign.UiEvent)
    (e : SpeechToSign.UiEvent) :
  let s := fst (SpeechToSign.runUi apiKeys es SpeechToSign.initial) in
  SpeechToSign.previousContext s = SpeechToSign.summary s
  /\ Forall (fun rq =>
               SpeechToSign.contextIn rq
               = Some (if JsString.truthy (SpeechToSign.summary s)
                       then Transcription.JString (SpeechToSign.summary s)
                       else Transcription.JNull))
       (SpeechToSign.requests (snd (SpeechToSign.handleUi apiKeys e s))).
Proof.
  intros s.
  assert (H : SpeechToSign.previousContext s = SpeechToSign.summary s).
  { apply (runUi_kept apiKeys es SpeechToSign.initial). split; reflexivity. }
  split; [exact H|]. rewrite <- H. apply (handleUi_context apiKeys e s).
Qed.

(** ** Accounts *)

Section Accounts.

Import JsString.

Lemma trimStart_blank (s : string) :
  trimStart s = "" <-> forallb isWhiteSpace (list_ascii_of_string s) = true.
Proof.
  induction s as [|c s IH]; [simpl; tauto|].
  cbn [trimStart list_ascii_of_string forallb].
  destruct (isWhiteSpace c); cbn [andb]; [exact IH|]. split; discriminate.
Qed.

Lemma trimEnd_blank (s : string) :
  trimEnd s = "" <-> forallb isWhiteSpace (list_ascii_of_string s) = true.
Proof.
  induction s as [|c s IH]; [simpl; tauto|].
  cbn [trimEnd list_ascii_of_string forallb].
  destruct (trimEnd s) as [|d t].
  - destruct (isWhiteSpace c); cbn [andb]; [|split; discriminate].
    split; [intros _; now apply IH | reflexivity].
  - split; [discriminate|]. intros H. apply andb_true_iff in H as [_ H].
    apply IH in H. discriminate H.
Qed.

Lemma trimStart_suffix (s : string) :
  forallb isWhiteSpace (list_ascii_of_string (trimStart s)) = true ->
  forallb isWhiteSpace (list_ascii_of_string s) = true.
Proof.
  induction s as [|c s IH]; [auto|].
  cbn [trimStart]. destruct (isWhiteSpace c) eqn:E.
  - intros H. cbn [list_ascii_of_string forallb]. rewrite E. now apply IH.
  - cbn [list_ascii_of_string forallb]. rewrite E. discriminate.
Qed.

(** A string trims to nothing exactly when it holds only white space. *)
Lemma trim_blank (s : string) :
  truthy (trim s) = false
  <-> forallb isWhiteSpace (list_ascii_of_string s) = true.
Proof.
  rewrite truthy_false. unfold trim. rewrite trimEnd_blank. split.
  - apply trimStart_suffix.
  - intros H. apply trimStart_blank in H. now rewrite H.
Qed.

Lemma stored_token (b : Api.Browser) (token : string) (headers : gmap string string) :
  Api.localStorage b !! "aria_token" = Some token ->
  Api.requestInterceptor b headers
  = if truthy token then <["Authorization" := "Bearer " +:+ token]> headers
    else headers.
Proof. unfold Api.requestInterceptor. now intros ->. Qed.

Lemma no_token (b : Api.Browser) (headers : gmap string string) :
  Api.localStorage b !! "aria_token" = None ->
  Api.requestInterceptor b headers = headers.
Proof. unfold Api.requestInterceptor. now intros ->. Qed.

End Accounts.

(** X17. A login that the backend accepts is a session: for an answer
    with a 2xx status, [handleSubmit] stores the answer's [access_token]
    under [aria_token], goes to [/dashboard], shows no error and ends
    loading, and every request made afterwards through the shared client
    carries [Authorization: Bearer] followed by that token.  A missing
    [access_token] is stored as the text [undefined] and sent as such. *)
Theorem login_then_authorized
    (r : Api.Response Auth.Body) (st : Login.State) (b : Api.Browser)
    (headers : gmap string string) :
  Api.validateStatus (Api.status r) = true ->
  let '(st', b', calls) := Login.handleSubmit (Api.Answer r) st b in
  let token := Auth.stored (Auth.access_token (Api.data r)) in
  Api.localStorage b' !! "aria_token" = Some token
  /\ Api.requestInterceptor b' headers
     = (if JsString.truthy token
        then <["Authorization" := "Bearer " +:+ token]> headers
        else headers)
  /\ Api.location_href b' = "/dashboard"
  /\ Login.error st' = ""
  /\ Login.loading st' = false
  /\ calls
     = [Auth.login [("email", Transcription.JString (Login.email st));
                    ("password", Transcription.JString (Login.password st))]].
Proof.
  intros H. unfold Login.handleSubmit, Api.receive, Api.settle. rewrite H.
  cbn [Api.responseInterceptor].
  assert (Hl : forall m : gmap string string,
            <["aria_user" := Auth.stored (Auth.user (Api.data r))]>
              (<["aria_token" := Auth.stored (Auth.access_token (Api.data r))]> m)
            !! "aria_token"
            = Some (Auth.stored (Auth.access_token (Api.data r)))).
  { intros m. rewrite lookup_insert_ne by done. apply lookup_insert_eq. }
  split; [apply Hl|]. split; [|repeat split].
  apply stored_token. apply Hl.
Qed.

Lemma login_then_authorized_witness :
  let r := Api.mkResponse 200 (Auth.mkBody (Some "abc") (Some "{}") None None) in
  let st := Login.mkState "a@b.c" "secret" "" false in
  let b := Api.mkBrowser ∅ "/login" in
  let '(st', b', calls) := Login.handleSubmit (Api.Answer r) st b in
  let token := Auth.stored (Auth.access_token (Api.data r)) in
  Api.localStorage b' !! "aria_token" = Some token
  /\ Api.requestInterceptor b' ∅
     = (if JsString.truthy token
        then <["Authorization" := "Bearer " +:+ token]> ∅
        else ∅)
  /\ Api.location_href b' = "/dashboard"
  /\ Login.error st' = ""
  /\ Login.loading st' = false
  /\ calls
     = [Auth.login [("email", Transcription.JString (Login.email st));
                    ("password", Transcription.JString (Login.password st))]].
Proof.
  intros r st b.
  apply (login_then_authorized r st b ∅). reflexivity.
Defined.

(** X18. A login that fails shows why and stores nothing: when the call
    is rejected, the error shown is the [detail] of the answer, or [Login
    failed. Please check your credentials.] when there is none, loading
    ends, and no token is written.  A 401, the answer to wrong
    credentials, also goes through the client's interceptor: the stored
    session is removed and the browser is sent to [/login]; any other
    failure leaves the browser as it was. *)
Theorem failed_login_is_reported
    (t : Api.Transport Auth.Body) (e : Api.AxiosError Auth.Body)
    (st : Login.State) (b : Api.Browser) :
  Api.settle t = Api.Rejected e ->
  let '(st', b', calls) := Login.handleSubmit t st b in
  Login.error st'
  = JsString.orElse (Auth.detailOf e) "Login failed. Please check your credentials."
  /\ Login.loading st' = false
  /\ (if Api.isUnauthorized e
      then Api.localStorage b' !! "aria_token" = None
           /\ Api.localStorage b' !! "aria_user" = None
           /\ Api.location_href b' = "/login"
      else b' = b).
Proof.
  intros H. unfold Login.handleSubmit, Api.receive. rewrite H.
  cbn [Api.responseInterceptor]. destruct (Api.isUnauthorized e) eqn:E.
  - repeat split.
    + cbn. rewrite lookup_delete_ne by done. apply lookup_delete_eq.
    + cbn. apply lookup_delete_eq.
  - repeat split.
Qed.

Lemma failed_login_is_reported_witness :
  let r := Api.mkResponse 401
             (Auth.mkBody None None (Some "Incorrect email or password") None) in
  let e := Api.mkAxiosError (Some r) in
  let st := Login.mkState "a@b.c" "wrong" "" false in
  let b := Api.mkBrowser {[ "aria_token" := "old" ]} "/login" in
  let '(st', b', calls) := Login.handleSubmit (Api.Answer r) st b in
  Login.error st'
  = JsString.orElse (Auth.detailOf e) "Login failed. Please check your credentials."
  /\ Login.loading st' = false
  /\ (if Api.isUnauthorized e
      then Api.localStorage b' !! "aria_token" = None
           /\ Api.localStorage b' !! "aria_user" = None
           /\ Api.location_href b' = "/login"
      else b' = b).
Proof.
  intros r e st b.
  apply (failed_login_is_reported (Api.Answer r) e st b). reflexivity.
Defined.

(** X19. Logging out ends the session whatever came before: after
    [handleLogout] neither [aria_token] nor [aria_user] is stored, every
    other key is kept, the browser is at [/], and the request interceptor
    adds nothing to the headers of the requests that follow, also right
    after a login. *)
Theorem logout_ends_session
    (t : Api.Transport Auth.Body) (st : Login.State) (b : Api.Browser)
    (headers : gmap string string) :
  let b' := Dashboard.handleLogout b in
  Api.localStorage b' !! "aria_token" = None
  /\ Api.localStorage b' !! "aria_user" = None
  /\ (forall k, k <> "aria_token" -> k <> "aria_user" ->
        Api.localStorage b' !! k = Api.localStorage b !! k)
  /\ Api.location_href b' = "/"
  /\ Api.requestInterceptor b' headers = headers
  /\ Api.requestInterceptor
       (Dashboard.handleLogout (snd (fst (Login.handleSubmit t st b)))) headers
     = headers.
Proof.
  assert (H : forall b0, Api.localStorage (Dashboard.handleLogout b0) !! "aria_token"
                         = None).
  { intros b0. cbn. rewrite lookup_delete_ne by done. apply lookup_delete_eq. }
  intros b'. split; [apply H|]. split; [apply lookup_delete_eq|].
  split; [intros k H1 H2; cbn; now rewrite !lookup_delete_ne by done|].
  split; [reflexivity|]. split; apply no_token, H.
Qed.

(** X20. [handleSubmit] of the registration page sends a request exactly
    when the two passwords are equal and at least six characters long.
    A mismatch is reported first, a short password second, and neither
    touches the loading flag or the browser.  The request carries the
    e-mail address, the user name, the password and the full name, [null]
    for an empty one; the confirmation is never sent.  After an accepted
    request the page goes to [/login] and the stored session is kept.  A
    rejected request shows the answer's [detail], or [Registration failed.
    Please try again.]; a 401 among them also goes through the client's
    interceptor, which removes the stored session and sends the browser to
    [/login] all the same, and any other failure leaves the browser as it
    was. *)
Theorem register_validates
    (t : Api.Transport Auth.Body) (st : Register.State) (b : Api.Browser) :
  let f := Register.formData st in
  let valid :=
    Register.password f = Register.confirmPassword f
    /\ (6 <= String.length (Register.password f))%nat in
  let '(st', b', calls) := Register.handleSubmit t st b in
  (calls
   = [Auth.register
        [("email", Transcription.JString (Register.email f));
         ("username", Transcription.JString (Register.username f));
         ("password", Transcription.JString (Register.password f));
         ("full_name",
          if JsString.truthy (Register.fullName f)
          then Transcription.JString (Register.fullName f)
          else Transcription.JNull)]]
   <-> valid)
  /\ (calls = [] <-> ~ valid)
  /\ (Register.password f <> Register.confirmPassword f ->
      Register.error st' = "Passwords do not match"
      /\ Register.loading st' = Register.loading st
      /\ b' = b)
  /\ (Register.password f = Register.confirmPassword f ->
      (String.length (Register.password f) < 6)%nat ->
      Register.error st' = "Password must be at least 6 characters"
      /\ Register.loading st' = Register.loading st
      /\ b' = b)
  /\ (valid ->
      Register.loading st' = false
      /\ match Api.settle t with
         | Api.Fulfilled _ =>
             Register.error st' = ""
             /\ b' = Api.mkBrowser (Api.localStorage b) "/login"
         | Api.Rejected e =>
             Register.error st'
             = JsString.orElse (Auth.detailOf e)
                 "Registration failed. Please try again."
             /\ (if Api.isUnauthorized e
                 then Api.localStorage b' !! "aria_token" = None
                      /\ Api.localStorage b' !! "aria_user" = None
                      /\ Api.location_href b' = "/login"
                 else b' = b)
         end).
Proof.
  intros f valid. unfold Register.handleSubmit. fold f. unfold valid.
  destruct (String.eqb_spec (Register.password f) (Register.confirmPassword f))
    as [Heq|Hne]; cbn [negb].
  - destruct (Nat.ltb_spec (String.length (Register.password f)) 6) as [Hlt|Hge].
    + repeat split; intros; try discriminate; try lia; try tauto; auto.
      all: try (destruct H as [_ H]; lia).
    + unfold Api.receive. destruct (Api.settle t) as [r|e];
        cbn [Api.responseInterceptor].
      * repeat split; intros; try discriminate; try lia; try tauto; auto.
      * destruct (Api.isUnauthorized e) eqn:E.
        -- repeat split; intros; try discriminate; try lia; try tauto; auto.
           ++ cbn. rewrite lookup_delete_ne by done. apply lookup_delete_eq.
           ++ cbn. apply lookup_delete_eq.
        -- repeat split; intros; try discriminate; try lia; try tauto; auto.
  - repeat split; intros; try discriminate; try tauto; auto.
    all: try (destruct H as [H _]; contradiction).
Qed.

(** X21. [handleSave] of the settings sends a key exactly when it holds
    something other than white space, and then sends it as typed, not
    trimmed.  Otherwise it asks for a key and calls nothing.  After an
    accepted save the form is reset, the list is reloaded and is what the
    reload returned (unchanged when the reload fails), [onUpdate] is
    reached and the message is [API key saved successfully!]; after a
    rejected save the form keeps its text and nothing is reloaded. *)
Theorem save_needs_a_visible_key
    (saved loaded : Api.Settled Auth.Body) (st : Settings.State) :
  let blank :=
    forallb JsString.isWhiteSpace (list_ascii_of_string (Settings.newKey_api_key st)) in
  let call :=
    Auth.saveAPIKey
      [("provider", Transcription.JString (Settings.newKey_provider st));
       ("api_key", Transcription.JString (Settings.newKey_api_key st))] in
  let '(st', calls, updated) := Settings.handleSave saved loaded st in
  (if blank
   then calls = [] /\ updated = false
        /\ Settings.message st' = "Please enter an API key"
        /\ Settings.apiKeys st' = Settings.apiKeys st
        /\ Settings.newKey_api_key st' = Settings.newKey_api_key st
   else
     match saved with
     | Api.Fulfilled _ =>
         calls = [call; Auth.getAPIKeys] /\ updated = true
         /\ Settings.message st' = "API key saved successfully!"
         /\ Settings.apiKeys st'
            = match loaded with
              | Api.Fulfilled r => default [] (Auth.api_keys (Api.data r))
              | Api.Rejected _ => Settings.apiKeys st
              end
         /\ Settings.newKey_api_key st' = ""
         /\ Settings.newKey_provider st' = "openai"
     | Api.Rejected e =>
         calls = [call] /\ updated = false
         /\ Settings.message st'
            = JsString.orElse (Auth.detailOf e) "Failed to save API key"
         /\ Settings.apiKeys st' = Settings.apiKeys st
         /\ Settings.newKey_api_key st' = Settings.newKey_api_key st
     end)
  /\ Settings.loading st' = (if blank then Settings.loading st else false).
Proof.
  intros blank call. unfold Settings.handleSave.
  destruct (JsString.truthy (JsString.trim (Settings.newKey_api_key st))) eqn:E;
    cbn [negb].
  - assert (Hb : blank = false).
    { destruct blank eqn:B; [|reflexivity].
      apply trim_blank in B. congruence. }
    rewrite Hb. destruct saved as [r|e]; [destruct loaded as [r'|e']|];
      repeat split.
  - apply trim_blank in E. fold blank in E. rewrite E. repeat split.
Qed.

(** ** The history list, beyond the claims *)

(** X22. The history list renders one card per entry, in the order of
    the entries, each keyed by its entry's id; so entries with distinct
    ids give cards with distinct React keys. *)
Theorem history_cards_are_keyed_by_id (history : list History.Entry) :
  NoDup (map History.id history) ->
  let cards := History.children (History.renderHistory history) in
  NoDup (map History.keyOf cards)
  /\ (history <> [] ->
      cards = map History.renderEntry history
      /\ map History.keyOf cards
         = map (fun e => Some (pretty (History.id e))) history).
Proof.
  intros Hnd.
  assert (Hk : map History.keyOf (map History.renderEntry history)
               = map (fun z : Z => Some (pretty z)) (map History.id history)).
  { rewrite !List.map_map. reflexivity. }
  destruct history as [|e history'].
  - split; [|congruence]. apply NoDup_cons. split; [|apply NoDup_nil; exact I].
    apply not_elem_of_nil.
  - set (history := e :: history') in *.
    change (History.children (History.renderHistory history))
      with (map History.renderEntry history).
    cbv zeta. split.
    + rewrite Hk.
      apply (NoDup_fmap_2 (fun z : Z => Some (pretty z)));
        first [exact Hnd | intros x y [= H]; now apply pretty_Z_inj in H].
    + intros _. split; [reflexivity|]. rewrite Hk. now rewrite List.map_map.
Qed.

Lemma history_cards_are_keyed_by_id_witness :
  let e1 := History.mkEntry 7 "speech_to_sign" "2024-01-01" (Some "hi") None
              (Some ["HELLO"]) "openai" 120 in
  let e2 := History.mkEntry 3 "sign_to_speech" "2024-01-02" None (Some "yes") None
              "gemini-pro" 300 in
  let cards := History.children (History.renderHistory [e1; e2]) in
  NoDup (map History.keyOf cards)
  /\ ([e1; e2] <> [] ->
      cards = map History.renderEntry [e1; e2]
      /\ map History.keyOf cards
         = map (fun e => Some (pretty (History.id e))) [e1; e2]).
Proof.
  intros e1 e2.
  apply (history_cards_are_keyed_by_id [e1; e2]).
  apply NoDup_cons_2;
    [ intros H; apply elem_of_cons in H as [H | H];
      [discriminate H | exact (not_elem_of_nil _ H)]
    | apply NoDup_cons_2; [apply not_elem_of_nil | apply NoDup_nil_2] ].
Defined.

(** ** What a tick of the chunk interval sends *)

Section NewText.

Import JsString SpeechToSign.

Lemma dropPrefix_spec (p : string) :
  forall s rest : string, dropPrefix s p = Some rest -> s = p +:+ rest.
Proof.
  induction p as [|a p IH]; intros s rest.
  - destruct s; intros [= <-]; reflexivity.
  - destruct s as [|b s]; [discriminate|]. cbn [dropPrefix].
    destruct (Ascii.eqb_spec a b) as [->|_]; [|discriminate].
    intros H. apply IH in H. now rewrite H.
Qed.

Lemma blank_append (a b : string) :
  forallb isWhiteSpace (list_ascii_of_string (a +:+ b))
  = forallb isWhiteSpace (list_ascii_of_string a)
    && forallb isWhiteSpace (list_ascii_of_string b).
Proof.
  induction a as [|c a IH]; [reflexivity|].
  change (String c a +:+ b) with (String c (a +:+ b)).
  cbn [list_ascii_of_string forallb]. now rewrite IH, andb_assoc.
Qed.

Lemma trimEnd_append_blank (p y : string) :
  forallb isWhiteSpace (list_ascii_of_string y) = true ->
  trimEnd (p +:+ y) = trimEnd p.
Proof.
  intros Hy. induction p as [|c p IH].
  - now apply trimEnd_blank.
  - change (String c p +:+ y) with (String c (p +:+ y)).
    cbn [trimEnd]. now rewrite IH.
Qed.

Lemma length_trimEnd (p : string) : (String.length (trimEnd p) <= String.length p)%nat.
Proof.
  induction p as [|c p IH]; [reflexivity|]. cbn [trimEnd].
  destruct (trimEnd p) as [|d t].
  - destruct (isWhiteSpace c); simpl in *; lia.
  - simpl in *. lia.
Qed.

Lemma length_append (a b : string) :
  String.length (a +:+ b) = (String.length a + String.length b)%nat.
Proof.
  induction a as [|c a IH]; [reflexivity|].
  change (String c a +:+ b) with (String c (a +:+ b)). simpl. now rewrite IH.
Qed.

(** Taking a string out of a trimmed text that is not that string never
    leaves white space only. *)
Lemma replace_leaves_text (x chunk : string) :
  let cur := trim x in
  cur <> "" -> cur <> chunk -> truthy (trim (replace cur chunk "")) = true.
Proof.
  intros cur Hne Hchunk.
  destruct (truthy (trim (replace cur chunk ""))) eqn:E; [reflexivity|]. exfalso.
  apply trim_blank in E.
  assert (Hclean : startsClean cur)
    by (apply trimEnd_clean, trimStart_clean).
  assert (Hend : trimEnd cur = cur) by apply trimEnd_idempotent.
  destruct cur as [|c cur'] eqn:Ec; [congruence|].
  unfold replace in E; fold replace in E.
  destruct (dropPrefix (String c cur') chunk) as [rest|] eqn:D.
  - apply dropPrefix_spec in D.
    change ("" +:+ rest) with rest in E.
    pose proof (trimEnd_append_blank chunk rest E) as Ht.
    rewrite <- D, Hend in Ht.
    pose proof (length_trimEnd chunk) as Hl. rewrite <- Ht in Hl.
    rewrite D, length_append in Hl.
    assert (rest = "") by (destruct rest; [reflexivity | simpl in Hl; lia]).
    subst rest. rewrite append_empty_r in D. congruence.
  - cbn [list_ascii_of_string forallb] in E. simpl in Hclean.
    rewrite Hclean in E. discriminate E.
Qed.

End NewText.

(** X23. A firing of the chunk interval sends a chunk exactly when the
    interval is set, the provider has an active key, and the trimmed
    finalized transcript is neither empty nor the one last marked as sent;
    the test on the new part of the text never holds a chunk back.  The
    transcript is marked as sent, and the chunk counter advanced, whether
    or not there is a key. *)
Theorem interval_sends_exactly_new_transcript
    (apiKeys : list ApiKey) (s : SpeechToSign.State) :
  let cur := JsString.trim (SpeechToSign.finalTranscript s) in
  let fresh :=
    SpeechToSign.chunkInterval s && JsString.truthy cur
    && negb (String.eqb cur (SpeechToSign.transcriptionChunk s)) in
  let '(s', effects) := SpeechToSign.onChunkInterval apiKeys s in
  SpeechToSign.requests effects
  = (if fresh && SpeechToSign.hasProviderKey apiKeys (SpeechToSign.provider s)
     then [Transcription.transcriptionChunkSummary cur (SpeechToSign.provider s)
             (SpeechToSign.contextOf s)]
     else [])
  /\ SpeechToSign.transcriptionChunk s'
     = (if fresh then cur else SpeechToSign.transcriptionChunk s)
  /\ SpeechToSign.chunkCounter s'
     = (if fresh then S (SpeechToSign.chunkCounter s) else SpeechToSign.chunkCounter s).
Proof.
  intros cur fresh. unfold fresh, SpeechToSign.onChunkInterval. fold cur.
  destruct (SpeechToSign.chunkInterval s); [|repeat split]. cbn [andb].
  destruct (JsString.truthy cur) eqn:Hc; [|repeat split]. cbn [andb].
  destruct (String.eqb_spec cur (SpeechToSign.transcriptionChunk s)) as [|Hne];
    [repeat split|]. cbn [negb].
  assert (Hnew : JsString.truthy
                   (JsString.trim
                      (JsString.replace cur (SpeechToSign.transcriptionChunk s) ""))
                 = true).
  { apply replace_leaves_text; [|exact Hne]. now apply truthy_true. }
  rewrite Hnew. unfold SpeechToSign.sendTranscriptionChunk.
  unfold cur at 1 2. rewrite trim_idempotent. fold cur. rewrite Hc.
  cbn [SpeechToSign.provider SpeechToSign.set_chunkCounter].
  destruct (SpeechToSign.hasProviderKey apiKeys (SpeechToSign.provider s));
    repeat split.
Qed.

Section Silent.

Import JsString.

Variable apiKeys : list ApiKey.
Hypothesis inactive : forallb (fun k => negb (is_active k)) apiKeys = true.

Lemma hasAPIKey_inactive (p : string) : SignToSpeech.hasAPIKey apiKeys p = false.
Proof.
  unfold SignToSpeech.hasAPIKey. induction apiKeys as [|k ks IH]; [reflexivity|].
  cbn [forallb existsb] in *. apply andb_true_iff in inactive as [Hk Hks].
  apply negb_true_iff in Hk. rewrite Hk, andb_false_r. now apply IH.
Qed.

Lemma sendToAPI_silent (p : string) (media : SignToSpeech.Media) (mediaType : string)
    (reply : SignToSpeech.Reply) (s : SignToSpeech.State) :
  SignToSpeech.requests
    (snd (SignToSpeech.sendToAPI apiKeys p media mediaType reply s)) = [].
Proof.
  rewrite sendToAPI_requests. unfold SignToSpeech.admitted.
  now rewrite hasAPIKey_inactive.
Qed.

Lemma recorderSaw_same (s s' : SignToSpeech.State) :
  SignToSpeech.mediaRecorder s' = SignToSpeech.mediaRecorder s ->
  SignToSpeech.recorderSaw apiKeys s -> SignToSpeech.recorderSaw apiKeys s'.
Proof. unfold SignToSpeech.recorderSaw. now intros ->. Qed.

Lemma stopRecording_recorderSaw (s : SignToSpeech.State) :
  SignToSpeech.recorderSaw apiKeys s ->
  SignToSpeech.recorderSaw apiKeys (SignToSpeech.stopRecording s).
Proof.
  unfold SignToSpeech.recorderSaw, SignToSpeech.stopRecording.
  destruct (SignToSpeech.mediaRecorder s) as [r|] eqn:Hr; intros H.
  - destruct (SignToSpeech.rec_state r); cbn; rewrite ?Hr; exact H.
  - cbn. rewrite ?Hr. exact H.
Qed.

Lemma sendToAPI_recorderSaw (keys : list ApiKey) (p : string)
    (media : SignToSpeech.Media) (mediaType : string) (reply : SignToSpeech.Reply)
    (s : SignToSpeech.State) :
  SignToSpeech.recorderSaw apiKeys s ->
  SignToSpeech.recorderSaw apiKeys
    (fst (SignToSpeech.sendToAPI keys p media mediaType reply s)).
Proof.
  destruct (sendToAPI_frame keys p media mediaType reply s) as [_ [Hr _]].
  now apply recorderSaw_same.
Qed.

Lemma handleUi_silent (e : SignToSpeech.UiEvent) (s : SignToSpeech.State) :
  SignToSpeech.recorderSaw apiKeys s ->
  SignToSpeech.recorderSaw apiKeys (fst (SignToSpeech.handleUi apiKeys e s))
  /\ SignToSpeech.requests (snd (SignToSpeech.handleUi apiKeys e s)) = [].
Proof.
  intros H.
  destruct e as [e| newProvider | | | |sup perm|imageSrc reply|file compressed reply];
    cbn [SignToSpeech.handleUi fst snd].
  - destruct e as [| |a|b|reply|message]; cbn [SignToSpeech.handle fst snd].
    + split; [|reflexivity]. unfold SignToSpeech.onTick.
      destruct (SignToSpeech.recordingTimer s); [|exact H].
      destruct (_ <=? _)%float; [|exact H].
      eapply recorderSaw_same; [|apply stopRecording_recorderSaw, H]. reflexivity.
    + split; [now apply stopRecording_recorderSaw | reflexivity].
    + split; [|reflexivity]. destruct a as [b|seen]; cbn [SignToSpeech.fire];
        [exact H|].
      destruct (seen && _); [now apply stopRecording_recorderSaw | exact H].
    + split; [|reflexivity]. unfold SignToSpeech.onDataAvailable.
      destruct (0 <? blob_size b)%nat; exact H.
    + unfold SignToSpeech.onStop.
      destruct (SignToSpeech.mediaRecorder s) as [r|] eqn:Hr.
      * assert (Hk : SignToSpeech.rec_apiKeys r = apiKeys).
        { unfold SignToSpeech.recorderSaw in H. now rewrite Hr in H. }
        rewrite Hk. destruct (_ =? 0)%nat.
        -- split; [exact H | reflexivity].
        -- split; [apply sendToAPI_recorderSaw; exact H | apply sendToAPI_silent].
      * split; [exact H | reflexivity].
    + split; [|reflexivity]. unfold SignToSpeech.recorderFailed.
      unfold SignToSpeech.recorderSaw in *.
      destruct (SignToSpeech.mediaRecorder s) as [r|] eqn:Hr;
        [exact H | cbn; now rewrite Hr].
  - split; [|reflexivity]. unfold SignToSpeech.selectProvider.
    destruct (_ && _); exact H.
  - split; [|reflexivity]. unfold SignToSpeech.clickVideo.
    destruct (String.eqb _ _); exact H.
  - split; [|reflexivity]. unfold SignToSpeech.clickImage.
    destruct (String.eqb _ _); exact H.
  - split; [|reflexivity]. unfold SignToSpeech.clickCamera.
    destruct (SignToSpeech.isCapturing s || SignToSpeech.isRecording s); [|exact H].
    destruct (SignToSpeech.isRecording s); [|exact H].
    eapply recorderSaw_same; [|apply stopRecording_recorderSaw, H]. reflexivity.
  - unfold SignToSpeech.clickRecord. destruct (_ && _); [|split; [exact H | reflexivity]].
    destruct (SignToSpeech.isRecording s).
    + split; [now apply stopRecording_recorderSaw | reflexivity].
    + unfold SignToSpeech.startRecording. destruct perm; split;
        (exact H || reflexivity).
  - unfold SignToSpeech.clickCapture, SignToSpeech.captureImage.
    destruct (_ && _); [|split; [exact H | reflexivity]].
    split; [apply sendToAPI_recorderSaw; exact H | apply sendToAPI_silent].
  - unfold SignToSpeech.handleFileUpload.
    destruct file as [f|]; [|split; [exact H | reflexivity]].
    destruct (startsWith (blob_type f) "video/").
    + destruct compressed as [b|message].
      * split; [apply sendToAPI_recorderSaw; exact H | apply sendToAPI_silent].
      * split; [exact H | reflexivity].
    + destruct (startsWith (blob_type f) "image/").
      * split; [apply sendToAPI_recorderSaw; exact H | apply sendToAPI_silent].
      * split; [exact H | reflexivity].
Qed.

Lemma runUi_silent (es : list SignToSpeech.UiEvent) :
  forall s : SignToSpeech.State,
  SignToSpeech.recorderSaw apiKeys s ->
  SignToSpeech.requests (snd (SignToSpeech.runUi apiKeys es s)) = [].
Proof.
  induction es as [|e es IH]; intros s H; [reflexivity|].
  destruct (handleUi_silent e s H) as [H1 H2].
  cbn [SignToSpeech.runUi]. destruct (SignToSpeech.handleUi apiKeys e s) as [s1 effects1].
  specialize (IH s1 H1). destruct (SignToSpeech.runUi apiKeys es s1) as [s2 effects2].
  cbn [fst snd] in *. now rewrite requests_app_s, H2, IH.
Qed.

Lemma sendTranscriptionChunk_silent (text : string) (n : nat) (s : SpeechToSign.State) :
  SpeechToSign.requests (snd (SpeechToSign.sendTranscriptionChunk apiKeys text n s)) = [].
Proof.
  unfold SpeechToSign.sendTranscriptionChunk.
  change (SpeechToSign.hasProviderKey apiKeys (SpeechToSign.provider s))
    with (SignToSpeech.hasAPIKey apiKeys (SpeechToSign.provider s)).
  now rewrite hasAPIKey_inactive.
Qed.

Lemma speech_stopRecording_silent (s : SpeechToSign.State) :
  SpeechToSign.requests (snd (SpeechToSign.stopRecording apiKeys s)) = [].
Proof.
  unfold SpeechToSign.stopRecording. destruct (_ && _).
  - match goal with
    | |- context [SpeechToSign.sendTranscriptionChunk apiKeys ?t ?n ?s'] =>
        pose proof (sendTranscriptionChunk_silent t n s') as H1;
        destruct (SpeechToSign.sendTranscriptionChunk apiKeys t n s') as [s2 effects]
    end.
    cbn [snd] in *. rewrite !requests_app, H1.
    destruct (SpeechToSign.chunkInterval s); reflexivity.
  - cbn [snd]. destruct (SpeechToSign.chunkInterval s); reflexivity.
Qed.

Lemma speech_handleUi_silent (e : SpeechToSign.UiEvent) (s : SpeechToSign.State) :
  SpeechToSign.requests (snd (SpeechToSign.handleUi apiKeys e s)) = [].
Proof.
  destruct e as [e|perm|p|l]; cbn [SpeechToSign.handleUi snd]; try reflexivity.
  - unfold SpeechToSign.handle.
    assert (H : SpeechToSign.requests (snd (SpeechToSign.dispatch apiKeys e s)) = []).
    { destruct e as [results| |kind| |n reply|]; cbn [SpeechToSign.dispatch snd];
        try reflexivity.
      - unfold SpeechToSign.onEnd. destruct (SpeechToSign.isRecording s); reflexivity.
      - unfold SpeechToSign.onError. destruct (_ || _); [reflexivity|].
        destruct (String.eqb kind "network"); [apply speech_stopRecording_silent|].
        destruct (String.eqb kind "not-allowed"); [apply speech_stopRecording_silent|].
        destruct (SpeechToSign.isRecording s);
          [apply speech_stopRecording_silent | reflexivity].
      - unfold SpeechToSign.onChunkInterval.
        destruct (SpeechToSign.chunkInterval s); [|reflexivity].
        destruct (_ && _); [|reflexivity]. destruct (truthy _); [|reflexivity].
        match goal with
        | |- context [SpeechToSign.sendTranscriptionChunk apiKeys ?t ?n ?s'] =>
            pose proof (sendTranscriptionChunk_silent t n s') as H1;
            destruct (SpeechToSign.sendTranscriptionChunk apiKeys t n s') as [s2 effects]
        end.
        exact H1.
      - apply speech_stopRecording_silent. }
    destruct (SpeechToSign.dispatch apiKeys e s) as [s1 effects]. exact H.
  - assert (H : SpeechToSign.clickMic apiKeys perm s = (s, [])).
    { unfold SpeechToSign.clickMic, SpeechToSign.canProceed.
      change (SpeechToSign.hasProviderKey apiKeys (SpeechToSign.provider s))
        with (SignToSpeech.hasAPIKey apiKeys (SpeechToSign.provider s)).
      now rewrite hasAPIKey_inactive. }
    rewrite H. reflexivity.
Qed.

Lemma speech_runUi_silent (es : list SpeechToSign.UiEvent) :
  forall s : SpeechToSign.State,
  SpeechToSign.requests (snd (SpeechToSign.runUi apiKeys es s)) = [].
Proof.
  induction es as [|e es IH]; intros s; [reflexivity|].
  pose proof (speech_handleUi_silent e s) as H1.
  cbn [SpeechToSign.runUi]. destruct (SpeechToSign.handleUi apiKeys e s) as [s1 effects1].
  specialize (IH s1). destruct (SpeechToSign.runUi apiKeys es s1) as [s2 effects2].
  cbn [snd] in *. now rewrite requests_app, H1, IH.
Qed.

End Silent.

(** X24. Without an active API key neither view ever calls the backend:
    when none of the keys the dashboard passes down is active, the sign
    view posts nothing from its initial state whatever is done to it
    (recordings, captures, uploads, provider changes), and the speech view
    posts nothing from any state. *)
Theorem no_active_key_no_request
    (apiKeys : list ApiKey) (signEvents : list SignToSpeech.UiEvent)
    (speechEvents : list SpeechToSign.UiEvent) (s : SpeechToSign.State) :
  forallb (fun k => negb (is_active k)) apiKeys = true ->
  SignToSpeech.requests
    (snd (SignToSpeech.runUi apiKeys signEvents SignToSpeech.initial)) = []
  /\ SpeechToSign.requests (snd (SpeechToSign.runUi apiKeys speechEvents s)) = [].
Proof.
  intros H. split.
  - apply runUi_silent; [exact H | exact I].
  - apply speech_runUi_silent. exact H.
Qed.

Lemma no_active_key_no_request_witness :
  let apiKeys := [mkApiKey "openai" false; mkApiKey "gemini-pro" false] in
  let signEvents :=
    [SignToSpeech.CameraClicked;
     SignToSpeech.RecordClicked (fun _ => true) SignToSpeech.Granted;
     SignToSpeech.Component
       (SignToSpeech.DataAvailable (mkBlob [Byte.x1a] "video/webm"));
     SignToSpeech.Component SignToSpeech.StopClicked;
     SignToSpeech.Component (SignToSpeech.RecorderStopped (SignToSpeech.Failed None))] in
  let speechEvents :=
    [SpeechToSign.MicClicked SpeechToSign.Granted;
     SpeechToSign.Recording (SpeechToSign.Result [("hello", true)]);
     SpeechToSign.Recording SpeechToSign.ChunkInterval] in
  SignToSpeech.requests
    (snd (SignToSpeech.runUi apiKeys signEvents SignToSpeech.initial)) = []
  /\ SpeechToSign.requests
       (snd (SpeechToSign.runUi apiKeys speechEvents SpeechToSign.initial)) = [].
Proof.
  intros apiKeys signEvents speechEvents.
  apply (no_active_key_no_request apiKeys signEvents speechEvents SpeechToSign.initial).
  reflexivity.
Defined.

(** ** The emergency overlay over a run of renders *)

Section Overlay.

Import SignToSpeech.

Lemma removeChild_last (id : string) (base : list string) :
  ~ In id base -> removeChild id (base ++ [id]) = base.
Proof.
  induction base as [|x base IH]; intros H.
  - simpl. now rewrite String.eqb_refl.
  - simpl. destruct (String.eqb_spec x id) as [->|_].
    + exfalso. apply H. now left.
    + rewrite IH; [reflexivity|]. intros Hin. apply H. now right.
Qed.

Lemma last_cons_default (v d : bool) (l : list bool) :
  List.last (v :: l) d = List.last l v.
Proof.
  revert v d. induction l as [|x l IH]; intros v d; [reflexivity|].
  change (List.last (v :: x :: l) d) with (List.last (x :: l) d).
  now rewrite (IH x d), (IH x v).
Qed.

Lemma rerender_spec (base : list string) (values : list bool) :
  ~ In overlayId base ->
  forall cur : bool,
  rerender values cur (base ++ if cur then [overlayId] else [])
  = base ++ if List.last values cur then [overlayId] else [].
Proof.
  intros Hbase. induction values as [|v values IH]; intros cur; [reflexivity|].
  cbn [rerender].
  assert (Hstep : commitEmergency cur v (base ++ if cur then [overlayId] else [])
                  = base ++ if v then [overlayId] else []).
  { unfold commitEmergency. destruct cur, v; cbn [Bool.eqb]; try reflexivity.
    - rewrite removeChild_last by exact Hbase. now rewrite app_nil_r.
    - now rewrite app_nil_r. }
  now rewrite Hstep, IH, last_cons_default.
Qed.

End Overlay.

(** X25. The page holds the emergency overlay exactly while [isEmergency]
    is true, and never twice: starting from a page without it and
    [isEmergency] false, after any run of renders the children of
    [document.body] are the ones before, in order, followed by the overlay
    if the last render has [isEmergency] true and by nothing otherwise.
    In particular the page is as before once the blink of a result is
    over. *)
Theorem overlay_follows_isEmergency (body : list string) (values : list bool) :
  ~ In SignToSpeech.overlayId body ->
  SignToSpeech.rerender values false body
  = body ++ (if List.last values false then [SignToSpeech.overlayId] else [])
  /\ SignToSpeech.rerender ([true; false; true; false] ++ values) false body
     = SignToSpeech.rerender values false body.
Proof.
  intros H.
  pose proof (rerender_spec body values H false) as H1.
  rewrite app_nil_r in H1. split; [exact H1|].
  pose proof (rerender_spec body ([true; false; true; false] ++ values) H false) as H2.
  rewrite app_nil_r in H2. rewrite H1, H2.
  change ([true; false; true; false] ++ values)
    with (true :: false :: true :: false :: values).
  now rewrite !last_cons_default.
Qed.

Lemma overlay_follows_isEmergency_witness :
  let body := ["root"] in
  let values := [true; true; false; true] in
  SignToSpeech.rerender values false body
  = body ++ (if List.last values false then [SignToSpeech.overlayId] else [])
  /\ SignToSpeech.rerender ([true; false; true; false] ++ values) false body
     = SignToSpeech.rerender values false body.
Proof.
  intros body values.
  apply (overlay_follows_isEmergency body values).
  intros [H | []]. discriminate H.
Defined.
